(** * FastLZMA2Tool: the streaming pump of src/FastLZMA2Tool.cpp

    A shallow embedding of the command-line driver: the two file streams,
    the two FL2 buffers, the compression and decompression loops, the
    output-name resolution and [main].  The codec itself (libfast-lzma2) is
    an external library: it appears here as the record [Engine], and every
    statement about the pump is made for an arbitrary engine, under an
    explicit contract where one is needed. *)

From Stdlib Require Import String Ascii.
From Stdlib Require Import List ZArith NArith Lia Bool Arith Wellfounded.
Import ListNotations.

Set Implicit Arguments.
Local Open Scope nat_scope.
Local Open Scope list_scope.

(* ================================================================= *)
(** ** Bytes, [size_t] and the two FL2 buffer descriptors *)

Definition byte := Byte.byte.

(** [size_t] counters ([in_size], [out_size]) are 64-bit and wrap. *)
Definition SIZE_MOD : Z := 2 ^ 64.
Definition size_add (a b : Z) : Z := (a + b) mod SIZE_MOD.

(** [l[a .. b)] *)
Definition slice (l : list byte) (a b : nat) : list byte :=
  firstn (b - a) (skipn a l).

(** [FL2_inBuffer { src, size, pos }].  [src] points to the local array
    [in_buffer]; the model keeps the array's contents in the field itself,
    so a read into [in_buffer] is a change of [src]. *)
Record FL2_inBuffer := mkIn { src : list byte; isize : nat; ipos : nat }.

(** [FL2_outBuffer { dst, size, pos }], [dst] pointing to [out_buffer]. *)
Record FL2_outBuffer := mkOut { dst : list byte; osize : nat; opos : nat }.

(* ================================================================= *)
(** ** The file streams [fin] and [fout] *)

(** [std::ifstream]: the bytes not yet read, and the eof/fail state a short
    read leaves behind. *)
Record ifstream := mkFin { in_open : bool; in_rest : list byte; in_eof : bool }.

(** [std::ofstream].  [out_room] is what the device still accepts ([None]:
    no limit); a write that does not fit sets the bad state, after which
    writes do nothing. *)
Record ofstream := mkFout {
  out_open : bool;
  out_path : string;
  out_data : list byte;
  out_room : option nat;
  out_bad : bool
}.

Definition closed_fin : ifstream := mkFin false [] false.
Definition closed_fout : ofstream := mkFout false EmptyString [] None false.

(** [fin.read(buffer, size).gcount()] together with the array and the stream
    after the call. *)
Definition ffread (f : ifstream) (buffer : list byte) (size : nat)
  : nat * list byte * ifstream :=
  if in_open f && negb (in_eof f) then
    let got := firstn size (in_rest f) in
    (length got,
     got ++ skipn (length got) buffer,
     mkFin true (skipn size (in_rest f)) (length (in_rest f) <? size))
  else (0, buffer, f).

Definition ostream_write (f : ofstream) (bs : list byte) : ofstream :=
  if out_open f && negb (out_bad f) then
    match out_room f with
    | None => mkFout true (out_path f) (out_data f ++ bs) None false
    | Some r =>
        if length bs <=? r
        then mkFout true (out_path f) (out_data f ++ bs) (Some (r - length bs)) false
        else mkFout true (out_path f) (out_data f ++ firstn r bs) (Some 0) true
    end
  else mkFout (out_open f) (out_path f) (out_data f) (out_room f) true.

(** [fout.write(buffer, size); return size;] *)
Definition ffwrite (f : ofstream) (buffer : list byte) (size : nat)
  : nat * ofstream :=
  (size, ostream_write f (firstn size buffer)).

(* ================================================================= *)
(** ** The codec engine (fastlzma2/fast-lzma2.h, external) *)

(** The functions of libfast-lzma2 the tool calls.  A call that receives
    [&out_buf] and [&in_buf] returns the descriptors as it leaves them. *)
Record Engine := mkEngine {
  CStream : Type;
  DStream : Type;
  FL2_createCStreamMt : Z -> Z -> option CStream;
  FL2_createDStreamMt : Z -> option DStream;
  FL2_initCStream : CStream -> Z -> CStream * N;
  FL2_initDStream : DStream -> DStream * N;
  FL2_compressStream :
    CStream -> FL2_outBuffer -> FL2_inBuffer ->
    CStream * FL2_outBuffer * FL2_inBuffer * N;
  FL2_endStream : CStream -> FL2_outBuffer -> CStream * FL2_outBuffer * N;
  FL2_decompressStream :
    DStream -> FL2_outBuffer -> FL2_inBuffer ->
    DStream * FL2_outBuffer * FL2_inBuffer * N;
  FL2_isError : N -> bool;
  FL2_getErrorName : N -> string
}.

(** The log of engine calls of a run, oldest first. *)
Inductive Call :=
| CallCreateC
| CallCreateD
| CallInitC (r : N)
| CallInitD (r : N)
| CallCompress (r : N)
| CallEnd (r : N)
| CallDecompress (r : N)
| CallErrorName (r : N)
| CallFreeC
| CallFreeD.

(** What the tool prints on standard output. *)
Inductive Msg :=
| MsgVersion
| MsgMode (compress : bool)
| MsgLevel (preset : Z)
| MsgThreads (n : Z)
| MsgOutputParsed (name : string)
| MsgCompressing (name out : string)
| MsgDecompressingTo (out : string)
| MsgCompressed (bytes_in bytes_out : Z)
| MsgDecompressed (bytes_in bytes_out : Z)
| MsgTook (prefix : string)
| MsgSuccess (compress : bool).

Record IO := mkIO {
  fin : ifstream;
  fout : ofstream;
  stdout : list Msg;
  stderr : list string;
  calls : list Call
}.

Definition nl : string := String (ascii_of_nat 10) EmptyString.

Definition error_line (name : string) : string :=
  ("Error: " ++ name ++ nl)%string.

(* ================================================================= *)
(** ** [do { ... } while (...)] with a jump out *)

Inductive Step (A : Type) :=
| Continue (a : A)   (* the loop condition held *)
| Break (a : A)      (* the loop condition failed *)
| Abort (a : A).     (* goto error_out *)

Inductive LoopResult (A : Type) :=
| Finished (a : A)
| Failed (a : A)
| Spinning.          (* fuel ran out *)

Arguments Spinning {A}.

Fixpoint do_while {A} (body : A -> Step A) (fuel : nat) (a : A) : LoopResult A :=
  match fuel with
  | O => Spinning
  | S fuel' =>
      match body a with
      | Continue a' => do_while body fuel' a'
      | Break a' => Finished a'
      | Abort a' => Failed a'
      end
  end.

(** The states in which an iteration starts ... *)
Inductive entry {A} (body : A -> Step A) (a0 : A) : A -> Prop :=
| entry_first : entry body a0 a0
| entry_next a a' : entry body a0 a -> body a = Continue a' -> entry body a0 a'.

(** ... and the iteration boundaries: those, and the state in which the last
    iteration leaves the loop. *)
Definition boundary {A} (body : A -> Step A) (a0 a' : A) : Prop :=
  entry body a0 a' \/ exists a, entry body a0 a /\ body a = Break a'.

(* ================================================================= *)
(** ** The pump *)

(** The locals of [compress_file] / [decompress_file], the context they are
    given and the streams they use. *)
Record Pump (X : Type) := mkPump {
  ctx : X;
  in_buf : FL2_inBuffer;
  out_buf : FL2_outBuffer;
  res : N;
  in_size : Z;
  out_size : Z;
  io : IO
}.

Definition log_call (c : Call) (w : IO) : IO :=
  mkIO (fin w) (fout w) (stdout w) (stderr w) (calls w ++ [c]).

Definition print (m : Msg) (w : IO) : IO :=
  mkIO (fin w) (fout w) (stdout w ++ [m]) (stderr w) (calls w).

Definition eprint (s : string) (w : IO) : IO :=
  mkIO (fin w) (fout w) (stdout w) (stderr w ++ [s]) (calls w).

Definition set_fin (f : ifstream) (w : IO) : IO :=
  mkIO f (fout w) (stdout w) (stderr w) (calls w).

Definition set_fout (f : ofstream) (w : IO) : IO :=
  mkIO (fin w) f (stdout w) (stderr w) (calls w).

(** [if (in_buf.pos == in_buf.size) { in_buf.size = ffread(in_buffer, cap);
    in_size += in_buf.size; in_buf.pos = 0; }] *)
Definition refill {X} (cap : nat) (st : Pump X) : Pump X :=
  if ipos (in_buf st) =? isize (in_buf st) then
    let '(n, buffer, f) := ffread (fin (io st)) (src (in_buf st)) cap in
    mkPump (ctx st) (mkIn buffer n 0) (out_buf st) (res st)
           (size_add (in_size st) (Z.of_nat n)) (out_size st)
           (set_fin f (io st))
  else st.

(** [ffwrite(out_buf.dst, out_buf.pos); out_size += out_buf.pos;
    out_buf.pos = 0;] *)
Definition drain {X} (st : Pump X) : Pump X :=
  let o := out_buf st in
  let '(_, f) := ffwrite (fout (io st)) (dst o) (opos o) in
  mkPump (ctx st) (in_buf st) (mkOut (dst o) (osize o) 0) (res st)
         (in_size st) (size_add (out_size st) (Z.of_nat (opos o)))
         (set_fout f (io st)).

Definition IN_CAP_C : nat := 8 * 1024.
Definition OUT_CAP_C : nat := 4 * 1024.
Definition IN_CAP_D : nat := 4 * 1024.
Definition OUT_CAP_D : nat := 8 * 1024.

(** The arrays are not initialised by the source; their first contents are
    never read by an engine that stays inside [pos .. size). *)
Definition fresh_array (n : nat) : list byte := repeat Byte.x00 n.

Section Pump.

Variable E : Engine.

(** [res = FL2_compressStream(fcs, &out_buf, &in_buf);] *)
Definition feed_c (st : Pump (CStream E)) : Pump (CStream E) :=
  let '(c, o, i, r) := FL2_compressStream E (ctx st) (out_buf st) (in_buf st) in
  mkPump c i o r (in_size st) (out_size st) (log_call (CallCompress r) (io st)).

(** [res = FL2_endStream(fcs, &out_buf);] *)
Definition feed_end (st : Pump (CStream E)) : Pump (CStream E) :=
  let '(c, o, r) := FL2_endStream E (ctx st) (out_buf st) in
  mkPump c (in_buf st) o r (in_size st) (out_size st)
         (log_call (CallEnd r) (io st)).

(** [res = FL2_decompressStream(fds, &out_buf, &in_buf);] *)
Definition feed_d (st : Pump (DStream E)) : Pump (DStream E) :=
  let '(d, o, i, r) := FL2_decompressStream E (ctx st) (out_buf st) (in_buf st) in
  mkPump d i o r (in_size st) (out_size st) (log_call (CallDecompress r) (io st)).

(** Body and condition of the first loop of [compress_file]. *)
Definition compress_body (st : Pump (CStream E)) : Step (Pump (CStream E)) :=
  let st2 := feed_c (refill IN_CAP_C st) in
  if FL2_isError E (res st2) then Abort st2
  else
    let st3 := drain st2 in
    if isize (in_buf st3) =? 0 then Break st3 else Continue st3.

(** Body and condition of the second loop of [compress_file]. *)
Definition finish_body (st : Pump (CStream E)) : Step (Pump (CStream E)) :=
  let st2 := feed_end st in
  if FL2_isError E (res st2) then Abort st2
  else
    let st3 := drain st2 in
    if (res st3 =? 0)%N then Break st3 else Continue st3.

(** Body and condition of the loop of [decompress_file]. *)
Definition decompress_body (st : Pump (DStream E)) : Step (Pump (DStream E)) :=
  let st2 := feed_d (refill IN_CAP_D st) in
  if FL2_isError E (res st2) then Abort st2
  else
    let st3 := drain st2 in
    if negb (res st3 =? 0)%N && negb (isize (in_buf st3) =? 0)
    then Continue st3 else Break st3.

(** The locals as declared at the top of [compress_file]. *)
Definition compress_start (cs : CStream E) (w : IO) : Pump (CStream E) :=
  mkPump cs
         (mkIn (fresh_array IN_CAP_C) IN_CAP_C IN_CAP_C)
         (mkOut (fresh_array OUT_CAP_C) OUT_CAP_C 0)
         0%N 0%Z 0%Z w.

(** The locals as declared at the top of [decompress_file] ([res] is not
    initialised there; it is written before it is read). *)
Definition decompress_start (ds : DStream E) (w : IO) : Pump (DStream E) :=
  mkPump ds
         (mkIn (fresh_array IN_CAP_D) IN_CAP_D IN_CAP_D)
         (mkOut (fresh_array OUT_CAP_D) OUT_CAP_D 0)
         0%N 0%Z 0%Z w.

(** [error_out: fprintf(stderr, "Error: %s\n", FL2_getErrorName(res));
    return 1;] followed by the [Timer] destructor. *)
Definition error_out {X} (prefix : string) (st : Pump X) : Z * Pump X :=
  let w := eprint (error_line (FL2_getErrorName E (res st)))
                  (log_call (CallErrorName (res st)) (io st)) in
  (1%Z, mkPump (ctx st) (in_buf st) (out_buf st) (res st)
               (in_size st) (out_size st) (print (MsgTook prefix) w)).

Definition report {X} (m : Msg) (prefix : string) (st : Pump X) : Z * Pump X :=
  (0%Z, mkPump (ctx st) (in_buf st) (out_buf st) (res st)
               (in_size st) (out_size st)
               (print (MsgTook prefix) (print m (io st)))).

(** [compress_file]: the return value and the final state, or [None] when
    [fuel] iterations of a loop were not enough. *)
Definition compress_file (fuel : nat) (cs : CStream E) (w : IO)
  : option (Z * Pump (CStream E)) :=
  match do_while compress_body fuel (compress_start cs w) with
  | Spinning => None
  | Failed st => Some (error_out "Compression" st)
  | Finished st =>
      match do_while finish_body fuel st with
      | Spinning => None
      | Failed st' => Some (error_out "Compression" st')
      | Finished st' =>
          Some (report (MsgCompressed (in_size st') (out_size st'))
                       "Compression" st')
      end
  end.

(** [decompress_file]. *)
Definition decompress_file (fuel : nat) (ds : DStream E) (w : IO)
  : option (Z * Pump (DStream E)) :=
  match do_while decompress_body fuel (decompress_start ds w) with
  | Spinning => None
  | Failed st => Some (error_out "Decompression" st)
  | Finished st =>
      Some (report (MsgDecompressed (in_size st) (out_size st))
                   "Decompression" st)
  end.

End Pump.

(* ================================================================= *)
(** ** Output-name resolution *)

Definition backslash : string := String (ascii_of_nat 92) EmptyString.

Definition postfix : string := ".lzma2".

(** [std::equal(first1, last1, first2)]: the second range has to hold as
    many elements as the first; where it does not, the call reads past its
    end and the behaviour is undefined ([None]). *)
Fixpoint std_equal (a b : list ascii) : option bool :=
  match a, b with
  | [], _ => Some true
  | _ :: _, [] => None
  | x :: a', y :: b' =>
      match std_equal a' b' with
      | Some r => Some (Ascii.eqb x y && r)
      | None => None
      end
  end.

(** [std::equal(postfix.rbegin(), postfix.rend(), out_name.rbegin())] *)
Definition has_postfix (out_name : string) : option bool :=
  std_equal (rev (list_ascii_of_string postfix))
            (rev (list_ascii_of_string out_name)).

(** [s.find(sub) != 1] *)
Definition find_is_not_1 (s sub : string) : bool :=
  match index 0 sub s with
  | Some 1 => false
  | _ => true
  end.

(** Lines 243-260 of [main]: the new value of [out_name]. *)
Definition resolve_out_name (compress : bool) (cwd out_name : string)
  : option string :=
  if compress then
    let out1 :=
      if find_is_not_1 out_name (":" ++ backslash)%string
         && find_is_not_1 out_name ":/"
      then (cwd ++ backslash ++ out_name)%string
      else out_name in
    match has_postfix out1 with
    | None => None
    | Some true => Some out1
    | Some false => Some (out1 ++ postfix)%string
    end
  else
    match has_postfix out_name with
    | None => None
    | Some true =>
        Some (substring 0 (String.length out_name - String.length postfix)
                        out_name)
    | Some false => Some out_name
    end.

(** A string ends with the container suffix. *)
Definition ends_with_postfix (s : string) : Prop :=
  exists stem : string, s = (stem ++ postfix)%string.

(* ================================================================= *)
(** ** Command line *)

(** [-threads=N] and [-preset=N], lines 203-214: the pair
    [(thread_count, preset)] after one argument. *)
Definition parse_option (atoi : string -> Z) (tp : Z * Z) (arg : string) : Z * Z :=
  if prefix "-threads=" arg
  then (atoi (substring 9 (String.length arg - 9) arg), snd tp)
  else if prefix "-preset=" arg
  then (fst tp, atoi (substring 8 (String.length arg - 8) arg))
  else tp.

(** [argv[i][0] != '-'] *)
Definition not_dash (arg : string) : bool :=
  match arg with
  | String c _ => negb (Ascii.eqb c "-")
  | EmptyString => true
  end.

(** Lines 220-230: the first argument that is no option, and the argument
    after it when there is one. *)
Fixpoint find_name (args : list string) : option (string * option string) :=
  match args with
  | [] => None
  | a :: rest =>
      if not_dash a then Some (a, hd_error rest) else find_name rest
  end.

Definition usage : string :=
  "Usage: [compress|decompress] [-preset=1..10] [-threads=N] FILE[.lzma2]".

(** What the process finds around it: the working directory, the C library's
    [atoi], and which files open ([open_out]: the room on the device). *)
Record Env := mkEnv {
  cwd : string;
  atoi : string -> Z;
  open_in : string -> option (list byte);
  open_out : string -> option (option nat)
}.

(* ================================================================= *)
(** ** The process: globals, [exit], [main] *)

(** [FL2_CStream* fcs], [FL2_DStream* fds] *)
Inductive Handle (X : Type) :=
| Null
| Live (x : X)
| Freed.

Arguments Null {X}.
Arguments Freed {X}.

Definition is_live {X} (h : Handle X) : bool :=
  match h with Live _ => true | _ => false end.

Definition close_fin (f : ifstream) : ifstream :=
  mkFin false (in_rest f) (in_eof f).

Definition close_fout (f : ofstream) : ofstream :=
  mkFout false (out_path f) (out_data f) (out_room f) (out_bad f).

Section Process.

Variable E : Engine.
Variable env : Env.

(** The file-scope variables. *)
Record Process := mkProc {
  pio : IO;
  fcs : Handle (CStream E);
  fds : Handle (DStream E);
  out_name : string;
  thread_count : Z;
  bCompress : bool
}.

Definition process_start : Process :=
  mkProc (mkIO closed_fin closed_fout [] [] []) Null Null EmptyString 8%Z true.

Definition with_io (f : IO -> IO) (p : Process) : Process :=
  mkProc (f (pio p)) (fcs p) (fds p) (out_name p) (thread_count p) (bCompress p).

(** How a piece of the program ends: it returns, the process exits, the
    behaviour is undefined, or a loop was cut short by the fuel. *)
Inductive Res (A : Type) :=
| Ret (a : A) (p : Process)
| Exit (code : Z) (p : Process)
| Undefined
| NoFuel.

Arguments Exit {A}.
Arguments Undefined {A}.
Arguments NoFuel {A}.

Definition M (A : Type) : Type := Process -> Res A.

Definition ret {A} (a : A) : M A := fun p => Ret a p.

Definition bind {A B} (c : M A) (k : A -> M B) : M B :=
  fun p =>
    match c p with
    | Ret a p' => k a p'
    | Exit code p' => Exit code p'
    | Undefined => Undefined
    | NoFuel => NoFuel
    end.

Definition get : M Process := fun p => Ret p p.
Definition modify (f : Process -> Process) : M unit := fun p => Ret tt (f p).
Definition undefined {A} : M A := fun _ => Undefined.

(** Objects of static storage duration are destroyed when the process ends:
    [fin] and [fout] close their files. *)
Definition static_destroy (p : Process) : Process :=
  with_io (fun w => set_fout (close_fout (fout w)) (set_fin (close_fin (fin w)) w)) p.

(** [exit(code)] *)
Definition exit_ {A} (code : Z) : M A := fun p => Exit code (static_destroy p).

End Process.

Arguments Undefined {E A}.
Arguments NoFuel {E A}.
Arguments Ret {E A}.
Arguments Exit {E A}.
Arguments mkProc {E}.
Arguments get {E}.
Arguments undefined {E A}.
Arguments exit_ {E A}.
Arguments ret {E A}.

Declare Scope proc_scope.
Delimit Scope proc_scope with proc.
Notation "x <- c ;; k" := (bind c (fun x => k))
  (at level 61, c at next level, right associativity) : proc_scope.
Notation "c ;;; k" := (bind c (fun _ => k))
  (at level 61, right associativity) : proc_scope.

Section Main.

Variable E : Engine.
Variable env : Env.

Local Open Scope proc_scope.

Definition out (m : Msg) : M E unit := modify (with_io (print m)).
Definition err (s : string) : M E unit := modify (with_io (eprint s)).
Definition logc (c : Call) : M E unit := modify (with_io (log_call c)).

(** [exit_fail(msg)] *)
Definition exit_fail {A} (msg : string) : M E A :=
  err msg ;;; exit_ 1.

(** [create_init_fl2_streams(preset)] *)
Definition create_init_fl2_streams (preset : Z) : M E unit :=
  p <- get ;;
  logc CallCreateC ;;;
  match FL2_createCStreamMt E (thread_count p) 0 with
  | None => exit_fail ("Cannot allocate compression context." ++ nl)
  | Some cs =>
      modify (fun p => mkProc (pio p) (Live cs) (fds p) (out_name p)
                              (thread_count p) (bCompress p)) ;;;
      logc CallCreateD ;;;
      match FL2_createDStreamMt E (thread_count p) with
      | None => exit_fail ("Cannot allocate decompression context." ++ nl)
      | Some ds =>
          let '(cs', r) := FL2_initCStream E cs preset in
          logc (CallInitC r) ;;;
          let '(ds', r') :=
            if (r =? 0)%N then FL2_initDStream E ds else (ds, r) in
          (if (r =? 0)%N then logc (CallInitD r') else ret tt) ;;;
          modify (fun p => mkProc (pio p) (Live cs') (Live ds') (out_name p)
                                  (thread_count p) (bCompress p)) ;;;
          if FL2_isError E r' then
            logc (CallErrorName r') ;;;
            err (error_line (FL2_getErrorName E r')) ;;;
            exit_ 1
          else ret tt
      end
  end.

(** [open_files(name)] *)
Definition open_files (name : string) : M E unit :=
  match open_in env name with
  | None => exit_fail ("Cannot open input file." ++ nl)
  | Some data =>
      modify (with_io (set_fin (mkFin true data false))) ;;;
      p <- get ;;
      match open_out env (out_name p) with
      | None => exit_fail ("Cannot open output file." ++ nl)
      | Some room =>
          modify (with_io (set_fout (mkFout true (out_name p) [] room false)))
      end
  end.

(** [ret = compress_file(fcs);] *)
Definition run_compress (fuel : nat) : M E Z :=
  fun p =>
    match fcs p with
    | Live cs =>
        match compress_file E fuel cs (pio p) with
        | None => NoFuel
        | Some (r, st) =>
            Ret r (mkProc (io st) (Live (ctx st)) (fds p) (out_name p)
                          (thread_count p) (bCompress p))
        end
    | _ => Undefined
    end.

(** [ret = decompress_file(fds);] *)
Definition run_decompress (fuel : nat) : M E Z :=
  fun p =>
    match fds p with
    | Live ds =>
        match decompress_file E fuel ds (pio p) with
        | None => NoFuel
        | Some (r, st) =>
            Ret r (mkProc (io st) (fcs p) (Live (ctx st)) (out_name p)
                          (thread_count p) (bCompress p))
        end
    | _ => Undefined
    end.

(** Lines 282-287: [fout.flush(); fout.close(); fin.close();
    FL2_freeCStream(fcs); FL2_freeDStream(fds);] *)
Definition cleanup : M E unit :=
  modify (with_io (fun w => set_fout (close_fout (fout w)) w)) ;;;
  modify (with_io (fun w => set_fin (close_fin (fin w)) w)) ;;;
  logc CallFreeC ;;;
  modify (fun p => mkProc (pio p) Freed (fds p) (out_name p)
                          (thread_count p) (bCompress p)) ;;;
  logc CallFreeD ;;;
  modify (fun p => mkProc (pio p) (fcs p) Freed (out_name p)
                          (thread_count p) (bCompress p)).

Definition set_mode (b : bool) : M E unit :=
  modify (fun p => mkProc (pio p) (fcs p) (fds p) (out_name p)
                          (thread_count p) b).

Definition set_threads (n : Z) : M E unit :=
  modify (fun p => mkProc (pio p) (fcs p) (fds p) (out_name p) n (bCompress p)).

Definition set_out_name (s : string) : M E unit :=
  modify (fun p => mkProc (pio p) (fcs p) (fds p) s
                          (thread_count p) (bCompress p)).

(** Lines 262-288, from [create_init_fl2_streams] to [return ret]. *)
Definition run (fuel : nat) (preset : Z) (name : string) : M E Z :=
  create_init_fl2_streams preset ;;;
  open_files name ;;;
  p <- get ;;
  r <- (if bCompress p then
          out (MsgCompressing name (out_name p)) ;;;
          r <- run_compress fuel ;;
          (if (r =? 0)%Z then out (MsgSuccess true) else ret tt) ;;;
          ret r
        else
          out (MsgDecompressingTo (out_name p)) ;;;
          r <- run_decompress fuel ;;
          (if (r =? 0)%Z then out (MsgSuccess false) else ret tt) ;;;
          ret r) ;;
  cleanup ;;;
  ret r.

(** [main(argc, argv)], [argc] being the length of [argv]. *)
Definition main_body (fuel : nat) (argv : list string) : M E Z :=
  out MsgVersion ;;;
  if length argv <? 2 then exit_fail usage
  else
    let op := nth 1 argv EmptyString in
    argIndex <-
      (if prefix "compress" op then set_mode true ;;; ret 2
       else if prefix "decompress" op then set_mode false ;;; ret 2
       else ret 1) ;;
    p <- get ;;
    let '(threads, preset) :=
      fold_left (parse_option (atoi env)) (skipn argIndex argv)
                (thread_count p, 6%Z) in
    set_threads threads ;;;
    p <- get ;;
    out (MsgMode (bCompress p)) ;;;
    out (MsgLevel preset) ;;;
    out (MsgThreads threads) ;;;
    match find_name (skipn argIndex argv) with
    | None => exit_fail usage
    | Some (name, next) =>
        match next with
        | Some o => set_out_name o ;;; out (MsgOutputParsed o)
        | None => ret tt
        end ;;;
        p <- get ;;
        (if String.length (out_name p) =? 0 then set_out_name name else ret tt) ;;;
        p <- get ;;
        match resolve_out_name (bCompress p) (cwd env) (out_name p) with
        | None => undefined
        | Some o =>
            set_out_name o ;;;
            run fuel preset name
        end
    end.

(** The whole process: [main] returns its value as the exit status, and the
    static objects are destroyed. *)
Definition main (fuel : nat) (argv : list string) : Res E Z :=
  match main_body fuel argv (process_start E) with
  | Ret r p => Exit r (static_destroy p)
  | other => other
  end.

End Main.

(* ================================================================= *)
(** ** Example engines

    libfast-lzma2 itself is not modelled.  The engines below are small
    stand-ins with the same interface, used to run the pump on concrete
    inputs. *)

(** [dst] with [bs] stored from offset [pos]. *)
Definition write_at (dst : list byte) (pos : nat) (bs : list byte) : list byte :=
  firstn pos dst ++ bs ++ skipn (pos + length bs) dst.

Definition ERR_GENERIC : N := (2 ^ 64 - 1)%N.

Definition code_is_error (r : N) : bool := (2 ^ 64 - 20 <=? r)%N.

Definition code_name (r : N) : string :=
  if code_is_error r then "Error (generic)" else "No error detected".

Definition x00 : byte := Byte.x00.
Definition x01 : byte := Byte.x01.

(** *** The pair codec: every byte [b] becomes [01 b], the stream ends
    with [00]. *)
Module PairCodec.

Definition enc (s : list byte) : list byte :=
  flat_map (fun b => [x01; b]) s.

Definition container (s : list byte) : list byte := enc s ++ [x00].

Inductive Phase := Tag | Data | Done.

Definition compressStream (c : unit) (o : FL2_outBuffer) (i : FL2_inBuffer)
  : unit * FL2_outBuffer * FL2_inBuffer * N :=
  let k := Nat.min (isize i - ipos i) ((osize o - opos o) / 2) in
  let chunk := slice (src i) (ipos i) (ipos i + k) in
  (tt,
   mkOut (write_at (dst o) (opos o) (enc chunk)) (osize o) (opos o + 2 * k),
   mkIn (src i) (isize i) (ipos i + k),
   0%N).

Definition endStream (c : unit) (o : FL2_outBuffer)
  : unit * FL2_outBuffer * N :=
  if opos o <? osize o
  then (tt, mkOut (write_at (dst o) (opos o) [x00]) (osize o) (opos o + 1), 0%N)
  else (tt, o, 1%N).

Definition decompressStream (d : Phase) (o : FL2_outBuffer) (i : FL2_inBuffer)
  : Phase * FL2_outBuffer * FL2_inBuffer * N :=
  match d with
  | Done => (Done, o, i, 0%N)
  | Tag =>
      if ipos i <? isize i then
        let t := nth (ipos i) (src i) x00 in
        if Byte.eqb t x00 then (Done, o, mkIn (src i) (isize i) (ipos i + 1), 0%N)
        else if Byte.eqb t x01
             then (Data, o, mkIn (src i) (isize i) (ipos i + 1), 1%N)
             else (Tag, o, i, ERR_GENERIC)
      else (Tag, o, i, 1%N)
  | Data =>
      if (ipos i <? isize i) && (opos o <? osize o) then
        let b := nth (ipos i) (src i) x00 in
        (Tag,
         mkOut (write_at (dst o) (opos o) [b]) (osize o) (opos o + 1),
         mkIn (src i) (isize i) (ipos i + 1),
         1%N)
      else (Data, o, i, 1%N)
  end.

Definition engine : Engine :=
  mkEngine (fun _ _ => Some tt) (fun _ => Some Tag)
           (fun c _ => (c, 0%N)) (fun d => (d, 0%N))
           compressStream endStream decompressStream
           code_is_error code_name.

End PairCodec.

(** *** An engine whose compressor never reads its input and stores one
    byte of output on every call. *)
Module Trickle.

Definition compressStream (c : unit) (o : FL2_outBuffer) (i : FL2_inBuffer)
  : unit * FL2_outBuffer * FL2_inBuffer * N :=
  if opos o <? osize o
  then (tt, mkOut (write_at (dst o) (opos o) [x00]) (osize o) (opos o + 1), i, 0%N)
  else (tt, o, i, 0%N).

Definition engine : Engine :=
  mkEngine (fun _ _ => Some tt) (fun _ => Some PairCodec.Tag)
           (fun c _ => (c, 0%N)) (fun d => (d, 0%N))
           compressStream PairCodec.endStream PairCodec.decompressStream
           code_is_error code_name.

End Trickle.

(** *** Example surroundings *)

Definition hello : list byte :=
  [Byte.x68; Byte.x65; Byte.x6c; Byte.x6c; Byte.x6f; Byte.x20;
   Byte.x77; Byte.x6f; Byte.x72; Byte.x6c; Byte.x64].

(** Every input name opens on [data]; every output opens with [room]. *)
Definition env_with (data : option (list byte)) (room : option nat) : Env :=
  mkEnv "/tmp" (fun _ => 0%Z) (fun _ => data) (fun _ => Some room).

(** A source stream just opened on [data], a sink just opened. *)
Definition io_on (data : list byte) (room : option nat) : IO :=
  mkIO (mkFin true data false) (mkFout true "out" [] room false) [] [] [].

(* ================================================================= *)
(** ** What the pump expects of an engine *)

(** [pos <= size], and [size] within the array. *)
Definition valid_in (i : FL2_inBuffer) : Prop :=
  ipos i <= isize i /\ isize i <= length (src i).

Definition valid_out (o : FL2_outBuffer) : Prop :=
  opos o <= osize o /\ osize o <= length (dst o).

(** A call moves [pos] forward, not past [size], and leaves the rest of the
    descriptor alone. *)
Definition in_kept (i i' : FL2_inBuffer) : Prop :=
  src i' = src i /\ isize i' = isize i /\ ipos i <= ipos i' <= isize i.

Definition out_kept (o o' : FL2_outBuffer) : Prop :=
  length (dst o') = length (dst o) /\ osize o' = osize o
  /\ opos o <= opos o' <= osize o.

(** The buffer discipline of the three streaming calls, asked of the calls
    that report no error. *)
Record Discipline (E : Engine) : Prop := mkDiscipline {
  compress_kept :
    forall c o i c' o' i' r,
      FL2_compressStream E c o i = (c', o', i', r) ->
      FL2_isError E r = false -> valid_in i -> valid_out o ->
      in_kept i i' /\ out_kept o o';
  end_kept :
    forall c o c' o' r,
      FL2_endStream E c o = (c', o', r) ->
      FL2_isError E r = false -> valid_out o ->
      out_kept o o';
  decompress_kept :
    forall d o i d' o' i' r,
      FL2_decompressStream E d o i = (d', o', i', r) ->
      FL2_isError E r = false -> valid_in i -> valid_out o ->
      in_kept i i' /\ out_kept o o'
}.

(** [0 <= position <= size <= capacity], for both buffers of a pump. *)
Definition buffers_ok {X} (in_cap out_cap : nat) (st : Pump X) : Prop :=
  (0 <= ipos (in_buf st) /\ ipos (in_buf st) <= isize (in_buf st)
   /\ isize (in_buf st) <= in_cap)
  /\ (0 <= opos (out_buf st) /\ opos (out_buf st) <= osize (out_buf st)
      /\ osize (out_buf st) <= out_cap).

(** What holds of the locals between iterations: in addition, the arrays
    keep their length and the output buffer is empty. *)
Definition tidy {X} (in_cap out_cap : nat) (st : Pump X) : Prop :=
  ipos (in_buf st) <= isize (in_buf st)
  /\ isize (in_buf st) <= in_cap
  /\ length (src (in_buf st)) = in_cap
  /\ opos (out_buf st) = 0
  /\ osize (out_buf st) = out_cap
  /\ length (dst (out_buf st)) = out_cap.

(** An input stream is readable when it is open and, once it has reported
    its end, holds nothing more. *)
Definition readable (f : ifstream) : Prop :=
  in_open f = true /\ (in_eof f = true -> in_rest f = []).

(** ** Reading the call log *)

(** The calls that process data: feed ([FL2_compressStream],
    [FL2_decompressStream]) and finish ([FL2_endStream]). *)
Definition is_pump_call (c : Call) : bool :=
  match c with
  | CallCompress _ | CallEnd _ | CallDecompress _ => true
  | _ => false
  end.

Definition call_status (c : Call) : N :=
  match c with
  | CallInitC r | CallInitD r | CallCompress r | CallEnd r
  | CallDecompress r | CallErrorName r => r
  | _ => 0%N
  end.

(** A feed or finish call that returned an error status. *)
Definition pump_error (E : Engine) (c : Call) : bool :=
  is_pump_call c && FL2_isError E (call_status c).

(** The calls made before the pump starts. *)
Definition is_setup_call (c : Call) : bool :=
  match c with
  | CallCreateC | CallCreateD | CallInitC _ | CallInitD _ | CallErrorName _ => true
  | _ => false
  end.

(** ** A run seen without its sink *)

(** The pump with the sink put out of sight. *)
Definition hide_sink {X} (st : Pump X) : Pump X :=
  mkPump (ctx st) (in_buf st) (out_buf st) (res st) (in_size st) (out_size st)
         (set_fout closed_fout (io st)).

Definition map_step {A B} (f : A -> B) (s : Step A) : Step B :=
  match s with
  | Continue a => Continue (f a)
  | Break a => Break (f a)
  | Abort a => Abort (f a)
  end.

Definition map_loop {A B} (f : A -> B) (r : LoopResult A) : LoopResult B :=
  match r with
  | Finished a => Finished (f a)
  | Failed a => Failed (f a)
  | Spinning => Spinning
  end.

(** The return value and the final state of a pump function, but for what
    the sink holds. *)
Definition but_sink {X} (r : option (Z * Pump X)) : option (Z * Pump X) :=
  match r with
  | Some (z, st) => Some (z, hide_sink st)
  | None => None
  end.

(** ** Counting bytes *)

(** A sink that is open, in a good state and without a limit takes every
    byte written to it. *)
Definition healthy (f : ofstream) : Prop :=
  out_open f = true /\ out_bad f = false /\ out_room f = None.

(** The counters of a pump agree with the streams: [in_size] counts the
    bytes taken from a source that held [len0] bytes, [out_size] the bytes
    added to a sink that held [data0] bytes. *)
Definition accounted {X} (len0 data0 : nat) (st : Pump X) : Prop :=
  readable (fin (io st))
  /\ length (in_rest (fin (io st))) <= len0
  /\ in_size st
     = (Z.of_nat (len0 - length (in_rest (fin (io st)))) mod SIZE_MOD)%Z
  /\ healthy (fout (io st))
  /\ data0 <= length (out_data (fout (io st)))
  /\ out_size st
     = (Z.of_nat (length (out_data (fout (io st))) - data0) mod SIZE_MOD)%Z.

(** ** Progress *)

(** The bytes of the source not yet taken by the engine: those still in the
    input buffer and those still in the stream. *)
Definition unread {X} (st : Pump X) : nat :=
  (isize (in_buf st) - ipos (in_buf st)) + length (in_rest (fin (io st))).

(** The progress the first loop of [compress_file] relies on: a feed call
    that reports no error, is offered unread input and an empty output
    buffer of the pump's capacity, takes at least one byte of input or else
    lowers [backlog], a bound on the output the engine still holds back. *)
Definition feed_progresses (E : Engine) (backlog : CStream E -> nat) : Prop :=
  forall c o i c' o' i' r,
    FL2_compressStream E c o i = (c', o', i', r) ->
    FL2_isError E r = false ->
    valid_in i -> valid_out o ->
    opos o = 0 -> osize o = OUT_CAP_C ->
    ipos i < isize i ->
    ipos i < ipos i' \/ backlog c' < backlog c.

(** The progress as the specification words it: a feed call that reports no
    error takes at least one byte of input or stores at least one byte of
    output. *)
Definition feed_moves (E : Engine) : Prop :=
  forall c o i c' o' i' r,
    FL2_compressStream E c o i = (c', o', i', r) ->
    FL2_isError E r = false ->
    valid_in i -> valid_out o ->
    opos o = 0 -> osize o = OUT_CAP_C ->
    ipos i < ipos i' \/ opos o < opos o'.

(** ** Reasoning about the process *)

Section ProcessLogic.

Variable E : Engine.

(** From a state in [P], the computation [c] returns in [Q] or exits in
    [X]. *)
Definition triple {A} (P : Process E -> Prop) (c : M E A)
           (Q : A -> Process E -> Prop) (X : Z -> Process E -> Prop) : Prop :=
  forall p, P p ->
    match c p with
    | Ret a p' => Q a p'
    | Exit code p' => X code p'
    | Undefined | NoFuel => True
    end.

(** Both file streams are closed. *)
Definition closed (p : Process E) : Prop :=
  in_open (fin (pio p)) = false /\ out_open (fout (pio p)) = false.

(** Before the pump: only set-up calls were made, and no context has been
    destroyed. *)
Definition Setup (p : Process E) : Prop :=
  Forall (fun c => is_setup_call c = true) (calls (pio p))
  /\ fcs p <> Freed /\ fds p <> Freed.

(** Both contexts exist. *)
Definition Ready (p : Process E) : Prop :=
  Setup p /\ is_live (fcs p) = true /\ is_live (fds p) = true.

(** A feed or finish call that reported no error. *)
Definition clean_call (c : Call) : Prop :=
  is_pump_call c = true /\ pump_error E c = false.

(** The calls [l] of a pump function that returned [r], and what it left on
    standard error: feed and finish calls without error when [r] is 0; when
    [r] is 1 such calls, then one with an error status, then the query of
    its name, which is on standard error. *)
Definition pump_log (r : Z) (l : list Call) (errs : list string) : Prop :=
  (r = 0%Z /\ Forall clean_call l /\ l <> [])
  \/ (r = 1%Z
      /\ exists l' c,
           l = l' ++ [c; CallErrorName (call_status c)]
           /\ Forall clean_call l'
           /\ is_pump_call c = true
           /\ pump_error E c = true
           /\ In (error_line (FL2_getErrorName E (call_status c))) errs).

(** After the pump function has returned [r]. *)
Definition Pumped (r : Z) (p : Process E) : Prop :=
  (exists pre l,
      calls (pio p) = pre ++ l
      /\ Forall (fun c => is_setup_call c = true) pre
      /\ pump_log r l (stderr (pio p)))
  /\ is_live (fcs p) = true /\ is_live (fds p) = true.

(** After the last lines of [main]. *)
Definition Done (r : Z) (p : Process E) : Prop :=
  (exists pre l,
      calls (pio p) = pre ++ l ++ [CallFreeC; CallFreeD]
      /\ Forall (fun c => is_setup_call c = true) pre
      /\ pump_log r l (stderr (pio p)))
  /\ fcs p = Freed /\ fds p = Freed.

(** An exit through [exit(1)], before the pump. *)
Definition Early (code : Z) (p : Process E) : Prop :=
  code = 1%Z /\ Setup p /\ closed p.

End ProcessLogic.

(** ** The contract of a codec *)

(** The bytes a call took from the input buffer, stored in the output
    buffer, and was offered. *)
Definition consumed (i i' : FL2_inBuffer) : list byte :=
  slice (src i) (ipos i) (ipos i').

Definition produced (o o' : FL2_outBuffer) : list byte :=
  slice (dst o') (opos o) (opos o').

Definition offered (i : FL2_inBuffer) : list byte :=
  slice (src i) (ipos i) (isize i).

(** What the round trip asks of the engine, call by call.  The engine
    provides the relations: [container K S] says that [K] is a complete
    compressed stream of [S]; [c_rel c i o] that the compressor [c] has so
    far taken [i] and given [o]; [f_rel] the same once finishing has begun;
    [d_rel K S d i o] that the decompressor [d], at work on [K], has taken
    [i] and given [o].  The pump offers every call an empty output buffer of
    its capacity, and the contract is asked for such calls. *)
Record Codec (E : Engine) := mkCodec {
  container : list byte -> list byte -> Prop;
  c_rel : CStream E -> list byte -> list byte -> Prop;
  f_rel : CStream E -> list byte -> list byte -> Prop;
  d_rel : list byte -> list byte -> DStream E -> list byte -> list byte -> Prop;
  c_backlog : CStream E -> nat;
  f_pending : CStream E -> nat;

  codec_discipline : Discipline E;
  codec_progress : feed_progresses E c_backlog;

  (** A feed of the compressor reports no error and accounts for the bytes
      it takes and gives. *)
  compress_ok :
    forall c o i c' o' i' r inp out,
      FL2_compressStream E c o i = (c', o', i', r) ->
      c_rel c inp out -> valid_in i -> valid_out o ->
      opos o = 0 -> osize o = OUT_CAP_C ->
      FL2_isError E r = false
      /\ c_rel c' (inp ++ consumed i i') (out ++ produced o o');

  finish_begins : forall c inp out, c_rel c inp out -> f_rel c inp out;

  (** A finish call reports no error; with status 0 the bytes given so far
      are a complete stream of the bytes taken; with another status less
      is pending than before. *)
  end_ok :
    forall c o c' o' r inp out,
      FL2_endStream E c o = (c', o', r) ->
      f_rel c inp out -> valid_out o ->
      opos o = 0 -> osize o = OUT_CAP_C ->
      FL2_isError E r = false
      /\ (r = 0%N -> container (out ++ produced o o') inp)
      /\ (r <> 0%N ->
          f_rel c' inp (out ++ produced o o') /\ f_pending c' < f_pending c);

  (** What the decompressor has given is the beginning of the data. *)
  d_prefix :
    forall K S d inp out, d_rel K S d inp out -> exists tail, S = out ++ tail;

  (** A feed of the decompressor that is offered bytes of the stream [K]
      reports no error and accounts for the bytes it takes and gives; with
      status 0 all of the data has been given; with another status and
      input on offer it takes or gives at least one byte; and once all of
      [K] has been taken, a call without input returns status 0. *)
  decompress_ok :
    forall K S d o i d' o' i' r inp out,
      container K S ->
      FL2_decompressStream E d o i = (d', o', i', r) ->
      d_rel K S d inp out -> valid_in i -> valid_out o ->
      opos o = 0 -> osize o = OUT_CAP_D ->
      (exists rest, K = inp ++ offered i ++ rest) ->
      FL2_isError E r = false
      /\ d_rel K S d' (inp ++ consumed i i') (out ++ produced o o')
      /\ (r = 0%N -> out ++ produced o o' = S)
      /\ (r <> 0%N -> ipos i < isize i ->
          ipos i < ipos i' \/ opos o < opos o')
      /\ (ipos i = isize i -> inp = K -> r = 0%N)
}.

(** The first loop of [compress_file] on the source [S]: what the
    compressor has taken, what is in the buffer and what is in the stream
    make up [S], and the sink holds what the compressor has given. *)
Definition compressing (E : Engine) (C : Codec E) (S : list byte)
           (st : Pump (CStream E)) : Prop :=
  tidy IN_CAP_C OUT_CAP_C st
  /\ readable (fin (io st))
  /\ healthy (fout (io st))
  /\ exists inp,
       c_rel C (ctx st) inp (out_data (fout (io st)))
       /\ S = inp ++ offered (in_buf st) ++ in_rest (fin (io st)).

(** The second loop of [compress_file]. *)
Definition finishing (E : Engine) (C : Codec E) (S : list byte)
           (st : Pump (CStream E)) : Prop :=
  tidy IN_CAP_C OUT_CAP_C st
  /\ healthy (fout (io st))
  /\ f_rel C (ctx st) S (out_data (fout (io st))).

(** The loop of [decompress_file] on the stream [K] of the data [S]. *)
Definition decompressing (E : Engine) (C : Codec E) (K S : list byte)
           (st : Pump (DStream E)) : Prop :=
  tidy IN_CAP_D OUT_CAP_D st
  /\ readable (fin (io st))
  /\ healthy (fout (io st))
  /\ exists inp,
       d_rel C K S (ctx st) inp (out_data (fout (io st)))
       /\ K = inp ++ offered (in_buf st) ++ in_rest (fin (io st)).

(** ** Auxiliary notions of the proofs *)

(** The number of bytes a refill of [st] obtains from the source. *)
Definition refill_count {X} (cap : nat) (st : Pump X) : nat :=
  fst (fst (ffread (fin (io st)) (src (in_buf st)) cap)).

(** Once a byte is in the input buffer, the loop fed by the trickling
    engine is in a state it does not leave. *)
Definition stuck (st : Pump unit) : Prop :=
  isize (in_buf st) = 1 /\ ipos (in_buf st) = 0
  /\ opos (out_buf st) = 0 /\ osize (out_buf st) = OUT_CAP_C.

(** What the decompressor of the pair codec, in phase [d], has taken and
    given of the stream [K] of the data [S]. *)
Definition pair_d_rel (K S : list byte) (d : PairCodec.Phase)
           (inp out : list byte) : Prop :=
  K = PairCodec.container S
  /\ match d with
     | PairCodec.Tag => inp = PairCodec.enc out /\ exists S2, S = out ++ S2
     | PairCodec.Data =>
         exists b S2, S = out ++ b :: S2 /\ inp = PairCodec.enc out ++ [x01]
     | PairCodec.Done => out = S /\ inp = K
     end.

(** Every iteration of [body] makes one call [mk status], and leaves by
    [Abort] exactly when the status is an error. *)
Definition logs_one (E : Engine) {X} (mk : N -> Call) (body : Pump X -> Step (Pump X)) : Prop :=
  forall st,
    match body st with
    | Continue st' | Break st' =>
        calls (io st') = calls (io st) ++ [mk (res st')]
        /\ FL2_isError E (res st') = false
        /\ stderr (io st') = stderr (io st)
    | Abort st' =>
        calls (io st') = calls (io st) ++ [mk (res st')]
        /\ FL2_isError E (res st') = true
        /\ stderr (io st') = stderr (io st)
    end.

(** The steps that touch neither the call log nor the contexts keep an
    invariant that looks at nothing else. *)
Definition blind {E : Engine} (I : Process E -> Prop) : Prop :=
  forall p p',
    calls (pio p') = calls (pio p) -> stderr (pio p') = stderr (pio p) ->
    fcs p' = fcs p -> fds p' = fds p -> I p -> I p'.

(** What is left for the decompressor to take and to give. *)
Definition left_over (E : Engine) (S : list byte) (st : Pump (DStream E)) : nat :=
  unread st + (length S - length (out_data (fout (io st)))).

(** ** The command line, read as a whole *)

(** An argument that begins with ['-']. *)
Definition dashed (arg : string) : Prop :=
  exists rest : string, arg = String "-" rest.

(** Lines 183-195: the index of the first argument after the mode word, and
    the mode. *)
Definition arg_index (argv : list string) : nat :=
  if prefix "compress" (nth 1 argv EmptyString) then 2
  else if prefix "decompress" (nth 1 argv EmptyString) then 2
  else 1.

Definition mode_of (argv : list string) : bool :=
  if prefix "compress" (nth 1 argv EmptyString) then true
  else if prefix "decompress" (nth 1 argv EmptyString) then false
  else true.

(** Lines 197-214: [(thread_count, preset)] after the options. *)
Definition options_of (env : Env) (argv : list string) : Z * Z :=
  fold_left (parse_option (atoi env)) (skipn (arg_index argv) argv) (8%Z, 6%Z).

(** Lines 224-238: [out_name] before it is resolved. *)
Definition chosen_out (name : string) (next : option string) : string :=
  match next with
  | Some o => if String.length o =? 0 then name else o
  | None => name
  end.

(** What has been printed when the arguments have been read. *)
Definition parsed_messages (argv : list string) (env : Env)
           (next : option string) : list Msg :=
  [MsgVersion; MsgMode (mode_of argv); MsgLevel (snd (options_of env argv));
   MsgThreads (fst (options_of env argv))]
  ++ match next with Some o => [MsgOutputParsed o] | None => [] end.

(** The process when the arguments have been read and [out_name] resolved to
    [out]: no file is open and no context exists. *)
Definition parsed (E : Engine) (env : Env) (argv : list string)
           (next : option string) (out : string) : Process E :=
  mkProc (mkIO closed_fin closed_fout (parsed_messages argv env next) [] [])
         Null Null out (fst (options_of env argv)) (mode_of argv).

(** ** [run], read as a whole *)

Definition log_calls (l : list Call) (w : IO) : IO :=
  fold_left (fun w c => log_call c w) l w.

(** The calls of [create_init_fl2_streams] when both contexts are obtained:
    [FL2_initDStream] is called when [FL2_initCStream] returned 0. *)
Definition setup_calls (r r' : N) : list Call :=
  [CallCreateC; CallCreateD; CallInitC r]
  ++ (if (r =? 0)%N then [CallInitD r'] else []).

(** The process as [exit(1)] leaves it, [w] being its streams and log. *)
Definition gave_up {E : Engine} (p : Process E) (w : IO)
           (c : Handle (CStream E)) (d : Handle (DStream E)) : Process E :=
  static_destroy (mkProc w c d (out_name p) (thread_count p) (bCompress p)).

(** The streams when both files have been opened. *)
Definition io_opened (w : IO) (r r' : N) (data : list byte)
           (out : string) (room : option nat) : IO :=
  set_fout (mkFout true out [] room false)
           (set_fin (mkFin true data false) (log_calls (setup_calls r r') w)).

(** The process at the end of [run], the pump function having returned [r]
    and left the streams and log [w]. *)
Definition wound_up {E : Engine} (p : Process E) (r : Z) (w : IO) : Process E :=
  let w1 := if (r =? 0)%Z then print (MsgSuccess (bCompress p)) w else w in
  mkProc (log_calls [CallFreeC; CallFreeD]
                    (set_fin (close_fin (fin w1))
                             (set_fout (close_fout (fout w1)) w1)))
         Freed Freed (out_name p) (thread_count p) (bCompress p).

(** The engine calls of the pump function a mode selects: feed and finish
    calls of the compressor when compressing, feed calls of the
    decompressor when decompressing, and the query of an error's name. *)
Definition call_of_mode (compress : bool) (c : Call) : Prop :=
  match c with
  | CallCompress _ | CallEnd _ => compress = true
  | CallDecompress _ => compress = false
  | CallErrorName _ => True
  | _ => False
  end.

(** ** What a pump function does to the files *)

(** From [w] to [w'] the sink was only appended to and the source only read
    forward; neither was opened, closed or renamed. *)
Definition streams_advance (w w' : IO) : Prop :=
  (exists more, out_data (fout w') = out_data (fout w) ++ more)
  /\ out_path (fout w') = out_path (fout w)
  /\ out_open (fout w') = out_open (fout w)
  /\ (exists taken, in_rest (fin w) = taken ++ in_rest (fin w'))
  /\ in_open (fin w') = in_open (fin w).

(** ** A run that gets what it asks for *)

(** The arguments name the input file [name], and the output name resolves
    to [out]. *)
Definition named (env : Env) (argv : list string) (name out : string) : Prop :=
  2 <= length argv
  /\ exists next,
       find_name (skipn (arg_index argv) argv) = Some (name, next)
       /\ resolve_out_name (mode_of argv) (cwd env) (chosen_out name next)
          = Some out.

(** [create_init_fl2_streams] obtains both contexts for the options of
    [argv] and leaves them as [cs'] and [ds']. *)
Definition engine_ready (E : Engine) (env : Env) (argv : list string)
           (cs' : CStream E) (ds' : DStream E) : Prop :=
  exists cs ds r r',
    FL2_createCStreamMt E (fst (options_of env argv)) 0 = Some cs
    /\ FL2_createDStreamMt E (fst (options_of env argv)) = Some ds
    /\ FL2_initCStream E cs (snd (options_of env argv)) = (cs', r)
    /\ (if (r =? 0)%N then FL2_initDStream E ds else (ds, r)) = (ds', r')
    /\ FL2_isError E r' = false.



(* ================================================================= *)
(** * Properties *)

(** ** Strings and the container suffix *)

Lemma list_ascii_of_append (s t : string) :
  list_ascii_of_string (s ++ t)%string
  = list_ascii_of_string s ++ list_ascii_of_string t.
Proof.
  induction s as [|c s IH]; simpl; [reflexivity | now rewrite IH].
Qed.

Lemma string_of_list_app (a b : list ascii) :
  string_of_list_ascii (a ++ b)
  = (string_of_list_ascii a ++ string_of_list_ascii b)%string.
Proof.
  induction a as [|c a IH]; simpl; [reflexivity | now rewrite IH].
Qed.

Lemma string_length_append (s t : string) :
  String.length (s ++ t)%string = String.length s + String.length t.
Proof.
  induction s as [|c s IH]; simpl; [reflexivity | now rewrite IH].
Qed.

Lemma substring_stem (s t : string) :
  substring 0 (String.length s) (s ++ t)%string = s.
Proof.
  induction s as [|c s IH]; simpl.
  - destruct t; reflexivity.
  - now rewrite IH.
Qed.

Lemma std_equal_true (a b : list ascii) :
  std_equal a b = Some true -> exists t, b = a ++ t.
Proof.
  revert b; induction a as [|x a IH]; intros b H.
  - now exists b.
  - destruct b as [|y b]; simpl in H; [discriminate|].
    destruct (std_equal a b) as [r|] eqn:Hr; [|discriminate].
    injection H as H. apply andb_true_iff in H as [Hxy ->].
    apply Ascii.eqb_eq in Hxy as ->.
    destruct (IH b Hr) as [t ->]. now exists t.
Qed.

Lemma std_equal_app (a t : list ascii) : std_equal a (a ++ t) = Some true.
Proof.
  induction a as [|x a IH]; simpl; [reflexivity|].
  now rewrite IH, Ascii.eqb_refl.
Qed.

Lemma has_postfix_true (s : string) :
  has_postfix s = Some true <-> ends_with_postfix s.
Proof.
  unfold has_postfix, ends_with_postfix; split.
  - intros H. apply std_equal_true in H as [t Ht].
    exists (string_of_list_ascii (rev t)).
    rewrite <- (string_of_list_ascii_of_string s),
            <- (string_of_list_ascii_of_string postfix) at 1.
    rewrite <- string_of_list_app. f_equal.
    rewrite <- (rev_involutive (list_ascii_of_string s)), Ht, rev_app_distr.
    now rewrite rev_involutive.
  - intros [stem ->].
    rewrite list_ascii_of_append, rev_app_distr. apply std_equal_app.
Qed.

Lemma append_postfix_inj (a b : string) :
  (a ++ postfix)%string = (b ++ postfix)%string -> a = b.
Proof.
  intros H.
  assert (H' : list_ascii_of_string a ++ list_ascii_of_string postfix
               = list_ascii_of_string b ++ list_ascii_of_string postfix)
    by now rewrite <- !list_ascii_of_append, H.
  apply app_inv_tail in H'.
  rewrite <- (string_of_list_ascii_of_string a),
          <- (string_of_list_ascii_of_string b).
  now rewrite H'.
Qed.

(** What decompression makes of a name, case by case. *)
Lemma resolve_decompress_cases (cwd name out : string) :
  resolve_out_name false cwd name = Some out ->
  (ends_with_postfix name /\ name = (out ++ postfix)%string)
  \/ (~ ends_with_postfix name /\ out = name).
Proof.
  unfold resolve_out_name.
  destruct (has_postfix name) as [[|]|] eqn:Hp; intros H; try discriminate;
    injection H as <-.
  - left. apply has_postfix_true in Hp as Hp'. split; [exact Hp'|].
    destruct Hp' as [stem ->].
    rewrite string_length_append, Nat.add_sub. now rewrite substring_stem.
  - right. split; [|reflexivity].
    intros Hn. apply has_postfix_true in Hn. congruence.
Qed.

(** C6 (as amended).  Whenever the resolution of a compression run yields a
    name, that name ends with [".lzma2"]; and the name a decompression run
    derives from a name ending with [".lzma2"] is that name with one
    occurrence of the suffix taken off its end. *)
Theorem suffix_resolution (cwd name out : string) :
  (resolve_out_name true cwd name = Some out -> ends_with_postfix out)
  /\ (resolve_out_name false cwd name = Some out ->
      ends_with_postfix name -> name = (out ++ postfix)%string).
Proof.
  split.
  - unfold resolve_out_name.
    match goal with |- context [has_postfix ?x] => set (out1 := x) end.
    destruct (has_postfix out1) as [[|]|] eqn:Hp; intros H; try discriminate;
      injection H as <-.
    + now apply has_postfix_true.
    + now exists out1.
  - intros H Hn. apply resolve_decompress_cases in H as [[_ H]|[H _]];
      [exact H | contradiction].
Qed.

Lemma suffix_resolution_witness :
  resolve_out_name false "/tmp" "data.bin.lzma2" = Some "data.bin"%string
  /\ ends_with_postfix "data.bin.lzma2"
  /\ "data.bin.lzma2"%string = ("data.bin" ++ postfix)%string.
Proof.
  assert (H1 : resolve_out_name false "/tmp" "data.bin.lzma2"
               = Some "data.bin"%string) by reflexivity.
  assert (H2 : ends_with_postfix "data.bin.lzma2")
    by (exists "data.bin"%string; reflexivity).
  split; [exact H1|]. split; [exact H2|].
  exact (proj2 (suffix_resolution "/tmp" "data.bin.lzma2" "data.bin") H1 H2).
Defined.

(** C6, the claim as stated fails for decompression: a name that carries the
    suffix twice resolves to a name that still ends with it. *)
Lemma decompress_name_keeps_a_suffix :
  ends_with_postfix "a.lzma2.lzma2"
  /\ resolve_out_name false "/tmp" "a.lzma2.lzma2" = Some "a.lzma2"%string
  /\ ends_with_postfix "a.lzma2".
Proof.
  split; [exists "a.lzma2"%string; reflexivity|].
  split; [reflexivity|].
  exists "a"%string; reflexivity.
Qed.

(* ================================================================= *)
(** ** Loops *)

Section Loops.

Context {A : Type} (body : A -> Step A).

Lemma entry_invariant (P : A -> Prop) (a0 : A) :
  P a0 ->
  (forall a a', P a -> body a = Continue a' -> P a') ->
  forall a, entry body a0 a -> P a.
Proof.
  intros H0 Hstep a Ha. induction Ha; eauto.
Qed.

Lemma entry_trans (a0 a1 a2 : A) :
  entry body a0 a1 -> entry body a1 a2 -> entry body a0 a2.
Proof.
  intros H1 H2. induction H2; [assumption | econstructor; eauto].
Qed.

(** A loop that ends normally ends in the [Break] of an iteration. *)
Lemma do_while_finished (fuel : nat) (a0 a' : A) :
  do_while body fuel a0 = Finished a' ->
  exists a, entry body a0 a /\ body a = Break a'.
Proof.
  revert a0; induction fuel as [|n IH]; intros a0 H; simpl in H; [discriminate|].
  destruct (body a0) as [a1|a1|a1] eqn:Hb; try discriminate.
  - destruct (IH _ H) as (a & Ha & Hbr). exists a. split; [|assumption].
    eapply entry_trans; [|exact Ha]. econstructor; [constructor | eassumption].
  - injection H as <-. exists a0. split; [constructor | assumption].
Qed.

Lemma do_while_failed (fuel : nat) (a0 a' : A) :
  do_while body fuel a0 = Failed a' ->
  exists a, entry body a0 a /\ body a = Abort a'.
Proof.
  revert a0; induction fuel as [|n IH]; intros a0 H; simpl in H; [discriminate|].
  destruct (body a0) as [a1|a1|a1] eqn:Hb; try discriminate.
  - destruct (IH _ H) as (a & Ha & Hbr). exists a. split; [|assumption].
    eapply entry_trans; [|exact Ha]. econstructor; [constructor | eassumption].
  - injection H as <-. exists a0. split; [constructor | assumption].
Qed.

(** What every iteration keeps, the loop keeps. *)
Lemma do_while_keeps {T} (f : A -> T) (fuel : nat) (a0 : A) :
  (forall a, match body a with
             | Continue a' | Break a' | Abort a' => f a' = f a
             end) ->
  match do_while body fuel a0 with
  | Finished a' | Failed a' => f a' = f a0
  | Spinning => True
  end.
Proof.
  intros Hk. revert a0; induction fuel as [|n IH]; intros a0; simpl; [exact I|].
  pose proof (Hk a0) as H0. destruct (body a0) as [a1|a1|a1]; auto.
  specialize (IH a1). destruct (do_while body n a1); auto; congruence.
Qed.

(** A loop whose iterations keep [I] and never jump out, if it ends, ends
    in the [Break] of an iteration begun in [I]. *)
Lemma do_while_safe (I : A -> Prop) :
  (forall a, I a ->
             match body a with
             | Continue a' => I a'
             | Break _ => True
             | Abort _ => False
             end) ->
  forall fuel a,
    I a -> do_while body fuel a <> Spinning ->
    exists b a', do_while body fuel a = Finished a' /\ I b /\ body b = Break a'.
Proof.
  intros Hstep fuel; induction fuel as [|n IH]; intros a Ha Hs;
    simpl in *; [congruence|].
  pose proof (Hstep a Ha) as H1.
  destruct (body a) as [a1|a1|a1] eqn:Hb; [|exists a, a1; auto|contradiction].
  destruct (IH a1 H1 Hs) as (b & a' & Hd & Hib & Hbb). eauto.
Qed.

(** A loop whose iterations lower a measure ends. *)
Lemma do_while_ends (I : A -> Prop) (m : A -> nat) :
  (forall a a', I a -> body a = Continue a' -> I a' /\ m a' < m a) ->
  forall a, I a -> exists fuel, do_while body fuel a <> Spinning.
Proof.
  intros Hstep a. remember (m a) as n eqn:Hn. revert a Hn.
  induction n as [n IH] using lt_wf_ind. intros a Hn Ha.
  destruct (body a) as [a1|a1|a1] eqn:Hb.
  - destruct (Hstep a a1 Ha Hb) as [Ha1 Hlt].
    destruct (IH (m a1) ltac:(lia) a1 eq_refl Ha1) as [fuel Hf].
    exists (S fuel). simpl. now rewrite Hb.
  - exists 1. simpl. rewrite Hb. discriminate.
  - exists 1. simpl. rewrite Hb. discriminate.
Qed.

(** More fuel does not change the result of a loop that has ended. *)
Lemma do_while_more (fuel extra : nat) (a0 : A) :
  do_while body fuel a0 <> Spinning ->
  do_while body (fuel + extra) a0 = do_while body fuel a0.
Proof.
  revert a0; induction fuel as [|n IH]; intros a0 H; simpl in *; [congruence|].
  destruct (body a0); auto.
Qed.

End Loops.

(* ================================================================= *)
(** ** The buffer invariant *)

Lemma ffread_count (f : ifstream) (buffer : list byte) (cap : nat) :
  let '(n, buffer', f') := ffread f buffer cap in
  n <= cap
  /\ (n <= length buffer -> length buffer' = length buffer).
Proof.
  unfold ffread. destruct (in_open f && negb (in_eof f)).
  - split.
    + rewrite length_firstn. lia.
    + intros H. rewrite length_app, length_skipn. lia.
  - split; [lia | reflexivity].
Qed.

Lemma refill_tidy {X} (in_cap out_cap : nat) (st : Pump X) :
  tidy in_cap out_cap st -> tidy in_cap out_cap (refill in_cap st).
Proof.
  intros (H1 & H2 & H3 & H4 & H5 & H6). unfold refill.
  destruct (ipos (in_buf st) =? isize (in_buf st)); [|repeat split; assumption].
  pose proof (ffread_count (fin (io st)) (src (in_buf st)) in_cap) as Hr.
  destruct (ffread _ _ _) as [[n b] f]. destruct Hr as [Hn Hl].
  unfold tidy; simpl. repeat split; try assumption; lia.
Qed.

Lemma refill_frame {X} (cap : nat) (st : Pump X) :
  ctx (refill cap st) = ctx st
  /\ out_buf (refill cap st) = out_buf st
  /\ res (refill cap st) = res st
  /\ out_size (refill cap st) = out_size st
  /\ fout (io (refill cap st)) = fout (io st)
  /\ stdout (io (refill cap st)) = stdout (io st)
  /\ stderr (io (refill cap st)) = stderr (io st)
  /\ calls (io (refill cap st)) = calls (io st).
Proof.
  unfold refill. destruct (_ =? _); [|repeat split].
  destruct (ffread _ _ _) as [[n b] f]. repeat split.
Qed.

Lemma tidy_valid {X} (in_cap out_cap : nat) (st : Pump X) :
  tidy in_cap out_cap st -> valid_in (in_buf st) /\ valid_out (out_buf st).
Proof.
  intros (H1 & H2 & H3 & H4 & H5 & H6). unfold valid_in, valid_out. lia.
Qed.

Lemma tidy_buffers_ok {X} (in_cap out_cap : nat) (st : Pump X) :
  tidy in_cap out_cap st -> buffers_ok in_cap out_cap st.
Proof.
  intros (H1 & H2 & H3 & H4 & H5 & H6). unfold buffers_ok. lia.
Qed.

Section Invariant.

Variable E : Engine.
Hypothesis HD : Discipline E.

Lemma compress_body_tidy (st st' : Pump (CStream E)) :
  tidy IN_CAP_C OUT_CAP_C st ->
  compress_body E st = Continue st' \/ compress_body E st = Break st' ->
  tidy IN_CAP_C OUT_CAP_C st'.
Proof.
  intros Ht Hb. apply refill_tidy in Ht.
  unfold compress_body, feed_c in Hb.
  pose proof (tidy_valid Ht) as [Hvi Hvo].
  destruct Ht as (H1 & H2 & H3 & H4 & H5 & H6).
  set (st1 := refill IN_CAP_C st) in *.
  destruct (FL2_compressStream E _ _ _) as [[[c o] i] r] eqn:Hc.
  simpl in Hb. destruct (FL2_isError E r) eqn:He.
  - destruct Hb; discriminate.
  - destruct (@compress_kept E HD _ _ _ _ _ _ _ Hc He Hvi Hvo)
      as [(Ha & Hb' & Hc') (Hd & He' & Hf)].
    assert (Hst : st' = drain (mkPump c i o r (in_size st1) (out_size st1)
                                      (log_call (CallCompress r) (io st1)))).
    { destruct (isize _ =? 0); destruct Hb as [Hb|Hb]; congruence. }
    subst st'. unfold tidy, drain; simpl.
    rewrite Ha, Hb', Hd, He'. repeat split; lia.
Qed.

Lemma finish_body_tidy (st st' : Pump (CStream E)) :
  tidy IN_CAP_C OUT_CAP_C st ->
  finish_body E st = Continue st' \/ finish_body E st = Break st' ->
  tidy IN_CAP_C OUT_CAP_C st'.
Proof.
  intros Ht Hb.
  unfold finish_body, feed_end in Hb.
  pose proof (tidy_valid Ht) as [Hvi Hvo].
  destruct Ht as (H1 & H2 & H3 & H4 & H5 & H6).
  destruct (FL2_endStream E _ _) as [[c o] r] eqn:Hc.
  simpl in Hb. destruct (FL2_isError E r) eqn:He.
  - destruct Hb; discriminate.
  - destruct (@end_kept E HD _ _ _ _ _ Hc He Hvo) as (Hd & He' & Hf).
    assert (Hst : st' = drain (mkPump c (in_buf st) o r (in_size st) (out_size st)
                                      (log_call (CallEnd r) (io st)))).
    { destruct (_ =? _)%N; destruct Hb as [Hb|Hb]; congruence. }
    subst st'. unfold tidy, drain; simpl.
    rewrite Hd, He'. repeat split; lia.
Qed.

Lemma decompress_body_tidy (st st' : Pump (DStream E)) :
  tidy IN_CAP_D OUT_CAP_D st ->
  decompress_body E st = Continue st' \/ decompress_body E st = Break st' ->
  tidy IN_CAP_D OUT_CAP_D st'.
Proof.
  intros Ht Hb. apply refill_tidy in Ht.
  unfold decompress_body, feed_d in Hb.
  pose proof (tidy_valid Ht) as [Hvi Hvo].
  destruct Ht as (H1 & H2 & H3 & H4 & H5 & H6).
  set (st1 := refill IN_CAP_D st) in *.
  destruct (FL2_decompressStream E _ _ _) as [[[c o] i] r] eqn:Hc.
  simpl in Hb. destruct (FL2_isError E r) eqn:He.
  - destruct Hb; discriminate.
  - destruct (@decompress_kept E HD _ _ _ _ _ _ _ Hc He Hvi Hvo)
      as [(Ha & Hb' & Hc') (Hd & He' & Hf)].
    assert (Hst : st' = drain (mkPump c i o r (in_size st1) (out_size st1)
                                      (log_call (CallDecompress r) (io st1)))).
    { destruct (_ && _); destruct Hb as [Hb|Hb]; congruence. }
    subst st'. unfold tidy, drain; simpl.
    rewrite Ha, Hb', Hd, He'. repeat split; lia.
Qed.

Lemma compress_start_tidy (cs : CStream E) (w : IO) :
  tidy IN_CAP_C OUT_CAP_C (compress_start E cs w).
Proof.
  unfold tidy, compress_start, fresh_array.
  cbn [in_buf out_buf ipos isize src opos osize dst].
  rewrite !repeat_length. repeat split; apply Nat.le_refl.
Qed.

Lemma decompress_start_tidy (ds : DStream E) (w : IO) :
  tidy IN_CAP_D OUT_CAP_D (decompress_start E ds w).
Proof.
  unfold tidy, decompress_start, fresh_array.
  cbn [in_buf out_buf ipos isize src opos osize dst].
  rewrite !repeat_length. repeat split; apply Nat.le_refl.
Qed.

Lemma boundary_tidy {X} (body : Pump X -> Step (Pump X)) (ci co : nat)
      (st0 st : Pump X) :
  (forall a a', tidy ci co a ->
                body a = Continue a' \/ body a = Break a' -> tidy ci co a') ->
  tidy ci co st0 -> boundary body st0 st -> tidy ci co st.
Proof.
  intros Hstep H0 [Hen | (a & Hen & Hbr)].
  - eapply entry_invariant; eauto.
  - eapply Hstep; [|right; exact Hbr].
    eapply (entry_invariant (body := body)); eauto.
Qed.

End Invariant.

(** C8.  With an engine that keeps the buffer discipline, both buffers
    satisfy [0 <= pos <= size <= capacity] at every iteration boundary of
    the two loops of [compress_file] and of the loop of [decompress_file]. *)
Theorem buffer_invariant (E : Engine) (HD : Discipline E) :
  (forall cs w st,
      boundary (compress_body E) (compress_start E cs w) st ->
      buffers_ok IN_CAP_C OUT_CAP_C st)
  /\ (forall cs w st1 st,
         boundary (compress_body E) (compress_start E cs w) st1 ->
         boundary (finish_body E) st1 st ->
         buffers_ok IN_CAP_C OUT_CAP_C st)
  /\ (forall ds w st,
         boundary (decompress_body E) (decompress_start E ds w) st ->
         buffers_ok IN_CAP_D OUT_CAP_D st).
Proof.
  split; [|split].
  - intros cs w st Hb. apply tidy_buffers_ok.
    eapply boundary_tidy; [apply (compress_body_tidy HD) | | exact Hb].
    apply compress_start_tidy.
  - intros cs w st1 st Hb1 Hb. apply tidy_buffers_ok.
    eapply boundary_tidy; [apply (finish_body_tidy HD) | | exact Hb].
    eapply boundary_tidy; [apply (compress_body_tidy HD) | | exact Hb1].
    apply compress_start_tidy.
  - intros ds w st Hb. apply tidy_buffers_ok.
    eapply boundary_tidy; [apply (decompress_body_tidy HD) | | exact Hb].
    apply decompress_start_tidy.
Qed.

(* ================================================================= *)
(** ** One iteration, and the calls of a loop *)

Lemma drain_frame {X} (st : Pump X) :
  ctx (drain st) = ctx st
  /\ in_buf (drain st) = in_buf st
  /\ res (drain st) = res st
  /\ in_size (drain st) = in_size st
  /\ fin (io (drain st)) = fin (io st)
  /\ stdout (io (drain st)) = stdout (io st)
  /\ stderr (io (drain st)) = stderr (io st)
  /\ calls (io (drain st)) = calls (io st).
Proof. repeat split. Qed.

Lemma drain_sink {X} (st : Pump X) :
  fout (io (drain st))
  = ostream_write (fout (io st)) (firstn (opos (out_buf st)) (dst (out_buf st)))
  /\ opos (out_buf (drain st)) = 0
  /\ out_size (drain st) = size_add (out_size st) (Z.of_nat (opos (out_buf st))).
Proof. repeat split. Qed.

Section Traces.

Variable E : Engine.


Lemma compress_body_logs : logs_one E CallCompress (compress_body E).
Proof.
  intros st. unfold compress_body, feed_c.
  destruct (refill_frame IN_CAP_C st) as (_ & _ & _ & _ & _ & _ & Hs & Hc).
  destruct (FL2_compressStream E _ _ _) as [[[c o] i] r]. simpl.
  destruct (FL2_isError E r) eqn:He; [|destruct (isize i =? 0)];
    simpl; rewrite Hs, Hc; auto.
Qed.

Lemma finish_body_logs : logs_one E CallEnd (finish_body E).
Proof.
  intros st. unfold finish_body, feed_end.
  destruct (FL2_endStream E _ _) as [[c o] r]. simpl.
  destruct (FL2_isError E r) eqn:He; [|destruct (r =? 0)%N]; simpl; auto.
Qed.

Lemma decompress_body_logs : logs_one E CallDecompress (decompress_body E).
Proof.
  intros st. unfold decompress_body, feed_d.
  destruct (refill_frame IN_CAP_D st) as (_ & _ & _ & _ & _ & _ & Hs & Hc).
  destruct (FL2_decompressStream E _ _ _) as [[[c o] i] r]. simpl.
  destruct (FL2_isError E r) eqn:He; [|destruct (_ && _)];
    simpl; rewrite Hs, Hc; auto.
Qed.

Lemma compress_body_stdout (st : Pump (CStream E)) :
  match compress_body E st with
  | Continue st' | Break st' | Abort st' => stdout (io st') = stdout (io st)
  end.
Proof.
  unfold compress_body, feed_c.
  destruct (refill_frame IN_CAP_C st) as (_ & _ & _ & _ & _ & Hs & _).
  destruct (FL2_compressStream E _ _ _) as [[[c o] i] r]. simpl.
  destruct (FL2_isError E r); [|destruct (isize i =? 0)]; simpl; exact Hs.
Qed.

Lemma finish_body_stdout (st : Pump (CStream E)) :
  match finish_body E st with
  | Continue st' | Break st' | Abort st' =>
      stdout (io st') = stdout (io st) /\ fin (io st') = fin (io st)
  end.
Proof.
  unfold finish_body, feed_end.
  destruct (FL2_endStream E _ _) as [[c o] r]. simpl.
  destruct (FL2_isError E r); [|destruct (r =? 0)%N]; simpl; auto.
Qed.

Lemma decompress_body_stdout (st : Pump (DStream E)) :
  match decompress_body E st with
  | Continue st' | Break st' | Abort st' => stdout (io st') = stdout (io st)
  end.
Proof.
  unfold decompress_body, feed_d.
  destruct (refill_frame IN_CAP_D st) as (_ & _ & _ & _ & _ & Hs & _).
  destruct (FL2_decompressStream E _ _ _) as [[[c o] i] r]. simpl.
  destruct (FL2_isError E r); [|destruct (_ && _)]; simpl; exact Hs.
Qed.

(** The calls of a whole loop. *)
Lemma do_while_calls {X} (mk : N -> Call) (body : Pump X -> Step (Pump X)) :
  logs_one E mk body ->
  forall fuel st,
    match do_while body fuel st with
    | Finished st' =>
        exists rs,
          calls (io st') = calls (io st) ++ map mk (rs ++ [res st'])
          /\ Forall (fun r => FL2_isError E r = false) (rs ++ [res st'])
          /\ stderr (io st') = stderr (io st)
    | Failed st' =>
        exists rs,
          calls (io st') = calls (io st) ++ map mk (rs ++ [res st'])
          /\ Forall (fun r => FL2_isError E r = false) rs
          /\ FL2_isError E (res st') = true
          /\ stderr (io st') = stderr (io st)
    | Spinning => True
    end.
Proof.
  intros Hl fuel; induction fuel as [|n IH]; intros st; simpl; [exact I|].
  pose proof (Hl st) as H1. destruct (body st) as [st1|st1|st1].
  - destruct H1 as (Hc & He & Hs). specialize (IH st1).
    destruct (do_while body n st1) as [st'|st'|]; [| |exact I].
    + destruct IH as (rs & Hc' & Hf & Hs'). exists (res st1 :: rs).
      rewrite Hc', Hc, <- app_assoc. simpl. repeat split; auto; congruence.
    + destruct IH as (rs & Hc' & Hf & He' & Hs'). exists (res st1 :: rs).
      rewrite Hc', Hc, <- app_assoc. simpl. repeat split; auto; congruence.
  - destruct H1 as (Hc & He & Hs). exists []. simpl. repeat split; auto.
  - destruct H1 as (Hc & He & Hs). exists []. simpl. repeat split; auto.
Qed.

(** The statuses of the finish loop: nonzero, then one zero. *)
Lemma finish_loop_statuses (fuel : nat) (st st' : Pump (CStream E)) :
  do_while (finish_body E) fuel st = Finished st' ->
  exists es,
    calls (io st') = calls (io st) ++ map CallEnd (es ++ [0%N])
    /\ Forall (fun e => e <> 0%N) es
    /\ res st' = 0%N.
Proof.
  revert st; induction fuel as [|n IH]; intros st H; simpl in H; [discriminate|].
  pose proof (finish_body_logs st) as Hl.
  destruct (finish_body E st) as [st1|st1|st1] eqn:Hb; try discriminate.
  - destruct (IH _ H) as (es & Hc & Hf & Hr). destruct Hl as (Hc1 & _).
    exists (res st1 :: es). rewrite Hc, Hc1, <- app_assoc. simpl.
    repeat split; auto. constructor; auto.
    unfold finish_body in Hb.
    destruct (FL2_isError E _); [discriminate|].
    destruct (res (drain (feed_end E st)) =? 0)%N eqn:Hz; [discriminate|].
    injection Hb as <-. now apply N.eqb_neq in Hz.
  - injection H as <-. destruct Hl as (Hc1 & _).
    assert (Hz : res st1 = 0%N).
    { unfold finish_body in Hb.
      destruct (FL2_isError E _); [discriminate|].
      destruct (res (drain (feed_end E st)) =? 0)%N eqn:Hz; [|discriminate].
      injection Hb as <-. now apply N.eqb_eq in Hz. }
    exists []. rewrite Hc1, Hz. repeat split; auto.
Qed.

End Traces.

(** C3.  Every finish call that reports no error is followed by the write of
    [out_buf.pos] bytes and the reset of [pos], and the loop goes on exactly
    when its status is nonzero; a successful [compress_file] has made its
    feed calls, then finish calls with nonzero statuses and a last one with
    status zero; [decompress_file] makes feed calls only. *)
Theorem finish_phase (E : Engine) :
  (forall st,
      let st2 := feed_end E st in
      let st3 := drain st2 in
      FL2_isError E (res st2) = false ->
      finish_body E st = (if (res st2 =? 0)%N then Break st3 else Continue st3)
      /\ fout (io st3)
         = ostream_write (fout (io st))
                         (firstn (opos (out_buf st2)) (dst (out_buf st2)))
      /\ opos (out_buf st3) = 0
      /\ calls (io st3) = calls (io st) ++ [CallEnd (res st2)])
  /\ (forall fuel cs w st,
         compress_file E fuel cs w = Some (0%Z, st) ->
         exists rs es,
           calls (io st)
           = calls w ++ map CallCompress rs ++ map CallEnd (es ++ [0%N])
           /\ rs <> [] /\ Forall (fun e => e <> 0%N) es)
  /\ (forall fuel ds w r st,
         decompress_file E fuel ds w = Some (r, st) ->
         exists rs,
           calls (io st)
           = calls w ++ map CallDecompress rs
                     ++ (if (r =? 0)%Z then [] else [CallErrorName (res st)])).
Proof.
  split; [|split].
  - intros st st2 st3 He. unfold finish_body. fold st2. rewrite He. fold st3.
    split; [reflexivity|]. subst st3 st2. unfold feed_end.
    destruct (FL2_endStream E _ _) as [[c o] r]. repeat split.
  - intros fuel cs w st H. unfold compress_file in H.
    pose proof (do_while_calls (compress_body_logs E) fuel (compress_start E cs w)) as H1.
    destruct (do_while (compress_body E) fuel _) as [st1|st1|]; try discriminate.
    destruct (do_while (finish_body E) fuel st1) as [st2|st2|] eqn:H2;
      try discriminate.
    injection H as <-. destruct H1 as (rs & Hc & _).
    destruct (finish_loop_statuses _ _ _ H2) as (es & Hc2 & Hf & _).
    exists (rs ++ [res st1]), es. simpl. rewrite Hc2, Hc, <- app_assoc.
    repeat split; auto. now destruct rs.
  - intros fuel ds w r st H. unfold decompress_file in H.
    pose proof (do_while_calls (decompress_body_logs E) fuel (decompress_start E ds w)) as H1.
    destruct (do_while (decompress_body E) fuel _) as [st1|st1|]; try discriminate;
      injection H as <- <-.
    + destruct H1 as (rs & Hc & _). exists (rs ++ [res st1]). simpl.
      rewrite Hc, app_nil_r. reflexivity.
    + destruct H1 as (rs & Hc & _). exists (rs ++ [res st1]). simpl.
      rewrite Hc, <- app_assoc. reflexivity.
Qed.

(* ================================================================= *)
(** ** Refilling the input buffer *)


Lemma refill_size {X} (cap : nat) (st : Pump X) :
  isize (in_buf (refill cap st))
  = if ipos (in_buf st) =? isize (in_buf st)
    then refill_count cap st else isize (in_buf st).
Proof.
  unfold refill, refill_count. destruct (_ =? _); [|reflexivity].
  destruct (ffread _ _ _) as [[n b] f]. reflexivity.
Qed.

Lemma ffread_readable (f : ifstream) (buffer : list byte) (cap : nat) :
  readable f -> readable (snd (ffread f buffer cap)).
Proof.
  intros Hrd. pose proof Hrd as [Ho _]. unfold ffread. rewrite Ho.
  destruct (in_eof f) eqn:Hf; simpl; [exact Hrd|].
  split; [reflexivity|]. simpl. intros H. apply Nat.ltb_lt in H.
  apply skipn_all2. lia.
Qed.

Lemma ffread_nothing (f : ifstream) (buffer : list byte) (cap : nat) :
  readable f -> 0 < cap ->
  fst (fst (ffread f buffer cap)) = 0 ->
  in_rest f = [] /\ in_rest (snd (ffread f buffer cap)) = [].
Proof.
  intros [Ho He] Hc. unfold ffread. rewrite Ho.
  destruct (in_eof f) eqn:Hf; simpl.
  - intros _. split; auto.
  - intros H. destruct (in_rest f) as [|b l]; [now destruct cap|].
    destruct cap; [lia | discriminate].
Qed.

Lemma ffread_total (f : ifstream) (buffer : list byte) (cap : nat) :
  readable f ->
  length (in_rest f)
  = fst (fst (ffread f buffer cap)) + length (in_rest (snd (ffread f buffer cap))).
Proof.
  intros [Ho He]. unfold ffread. rewrite Ho.
  destruct (in_eof f) eqn:Hf; simpl; [reflexivity|].
  rewrite length_firstn, length_skipn. lia.
Qed.

Lemma refill_fin {X} (cap : nat) (st : Pump X) :
  fin (io (refill cap st))
  = if ipos (in_buf st) =? isize (in_buf st)
    then snd (ffread (fin (io st)) (src (in_buf st)) cap)
    else fin (io st).
Proof.
  unfold refill. destruct (_ =? _); [|reflexivity].
  destruct (ffread _ _ _) as [[n b] f]. reflexivity.
Qed.

Lemma refill_readable {X} (cap : nat) (st : Pump X) :
  readable (fin (io st)) -> readable (fin (io (refill cap st))).
Proof.
  intros H. rewrite refill_fin. destruct (_ =? _); [|assumption].
  now apply ffread_readable.
Qed.

Section LoopConditions.

Variable E : Engine.
Hypothesis HD : Discipline E.

Lemma feed_c_size (st : Pump (CStream E)) :
  tidy IN_CAP_C OUT_CAP_C st ->
  FL2_isError E (res (feed_c E st)) = false ->
  isize (in_buf (feed_c E st)) = isize (in_buf st)
  /\ ipos (in_buf st) <= ipos (in_buf (feed_c E st)) <= isize (in_buf st).
Proof.
  intros Ht. destruct (tidy_valid Ht) as [Hvi Hvo]. unfold feed_c.
  destruct (FL2_compressStream E _ _ _) as [[[c o] i] r] eqn:Hc. simpl.
  intros He.
  destruct (@compress_kept E HD _ _ _ _ _ _ _ Hc He Hvi Hvo) as [(_ & H1 & H2) _].
  auto.
Qed.

Lemma feed_d_size (st : Pump (DStream E)) :
  tidy IN_CAP_D OUT_CAP_D st ->
  FL2_isError E (res (feed_d E st)) = false ->
  isize (in_buf (feed_d E st)) = isize (in_buf st)
  /\ ipos (in_buf st) <= ipos (in_buf (feed_d E st)) <= isize (in_buf st).
Proof.
  intros Ht. destruct (tidy_valid Ht) as [Hvi Hvo]. unfold feed_d.
  destruct (FL2_decompressStream E _ _ _) as [[[c o] i] r] eqn:Hc. simpl.
  intros He.
  destruct (@decompress_kept E HD _ _ _ _ _ _ _ Hc He Hvi Hvo) as [(_ & H1 & H2) _].
  auto.
Qed.

Lemma feed_c_fin (st : Pump (CStream E)) :
  fin (io (feed_c E st)) = fin (io st).
Proof.
  unfold feed_c. now destruct (FL2_compressStream E _ _ _) as [[[c o] i] r].
Qed.

Lemma feed_d_fin (st : Pump (DStream E)) :
  fin (io (feed_d E st)) = fin (io st).
Proof.
  unfold feed_d. now destruct (FL2_decompressStream E _ _ _) as [[[c o] i] r].
Qed.

Lemma compress_body_readable (st st' : Pump (CStream E)) :
  readable (fin (io st)) ->
  compress_body E st = Continue st' \/ compress_body E st = Break st' ->
  readable (fin (io st')).
Proof.
  intros Hr Hb. apply (refill_readable IN_CAP_C) in Hr.
  rewrite <- feed_c_fin in Hr. unfold compress_body in Hb.
  destruct (FL2_isError E _); [destruct Hb; discriminate|].
  destruct (_ =? 0); destruct Hb as [Hb|Hb]; try discriminate;
    injection Hb as <-; exact Hr.
Qed.

Lemma decompress_body_readable (st st' : Pump (DStream E)) :
  readable (fin (io st)) ->
  decompress_body E st = Continue st' \/ decompress_body E st = Break st' ->
  readable (fin (io st')).
Proof.
  intros Hr Hb. apply (refill_readable IN_CAP_D) in Hr.
  rewrite <- feed_d_fin in Hr. unfold decompress_body in Hb.
  destruct (FL2_isError E _); [destruct Hb; discriminate|].
  destruct (_ && _); destruct Hb as [Hb|Hb]; try discriminate;
    injection Hb as <-; exact Hr.
Qed.

Lemma compress_entry_facts (cs : CStream E) (w : IO) (st : Pump (CStream E)) :
  readable (fin w) ->
  entry (compress_body E) (compress_start E cs w) st ->
  tidy IN_CAP_C OUT_CAP_C st /\ readable (fin (io st)).
Proof.
  intros Hr Hen.
  apply (entry_invariant (body := compress_body E)
           (fun st => tidy IN_CAP_C OUT_CAP_C st /\ readable (fin (io st)))
           (a0 := compress_start E cs w)); [| |exact Hen].
  - split; [apply compress_start_tidy | exact Hr].
  - intros a a' [Ht Hra] Hb. split.
    + eapply (compress_body_tidy HD); eauto.
    + eapply compress_body_readable; eauto.
Qed.

Lemma decompress_entry_facts (ds : DStream E) (w : IO) (st : Pump (DStream E)) :
  readable (fin w) ->
  entry (decompress_body E) (decompress_start E ds w) st ->
  tidy IN_CAP_D OUT_CAP_D st /\ readable (fin (io st)).
Proof.
  intros Hr Hen.
  apply (entry_invariant (body := decompress_body E)
           (fun st => tidy IN_CAP_D OUT_CAP_D st /\ readable (fin (io st)))
           (a0 := decompress_start E ds w)); [| |exact Hen].
  - split; [apply decompress_start_tidy | exact Hr].
  - intros a a' [Ht Hra] Hb. split.
    + eapply (decompress_body_tidy HD); eauto.
    + eapply decompress_body_readable; eauto.
Qed.

(** After the refill step the buffer is empty exactly when it had been used
    up and the source gave nothing more. *)
Lemma refill_empty {X} (cap oc : nat) (st : Pump X) :
  tidy cap oc st ->
  (isize (in_buf (refill cap st)) = 0
   <-> ipos (in_buf st) = isize (in_buf st) /\ refill_count cap st = 0).
Proof.
  intros (H1 & _). rewrite refill_size.
  destruct (ipos (in_buf st) =? isize (in_buf st)) eqn:Hq.
  - apply Nat.eqb_eq in Hq. tauto.
  - apply Nat.eqb_neq in Hq. lia.
Qed.

End LoopConditions.

(** C4.  In an iteration of the loop of [decompress_file] whose feed reports
    no error, the loop goes on exactly when the status is nonzero and the
    input buffer still held unread bytes or its refill obtained some; it
    ends when the status is zero or when the buffer had been used up and the
    refill returned 0 bytes, which happens only when nothing is left of the
    source. *)
Theorem decompress_loop_condition
        (E : Engine) (HD : Discipline E)
        (ds : DStream E) (w : IO) (st : Pump (DStream E)) :
  readable (fin w) ->
  entry (decompress_body E) (decompress_start E ds w) st ->
  let st2 := feed_d E (refill IN_CAP_D st) in
  let used_up := ipos (in_buf st) = isize (in_buf st) in
  FL2_isError E (res st2) = false ->
  (decompress_body E st = Continue (drain st2)
   <-> res st2 <> 0%N
       /\ (ipos (in_buf st) < isize (in_buf st)
           \/ (used_up /\ 0 < refill_count IN_CAP_D st)))
  /\ (decompress_body E st = Break (drain st2)
      <-> res st2 = 0%N \/ (used_up /\ refill_count IN_CAP_D st = 0))
  /\ (used_up -> refill_count IN_CAP_D st = 0 -> in_rest (fin (io st)) = []).
Proof.
  intros Hr Hen st2 used_up He.
  destruct (decompress_entry_facts HD Hr Hen) as [Ht Hrs].
  pose proof (refill_tidy Ht) as Ht1.
  destruct (feed_d_size HD Ht1 He) as [Hsz _]. fold st2 in Hsz.
  pose proof (refill_empty Ht) as Hre.
  assert (Hpos : ipos (in_buf st) <= isize (in_buf st)) by apply Ht.
  unfold decompress_body. fold st2. rewrite He.
  destruct (drain_frame st2) as (_ & Hib & Hres & _). rewrite Hib, Hres, Hsz.
  subst used_up.
  assert (Hex : ipos (in_buf st) = isize (in_buf st) ->
                refill_count IN_CAP_D st = 0 -> in_rest (fin (io st)) = []).
  { intros _ Hc.
    refine (proj1 (@ffread_nothing (fin (io st)) (src (in_buf st)) IN_CAP_D
                                   Hrs _ Hc)).
    unfold IN_CAP_D; lia. }
  destruct (res st2 =? 0)%N eqn:Hz;
    [apply N.eqb_eq in Hz | apply N.eqb_neq in Hz];
    (destruct (isize (in_buf (refill IN_CAP_D st)) =? 0) eqn:Hs;
     [apply Nat.eqb_eq in Hs; pose proof (proj1 Hre Hs)
     | apply Nat.eqb_neq in Hs;
       assert (~ (ipos (in_buf st) = isize (in_buf st)
                  /\ refill_count IN_CAP_D st = 0)) by tauto]);
    simpl; (split; [|split; [|exact Hex]]);
    (split; [intros; try discriminate; try tauto; try lia
            | intros; try reflexivity; try tauto; try lia]).
Qed.

(* ================================================================= *)
(** ** The pair codec keeps the buffer discipline *)

Lemma write_at_length (d : list byte) (pos : nat) (bs : list byte) :
  pos + length bs <= length d -> length (write_at d pos bs) = length d.
Proof.
  intros H. unfold write_at.
  rewrite !length_app, length_firstn, length_skipn. lia.
Qed.

Lemma slice_length (l : list byte) (a b : nat) :
  length (slice l a b) = Nat.min (b - a) (length l - a).
Proof.
  unfold slice. now rewrite length_firstn, length_skipn.
Qed.

Lemma enc_length (s : list byte) :
  length (PairCodec.enc s) = 2 * length s.
Proof.
  induction s as [|b s IH]; [reflexivity|].
  change (PairCodec.enc (b :: s)) with (x01 :: b :: PairCodec.enc s).
  cbn [length]. rewrite IH. lia.
Qed.

Lemma half_twice (n : nat) : 2 * (n / 2) <= n.
Proof.
  pose proof (Nat.div_mod_eq n 2). lia.
Qed.

Lemma pair_compress_kept (c : unit) (o : FL2_outBuffer) (i : FL2_inBuffer) :
  valid_in i -> valid_out o ->
  let '(_, o', i', _) := PairCodec.compressStream c o i in
  in_kept i i' /\ out_kept o o'.
Proof.
  intros [Hi1 Hi2] [Ho1 Ho2]. unfold PairCodec.compressStream.
  set (k := Nat.min _ _).
  assert (Hk1 : k <= isize i - ipos i) by apply Nat.le_min_l.
  assert (Hk2 : 2 * k <= osize o - opos o).
  { pose proof (half_twice (osize o - opos o)).
    pose proof (Nat.le_min_r (isize i - ipos i) ((osize o - opos o) / 2)).
    fold k in H0. lia. }
  unfold in_kept, out_kept; cbn [src isize ipos dst osize opos].
  repeat split; try lia.
  apply write_at_length. rewrite enc_length, slice_length. lia.
Qed.

Lemma pair_end_kept (c : unit) (o : FL2_outBuffer) :
  valid_out o ->
  let '(_, o', _) := PairCodec.endStream c o in out_kept o o'.
Proof.
  intros [Ho1 Ho2]. unfold PairCodec.endStream.
  destruct (opos o <? osize o) eqn:Hq.
  - apply Nat.ltb_lt in Hq. unfold out_kept; cbn [dst osize opos].
    repeat split; try lia. apply write_at_length. simpl. lia.
  - unfold out_kept. repeat split; lia.
Qed.

Lemma pair_decompress_kept (d : PairCodec.Phase) (o : FL2_outBuffer)
      (i : FL2_inBuffer) :
  valid_in i -> valid_out o ->
  let '(_, o', i', _) := PairCodec.decompressStream d o i in
  in_kept i i' /\ out_kept o o'.
Proof.
  intros [Hi1 Hi2] [Ho1 Ho2].
  assert (Hsame : in_kept i i /\ out_kept o o)
    by (unfold in_kept, out_kept; repeat split; lia).
  unfold PairCodec.decompressStream. destruct d.
  - destruct (ipos i <? isize i) eqn:Hq; [|exact Hsame].
    apply Nat.ltb_lt in Hq.
    destruct (Byte.eqb _ x00); [|destruct (Byte.eqb _ x01); [|exact Hsame]];
      unfold in_kept, out_kept; cbn [src isize ipos]; repeat split; lia.
  - destruct (ipos i <? isize i) eqn:Hq; [|exact Hsame].
    destruct (opos o <? osize o) eqn:Hq'; [|exact Hsame].
    apply Nat.ltb_lt in Hq, Hq'. simpl.
    unfold in_kept, out_kept; cbn [src isize ipos dst osize opos].
    repeat split; try lia. apply write_at_length. simpl. lia.
  - exact Hsame.
Qed.

Lemma pair_discipline : Discipline PairCodec.engine.
Proof.
  constructor.
  - intros c o i c' o' i' r H _ Hi Ho.
    pose proof (pair_compress_kept c Hi Ho) as Hk. simpl in H.
    rewrite H in Hk. exact Hk.
  - intros c o c' o' r H _ Ho.
    pose proof (pair_end_kept c Ho) as Hk. simpl in H.
    rewrite H in Hk. exact Hk.
  - intros d o i d' o' i' r H _ Hi Ho.
    pose proof (pair_decompress_kept d Hi Ho) as Hk. simpl in H.
    rewrite H in Hk. exact Hk.
Qed.

Lemma buffer_invariant_witness :
  Discipline PairCodec.engine
  /\ buffers_ok IN_CAP_C OUT_CAP_C
                (compress_start PairCodec.engine tt (io_on hello None)).
Proof.
  split; [exact pair_discipline|].
  apply (proj1 (buffer_invariant pair_discipline) tt (io_on hello None)).
  left. constructor.
Defined.

Lemma readable_io_on (data : list byte) (room : option nat) :
  readable (fin (io_on data room)).
Proof. split; [reflexivity | discriminate]. Qed.

Lemma decompress_loop_condition_witness :
  let st := decompress_start PairCodec.engine PairCodec.Tag
                             (io_on (PairCodec.container hello) None) in
  let st2 := feed_d PairCodec.engine (refill IN_CAP_D st) in
  decompress_body PairCodec.engine st = Continue (drain st2)
  <-> res st2 <> 0%N
      /\ (ipos (in_buf st) < isize (in_buf st)
          \/ (ipos (in_buf st) = isize (in_buf st)
              /\ 0 < refill_count IN_CAP_D st)).
Proof.
  intros st st2.
  refine (proj1 (@decompress_loop_condition PairCodec.engine pair_discipline
                   PairCodec.Tag (io_on (PairCodec.container hello) None) st
                   (readable_io_on _ _) (entry_first _ _) _)).
  vm_compute. reflexivity.
Defined.

(* ================================================================= *)
(** ** The sink has no say *)

Lemma step_inj {A} (x y : A) :
  (Continue x = Continue y -> x = y)
  /\ (Break x = Break y -> x = y)
  /\ (Abort x = Abort y -> x = y).
Proof. repeat split; congruence. Qed.

Lemma loop_inj {A} (x y : A) :
  (Finished x = Finished y -> x = y) /\ (Failed x = Failed y -> x = y).
Proof. split; congruence. Qed.

Section Sink.

Variable E : Engine.

Lemma hide_refill {X} (cap : nat) (st : Pump X) :
  hide_sink (refill cap st) = refill cap (hide_sink st).
Proof.
  unfold refill, hide_sink; simpl. destruct (_ =? _); [|reflexivity].
  destruct (ffread _ _ _) as [[n b] f]. reflexivity.
Qed.

Lemma hide_feed_c (st : Pump (CStream E)) :
  hide_sink (feed_c E st) = feed_c E (hide_sink st).
Proof.
  unfold feed_c, hide_sink; simpl.
  now destruct (FL2_compressStream E _ _ _) as [[[c o] i] r].
Qed.

Lemma hide_feed_end (st : Pump (CStream E)) :
  hide_sink (feed_end E st) = feed_end E (hide_sink st).
Proof.
  unfold feed_end, hide_sink; simpl.
  now destruct (FL2_endStream E _ _) as [[c o] r].
Qed.

Lemma hide_feed_d (st : Pump (DStream E)) :
  hide_sink (feed_d E st) = feed_d E (hide_sink st).
Proof.
  unfold feed_d, hide_sink; simpl.
  now destruct (FL2_decompressStream E _ _ _) as [[[c o] i] r].
Qed.

Lemma hide_drain {X} (st : Pump X) :
  hide_sink (drain st) = hide_sink (drain (hide_sink st)).
Proof. reflexivity. Qed.

Lemma hide_idem {X} (st : Pump X) : hide_sink (hide_sink st) = hide_sink st.
Proof. reflexivity. Qed.

Lemma hide_compress_body (st : Pump (CStream E)) :
  map_step hide_sink (compress_body E st)
  = map_step hide_sink (compress_body E (hide_sink st)).
Proof.
  unfold compress_body. rewrite <- hide_refill, <- hide_feed_c.
  set (st2 := feed_c E (refill IN_CAP_C st)).
  change (res (hide_sink st2)) with (res st2).
  destruct (FL2_isError E (res st2)); [reflexivity|].
  change (isize (in_buf (drain (hide_sink st2))))
    with (isize (in_buf (drain st2))).
  destruct (_ =? 0); reflexivity.
Qed.

Lemma hide_finish_body (st : Pump (CStream E)) :
  map_step hide_sink (finish_body E st)
  = map_step hide_sink (finish_body E (hide_sink st)).
Proof.
  unfold finish_body. rewrite <- hide_feed_end.
  set (st2 := feed_end E st).
  change (res (hide_sink st2)) with (res st2).
  destruct (FL2_isError E (res st2)); [reflexivity|].
  change (res (drain (hide_sink st2))) with (res (drain st2)).
  destruct (_ =? 0)%N; reflexivity.
Qed.

Lemma hide_decompress_body (st : Pump (DStream E)) :
  map_step hide_sink (decompress_body E st)
  = map_step hide_sink (decompress_body E (hide_sink st)).
Proof.
  unfold decompress_body. rewrite <- hide_refill, <- hide_feed_d.
  set (st2 := feed_d E (refill IN_CAP_D st)).
  change (res (hide_sink st2)) with (res st2).
  destruct (FL2_isError E (res st2)); [reflexivity|].
  change (res (drain (hide_sink st2))) with (res (drain st2)).
  change (isize (in_buf (drain (hide_sink st2))))
    with (isize (in_buf (drain st2))).
  destruct (_ && _); reflexivity.
Qed.

Lemma hide_do_while {X} (body : Pump X -> Step (Pump X)) :
  (forall st, map_step hide_sink (body st)
              = map_step hide_sink (body (hide_sink st))) ->
  forall fuel st st',
    hide_sink st = hide_sink st' ->
    map_loop hide_sink (do_while body fuel st)
    = map_loop hide_sink (do_while body fuel st').
Proof.
  intros Hb fuel; induction fuel as [|n IH]; intros st st' Hh; [reflexivity|].
  simpl. pose proof (Hb st) as H1. pose proof (Hb st') as H2.
  rewrite <- Hh in H2. rewrite <- H1 in H2. clear H1.
  destruct (body st) as [a|a|a], (body st') as [a'|a'|a'];
    cbn [map_step] in H2; try discriminate; cbn [map_loop];
    apply step_inj in H2.
  - apply IH. symmetry. exact H2.
  - f_equal. symmetry. exact H2.
  - f_equal. symmetry. exact H2.
Qed.

Lemma hide_error_out {X} (prefix : string) (st st' : Pump X) :
  hide_sink st = hide_sink st' ->
  but_sink (Some (error_out E prefix st)) = but_sink (Some (error_out E prefix st')).
Proof.
  destruct st as [c i o r a b [f g so se ca]],
           st' as [c' i' o' r' a' b' [f' g' so' se' ca']].
  unfold hide_sink, error_out, but_sink, hide_sink, set_fout. simpl.
  intros H. injection H as -> -> -> -> -> -> -> -> -> ->. reflexivity.
Qed.

Lemma hide_report {X} (m m' : Msg) (prefix : string) (st st' : Pump X) :
  m = m' -> hide_sink st = hide_sink st' ->
  but_sink (Some (report m prefix st)) = but_sink (Some (report m' prefix st')).
Proof.
  destruct st as [c i o r a b [f g so se ca]],
           st' as [c' i' o' r' a' b' [f' g' so' se' ca']].
  unfold hide_sink, report, but_sink, hide_sink, set_fout. simpl.
  intros -> H. injection H as -> -> -> -> -> -> -> -> -> ->. reflexivity.
Qed.

Lemma compress_file_but_sink (fuel : nat) (cs : CStream E) (w : IO) (f : ofstream) :
  but_sink (compress_file E fuel cs (set_fout f w))
  = but_sink (compress_file E fuel cs w).
Proof.
  unfold compress_file.
  pose proof (@hide_do_while _ (compress_body E) hide_compress_body fuel
                (compress_start E cs (set_fout f w)) (compress_start E cs w)
                eq_refl) as H1.
  destruct (do_while (compress_body E) fuel (compress_start E cs (set_fout f w)))
    as [a|a|],
    (do_while (compress_body E) fuel (compress_start E cs w)) as [a'|a'|];
    cbn [map_loop] in H1; try discriminate; try reflexivity;
    apply loop_inj in H1.
  - pose proof (@hide_do_while _ (finish_body E) hide_finish_body fuel a a' H1) as H2.
    destruct (do_while (finish_body E) fuel a) as [b|b|],
      (do_while (finish_body E) fuel a') as [b'|b'|];
      cbn [map_loop] in H2; try discriminate; try reflexivity;
      apply loop_inj in H2.
    + apply hide_report; [|exact H2].
      apply (f_equal (fun s => MsgCompressed (in_size s) (out_size s))) in H2.
      exact H2.
    + now apply hide_error_out.
  - now apply hide_error_out.
Qed.

Lemma decompress_file_but_sink (fuel : nat) (ds : DStream E) (w : IO) (f : ofstream) :
  but_sink (decompress_file E fuel ds (set_fout f w))
  = but_sink (decompress_file E fuel ds w).
Proof.
  unfold decompress_file.
  pose proof (@hide_do_while _ (decompress_body E) hide_decompress_body fuel
                (decompress_start E ds (set_fout f w)) (decompress_start E ds w)
                eq_refl) as H1.
  destruct (do_while (decompress_body E) fuel (decompress_start E ds (set_fout f w)))
    as [a|a|],
    (do_while (decompress_body E) fuel (decompress_start E ds w)) as [a'|a'|];
    cbn [map_loop] in H1; try discriminate; try reflexivity;
    apply loop_inj in H1.
  - apply hide_report; [|exact H1].
    apply (f_equal (fun s => MsgDecompressed (in_size s) (out_size s))) in H1.
    exact H1.
  - now apply hide_error_out.
Qed.

End Sink.

(** C10.  [ffwrite] returns the size it was asked to write whatever the
    state of the stream; the return value, the counters and the messages of
    [compress_file] and [decompress_file] are the same for every sink; and a
    run whose sink takes no byte at all exits with status 0 after reporting
    all the bytes as written. *)
Theorem sink_failure_unnoticed :
  (forall f buffer size, fst (ffwrite f buffer size) = size)
  /\ (forall E fuel cs w f,
         but_sink (compress_file E fuel cs (set_fout f w))
         = but_sink (compress_file E fuel cs w))
  /\ (forall E fuel ds w f,
         but_sink (decompress_file E fuel ds (set_fout f w))
         = but_sink (decompress_file E fuel ds w))
  /\ (exists p,
         main PairCodec.engine (env_with (Some hello) (Some 0)) 100
              ["FastLZMA2Tool"; "compress"; "hello.txt"]%string
         = Exit 0%Z p
         /\ out_data (fout (pio p)) = []
         /\ out_bad (fout (pio p)) = true
         /\ In (MsgCompressed 11 23) (stdout (pio p))
         /\ In (MsgSuccess true) (stdout (pio p))).
Proof.
  split; [reflexivity|].
  split; [intros; apply compress_file_but_sink|].
  split; [intros; apply decompress_file_but_sink|].
  eexists. split; [vm_compute; reflexivity|].
  simpl. intuition.
Qed.

(* ================================================================= *)
(** ** Byte accounting *)

Lemma size_add_count (a n : nat) :
  size_add (Z.of_nat a mod SIZE_MOD) (Z.of_nat n)
  = (Z.of_nat (a + n) mod SIZE_MOD)%Z.
Proof.
  unfold size_add. rewrite Zplus_mod_idemp_l. f_equal. lia.
Qed.

Lemma accounted_refill {X} (cap len0 data0 : nat) (st : Pump X) :
  accounted len0 data0 st -> accounted len0 data0 (refill cap st).
Proof.
  intros (Hr & Hl & Hi & Hrest). unfold refill.
  destruct (_ =? _); [|repeat split; try apply Hr; try apply Hrest; assumption].
  pose proof (ffread_total (src (in_buf st)) cap Hr) as Ht.
  pose proof (ffread_readable (src (in_buf st)) cap Hr) as Hr'.
  destruct (ffread _ _ _) as [[n b] f]. simpl in Ht, Hr'.
  unfold accounted; simpl. split; [exact Hr'|]. split; [lia|].
  split; [|exact Hrest].
  rewrite Hi, size_add_count. f_equal. lia.
Qed.

Lemma accounted_same {X} (len0 data0 : nat) (st st' : Pump X) :
  fin (io st') = fin (io st) -> fout (io st') = fout (io st) ->
  in_size st' = in_size st -> out_size st' = out_size st ->
  accounted len0 data0 st -> accounted len0 data0 st'.
Proof.
  unfold accounted. intros -> -> -> ->. auto.
Qed.

Lemma accounted_drain {X} (len0 data0 : nat) (st : Pump X) :
  opos (out_buf st) <= length (dst (out_buf st)) ->
  accounted len0 data0 st -> accounted len0 data0 (drain st).
Proof.
  intros Hp (Hr & Hl & Hi & (Ho & Hb & Hroom) & Hd & Hout).
  unfold accounted, drain, ffwrite, ostream_write; simpl.
  rewrite Ho, Hb, Hroom. simpl.
  repeat split; try assumption; try apply Hr.
  - rewrite length_app. lia.
  - rewrite Hout, size_add_count. f_equal.
    rewrite length_app, length_firstn. lia.
Qed.

Section Accounting.

Variable E : Engine.
Hypothesis HD : Discipline E.

Lemma accounted_compress_body (len0 data0 : nat) (st st' : Pump (CStream E)) :
  tidy IN_CAP_C OUT_CAP_C st -> accounted len0 data0 st ->
  compress_body E st = Continue st' \/ compress_body E st = Break st' ->
  accounted len0 data0 st'.
Proof.
  intros Ht Ha Hb. apply (refill_tidy) in Ht.
  apply (accounted_refill IN_CAP_C) in Ha.
  unfold compress_body, feed_c in Hb.
  destruct (tidy_valid Ht) as [Hvi Hvo].
  set (st1 := refill IN_CAP_C st) in *.
  destruct (FL2_compressStream E _ _ _) as [[[c o] i] r] eqn:Hc.
  simpl in Hb. destruct (FL2_isError E r) eqn:He; [destruct Hb; discriminate|].
  destruct (@compress_kept E HD _ _ _ _ _ _ _ Hc He Hvi Hvo)
    as [_ (Hd & He' & Hf)].
  assert (Hst : st' = drain (mkPump c i o r (in_size st1) (out_size st1)
                                    (log_call (CallCompress r) (io st1)))).
  { destruct (isize _ =? 0); destruct Hb as [Hb|Hb]; congruence. }
  subst st'. apply accounted_drain.
  - simpl. destruct Hvo. lia.
  - eapply accounted_same; [| | | |exact Ha]; reflexivity.
Qed.

Lemma accounted_finish_body (len0 data0 : nat) (st st' : Pump (CStream E)) :
  tidy IN_CAP_C OUT_CAP_C st -> accounted len0 data0 st ->
  finish_body E st = Continue st' \/ finish_body E st = Break st' ->
  accounted len0 data0 st'.
Proof.
  intros Ht Ha Hb.
  unfold finish_body, feed_end in Hb.
  destruct (tidy_valid Ht) as [Hvi Hvo].
  destruct (FL2_endStream E _ _) as [[c o] r] eqn:Hc.
  simpl in Hb. destruct (FL2_isError E r) eqn:He; [destruct Hb; discriminate|].
  destruct (@end_kept E HD _ _ _ _ _ Hc He Hvo) as (Hd & He' & Hf).
  assert (Hst : st' = drain (mkPump c (in_buf st) o r (in_size st) (out_size st)
                                    (log_call (CallEnd r) (io st)))).
  { destruct (_ =? _)%N; destruct Hb as [Hb|Hb]; congruence. }
  subst st'. apply accounted_drain.
  - simpl. destruct Hvo. lia.
  - eapply accounted_same; [| | | |exact Ha]; reflexivity.
Qed.

Lemma accounted_decompress_body (len0 data0 : nat) (st st' : Pump (DStream E)) :
  tidy IN_CAP_D OUT_CAP_D st -> accounted len0 data0 st ->
  decompress_body E st = Continue st' \/ decompress_body E st = Break st' ->
  accounted len0 data0 st'.
Proof.
  intros Ht Ha Hb. apply (refill_tidy) in Ht.
  apply (accounted_refill IN_CAP_D) in Ha.
  unfold decompress_body, feed_d in Hb.
  destruct (tidy_valid Ht) as [Hvi Hvo].
  set (st1 := refill IN_CAP_D st) in *.
  destruct (FL2_decompressStream E _ _ _) as [[[c o] i] r] eqn:Hc.
  simpl in Hb. destruct (FL2_isError E r) eqn:He; [destruct Hb; discriminate|].
  destruct (@decompress_kept E HD _ _ _ _ _ _ _ Hc He Hvi Hvo)
    as [_ (Hd & He' & Hf)].
  assert (Hst : st' = drain (mkPump c i o r (in_size st1) (out_size st1)
                                    (log_call (CallDecompress r) (io st1)))).
  { destruct (_ && _); destruct Hb as [Hb|Hb]; congruence. }
  subst st'. apply accounted_drain.
  - simpl. destruct Hvo. lia.
  - eapply accounted_same; [| | | |exact Ha]; reflexivity.
Qed.

(** Tidy and accounted, at every boundary of a loop whose iterations keep
    both. *)
Lemma loop_accounted {X} (body : Pump X -> Step (Pump X)) (ci co len0 data0 : nat)
      (st0 st : Pump X) :
  (forall a a', tidy ci co a ->
                body a = Continue a' \/ body a = Break a' -> tidy ci co a') ->
  (forall a a', tidy ci co a -> accounted len0 data0 a ->
                body a = Continue a' \/ body a = Break a' ->
                accounted len0 data0 a') ->
  tidy ci co st0 -> accounted len0 data0 st0 ->
  boundary body st0 st ->
  tidy ci co st /\ accounted len0 data0 st.
Proof.
  intros Ht Ha H0 H1 Hb.
  assert (Hen : forall a, entry body st0 a -> tidy ci co a /\ accounted len0 data0 a).
  { intros a Hen.
    apply (entry_invariant (body := body)
             (fun a => tidy ci co a /\ accounted len0 data0 a) (a0 := st0));
      [split; assumption | | exact Hen].
    intros x x' [Hx Hx'] Hs. split; eauto. }
  destruct Hb as [Hb | (a & Hb & Hbr)]; [auto|].
  destruct (Hen _ Hb) as [Hx Hx']. split; eauto.
Qed.

(** The first loop of [compress_file] leaves nothing of the source. *)
Lemma compress_break_exhausts (st st' : Pump (CStream E)) :
  tidy IN_CAP_C OUT_CAP_C st -> readable (fin (io st)) ->
  compress_body E st = Break st' ->
  in_rest (fin (io st')) = [].
Proof.
  intros Ht Hr Hb. unfold compress_body in Hb.
  destruct (FL2_isError E _) eqn:He; [discriminate|].
  destruct (drain_frame (feed_c E (refill IN_CAP_C st)))
    as (_ & Hib & _ & _ & Hfin & _).
  destruct (isize _ =? 0) eqn:Hz; [|discriminate].
  injection Hb as <-. rewrite Hfin, feed_c_fin.
  rewrite Hib in Hz. apply Nat.eqb_eq in Hz.
  destruct (feed_c_size HD (refill_tidy Ht) He) as [Hsz _].
  rewrite Hsz in Hz. apply (refill_empty Ht) in Hz as [Hu Hc].
  rewrite refill_fin. apply Nat.eqb_eq in Hu. rewrite Hu.
  refine (proj2 (@ffread_nothing (fin (io st)) (src (in_buf st)) IN_CAP_C
                                 Hr _ Hc)).
  unfold IN_CAP_C; lia.
Qed.

End Accounting.

Lemma accounted_start {X} (st : Pump X) :
  readable (fin (io st)) -> healthy (fout (io st)) ->
  in_size st = 0%Z -> out_size st = 0%Z ->
  accounted (length (in_rest (fin (io st)))) (length (out_data (fout (io st)))) st.
Proof.
  intros Hr Hh Hi Ho. unfold accounted.
  rewrite Hi, Ho, !Nat.sub_diag. repeat split; auto; apply Hr || apply Hh.
Qed.

(** C7 (as amended).  With an engine that keeps the buffer discipline, a
    readable source and a sink that takes every write:  a [compress_file]
    that returns 0 has read the whole source and reports its size and the
    number of bytes added to the sink;  a [decompress_file] that returns 0
    reports the number of bytes it took from the source, of which some may
    remain unread, and the number of bytes added to the sink.  The counts
    are those of [size_t] counters, modulo [2^64]. *)
Theorem byte_accounting (E : Engine) (HD : Discipline E) (fuel : nat) (w : IO) :
  readable (fin w) -> healthy (fout w) ->
  let size := length (in_rest (fin w)) in
  let before := length (out_data (fout w)) in
  (forall cs st,
      compress_file E fuel cs w = Some (0%Z, st) ->
      in_rest (fin (io st)) = []
      /\ stdout (io st)
         = stdout w
           ++ [MsgCompressed
                 (Z.of_nat size mod SIZE_MOD)
                 (Z.of_nat (length (out_data (fout (io st))) - before) mod SIZE_MOD);
               MsgTook "Compression"])
  /\ (forall ds st,
         decompress_file E fuel ds w = Some (0%Z, st) ->
         length (in_rest (fin (io st))) <= size
         /\ stdout (io st)
            = stdout w
              ++ [MsgDecompressed
                    (Z.of_nat (size - length (in_rest (fin (io st)))) mod SIZE_MOD)
                    (Z.of_nat (length (out_data (fout (io st))) - before) mod SIZE_MOD);
                  MsgTook "Decompression"]).
Proof.
  intros Hr Hh size before. split.
  - intros cs st H. unfold compress_file in H.
    destruct (do_while (compress_body E) fuel _) as [st1|st1|] eqn:H1;
      try discriminate.
    destruct (do_while (finish_body E) fuel st1) as [st2|st2|] eqn:H2;
      try discriminate.
    injection H as <-.
    destruct (do_while_finished _ _ _ H1) as (a & Ha & Hbr).
    assert (Hb1 : boundary (compress_body E) (compress_start E cs w) st1)
      by (right; eauto).
    destruct (loop_accounted (len0 := size) (data0 := before)
                (compress_body_tidy HD) (@accounted_compress_body E HD size before)
                (compress_start_tidy E cs w)
                (accounted_start (compress_start E cs w) Hr Hh eq_refl eq_refl)
                Hb1) as [Ht1 Ha1].
    destruct (compress_entry_facts HD Hr Ha) as [Hta Hra].
    pose proof (compress_break_exhausts HD Hta Hra Hbr) as Hex.
    destruct (do_while_finished _ _ _ H2) as (a2 & Ha2 & Hbr2).
    assert (Hb2 : boundary (finish_body E) st1 st2) by (right; eauto).
    destruct (loop_accounted (finish_body_tidy HD) (@accounted_finish_body E HD size before)
                Ht1 Ha1 Hb2) as [Ht2 (_ & Hl2 & Hi2 & _ & _ & Ho2)].
    pose proof (do_while_keeps (finish_body E)
                  (fun s => (stdout (io s), fin (io s))) fuel st1) as Hk2.
    rewrite H2 in Hk2.
    assert (Hk2' : (stdout (io st2), fin (io st2)) = (stdout (io st1), fin (io st1))).
    { apply Hk2. intros x. pose proof (finish_body_stdout E x) as Hx.
      destruct (finish_body E x); destruct Hx as [-> ->]; reflexivity. }
    injection Hk2' as Hso2 Hfin.
    pose proof (do_while_keeps (compress_body E) (fun s => stdout (io s))
                  fuel (compress_start E cs w) (compress_body_stdout E)) as Hso1.
    rewrite H1 in Hso1. simpl in Hso1.
    simpl. rewrite Hfin, Hex in *. split; [reflexivity|].
    rewrite Hi2, Ho2, Hso2, Hso1, <- app_assoc. simpl.
    rewrite Nat.sub_0_r. reflexivity.
  - intros ds st H. unfold decompress_file in H.
    destruct (do_while (decompress_body E) fuel _) as [st1|st1|] eqn:H1;
      try discriminate.
    injection H as <-.
    destruct (do_while_finished _ _ _ H1) as (a & Ha & Hbr).
    assert (Hb1 : boundary (decompress_body E) (decompress_start E ds w) st1)
      by (right; eauto).
    destruct (loop_accounted (len0 := size) (data0 := before)
                (decompress_body_tidy HD) (@accounted_decompress_body E HD size before)
                (decompress_start_tidy E ds w)
                (accounted_start (decompress_start E ds w) Hr Hh eq_refl eq_refl)
                Hb1) as [Ht1 (_ & Hl & Hi & _ & _ & Ho)].
    pose proof (do_while_keeps (decompress_body E) (fun s => stdout (io s))
                  fuel (decompress_start E ds w) (decompress_body_stdout E)) as Hso1.
    rewrite H1 in Hso1. simpl in Hso1.
    simpl. split; [exact Hl|]. rewrite Hi, Ho, Hso1, <- app_assoc. reflexivity.
Qed.

Lemma healthy_io_on (data : list byte) : healthy (fout (io_on data None)).
Proof. repeat split. Qed.

Lemma byte_accounting_witness :
  exists st,
    compress_file PairCodec.engine 100 tt (io_on hello None) = Some (0%Z, st)
    /\ in_rest (fin (io st)) = []
    /\ stdout (io st)
       = [MsgCompressed
            (Z.of_nat (length hello) mod SIZE_MOD)
            (Z.of_nat (length (out_data (fout (io st))) - 0) mod SIZE_MOD);
          MsgTook "Compression"].
Proof.
  eexists. split; [vm_compute; reflexivity|].
  refine (proj1 (@byte_accounting PairCodec.engine pair_discipline 100
                   (io_on hello None) (readable_io_on _ _) (healthy_io_on _))
                tt _ _).
  vm_compute. reflexivity.
Defined.

(** C7, the claim as stated fails twice.  A decompression whose engine
    reports the end of the stream before the end of the source returns 0
    having taken 4096 of the 5001 bytes of the source;  and a compression
    onto a sink that takes no byte returns 0 and reports 23 bytes written
    while the sink holds none. *)
Lemma accounting_falls_short :
  (exists st,
      decompress_file PairCodec.engine 10 PairCodec.Tag
                      (io_on (x00 :: repeat x01 (5 * 1000)) None) = Some (0%Z, st)
      /\ length (x00 :: repeat x01 (5 * 1000)) = 1 + 5 * 1000
      /\ length (in_rest (fin (io st))) = 905
      /\ In (MsgDecompressed 4096 0) (stdout (io st)))
  /\ (exists st,
         compress_file PairCodec.engine 10 tt (io_on hello (Some 0))
         = Some (0%Z, st)
         /\ In (MsgCompressed 11 23) (stdout (io st))
         /\ out_data (fout (io st)) = []).
Proof.
  split.
  - eexists. split; [vm_compute; reflexivity|].
    split; [vm_compute; reflexivity|].
    split; [vm_compute; reflexivity|]. simpl; auto.
  - eexists. split; [vm_compute; reflexivity|].
    split; [simpl; auto | reflexivity].
Qed.

(* ================================================================= *)
(** ** Termination of the first loop of [compress_file] *)

Lemma refill_unread {X} (cap oc : nat) (st : Pump X) :
  tidy cap oc st -> readable (fin (io st)) ->
  unread (refill cap st) = unread st.
Proof.
  intros (H1 & _) Hr. unfold unread, refill.
  destruct (ipos (in_buf st) =? isize (in_buf st)) eqn:Hq; [|reflexivity].
  apply Nat.eqb_eq in Hq.
  pose proof (ffread_total (src (in_buf st)) cap Hr) as Ht.
  destruct (ffread _ _ _) as [[n b] f]. simpl in *. lia.
Qed.

Lemma refill_offers {X} (cap oc : nat) (st : Pump X) :
  tidy cap oc st ->
  isize (in_buf (refill cap st)) <> 0 ->
  ipos (in_buf (refill cap st)) < isize (in_buf (refill cap st)).
Proof.
  intros (H1 & _). unfold refill.
  destruct (ipos (in_buf st) =? isize (in_buf st)) eqn:Hq.
  - destruct (ffread _ _ _) as [[n b] f]. simpl. lia.
  - apply Nat.eqb_neq in Hq. lia.
Qed.

Section Termination.

Variable E : Engine.
Hypothesis HD : Discipline E.
Variable backlog : CStream E -> nat.
Hypothesis HP : feed_progresses E backlog.

Lemma compress_body_progress (st st' : Pump (CStream E)) :
  tidy IN_CAP_C OUT_CAP_C st -> readable (fin (io st)) ->
  compress_body E st = Continue st' ->
  unread st' < unread st
  \/ (unread st' = unread st /\ backlog (ctx st') < backlog (ctx st)).
Proof.
  intros Ht Hr Hb.
  rewrite <- (refill_unread Ht Hr).
  pose proof (refill_offers Ht) as Hoff.
  destruct (refill_frame IN_CAP_C st) as (Hctx & _).
  rewrite <- Hctx. clear Hctx.
  apply refill_tidy in Ht. apply (refill_readable IN_CAP_C) in Hr.
  unfold compress_body, feed_c in Hb.
  destruct (tidy_valid Ht) as [Hvi Hvo].
  set (st1 := refill IN_CAP_C st) in *.
  destruct (FL2_compressStream E _ _ _) as [[[c o] i] r] eqn:Hc.
  simpl in Hb. destruct (FL2_isError E r) eqn:He; [discriminate|].
  destruct (@compress_kept E HD _ _ _ _ _ _ _ Hc He Hvi Hvo)
    as [(Hs & Hsz & Hp1 & Hp2) _].
  destruct (isize i =? 0) eqn:Hz; [discriminate|].
  apply Nat.eqb_neq in Hz. injection Hb as <-.
  rewrite Hsz in Hz. specialize (Hoff Hz).
  destruct Ht as (_ & _ & _ & Ho1 & Ho2 & _).
  edestruct HP as [Hin | Hbl];
    [exact Hc | exact He | exact Hvi | exact Hvo | exact Ho1 | exact Ho2
     | exact Hoff | | ];
    unfold unread; simpl; rewrite Hsz; lia.
Qed.

Lemma compress_loop_ends_from (n b : nat) :
  forall st : Pump (CStream E),
    tidy IN_CAP_C OUT_CAP_C st -> readable (fin (io st)) ->
    unread st = n -> backlog (ctx st) = b ->
    exists fuel, do_while (compress_body E) fuel st <> Spinning.
Proof.
  revert b. induction n as [n IHn] using lt_wf_ind.
  induction b as [b IHb] using lt_wf_ind.
  intros st Ht Hr Hn Hb.
  destruct (compress_body E st) as [st'|st'|st'] eqn:Hbody.
  - assert (Ht' : tidy IN_CAP_C OUT_CAP_C st')
      by (eapply (compress_body_tidy HD); eauto).
    assert (Hr' : readable (fin (io st')))
      by (eapply compress_body_readable; eauto).
    assert (Hnext : exists fuel, do_while (compress_body E) fuel st' <> Spinning).
    { destruct (compress_body_progress Ht Hr Hbody) as [Hlt | [Heq Hlt]].
      - eapply (IHn (unread st')); [lia | | | reflexivity | reflexivity]; assumption.
      - eapply (IHb (backlog (ctx st'))); [lia | | | lia | reflexivity]; assumption. }
    destruct Hnext as [fuel Hf]. exists (S fuel). simpl. now rewrite Hbody.
  - exists 1. simpl. rewrite Hbody. discriminate.
  - exists 1. simpl. rewrite Hbody. discriminate.
Qed.

End Termination.

(** C2 (as amended).  With an engine that keeps the buffer discipline and
    whose feed calls, offered unread input, take at least one byte or lower
    a backlog, the first loop of [compress_file] ends for every source.  In
    an iteration whose feed reports no error it ends exactly when the input
    buffer had been used up and its refill returned 0 bytes, and then
    nothing is left of the source nor in the buffer; it goes on exactly when
    the buffer held unread bytes or the refill obtained some. *)
Theorem compress_loop_terminates
        (E : Engine) (HD : Discipline E)
        (backlog : CStream E -> nat) (HP : feed_progresses E backlog)
        (cs : CStream E) (w : IO) :
  readable (fin w) ->
  (exists fuel,
      do_while (compress_body E) fuel (compress_start E cs w) <> Spinning)
  /\ (forall st,
         entry (compress_body E) (compress_start E cs w) st ->
         let st2 := feed_c E (refill IN_CAP_C st) in
         let used_up := ipos (in_buf st) = isize (in_buf st) in
         FL2_isError E (res st2) = false ->
         (compress_body E st = Break (drain st2)
          <-> used_up /\ refill_count IN_CAP_C st = 0)
         /\ (compress_body E st = Continue (drain st2)
             <-> ipos (in_buf st) < isize (in_buf st)
                 \/ (used_up /\ 0 < refill_count IN_CAP_C st))
         /\ (compress_body E st = Break (drain st2) ->
             in_rest (fin (io (drain st2))) = []
             /\ ipos (in_buf (drain st2)) = isize (in_buf (drain st2)))).
Proof.
  intros Hr. split.
  - eapply (compress_loop_ends_from HD HP);
      [apply compress_start_tidy | exact Hr | reflexivity | reflexivity].
  - intros st Hen st2 used_up He.
    destruct (compress_entry_facts HD Hr Hen) as [Ht Hrs].
    pose proof (refill_tidy Ht) as Ht1.
    destruct (feed_c_size HD Ht1 He) as [Hsz Hps]. fold st2 in Hsz, Hps.
    pose proof (refill_empty Ht) as Hre.
    assert (Hpos : ipos (in_buf st) <= isize (in_buf st)) by apply Ht.
    assert (Hex : compress_body E st = Break (drain st2) ->
                  in_rest (fin (io (drain st2))) = []
                  /\ ipos (in_buf (drain st2)) = isize (in_buf (drain st2))).
    { intros Hb. split; [exact (compress_break_exhausts HD Ht Hrs Hb)|].
      unfold compress_body in Hb. fold st2 in Hb. rewrite He in Hb.
      destruct (isize (in_buf (drain st2)) =? 0) eqn:Hz; [|discriminate].
      apply Nat.eqb_eq in Hz. simpl in *. lia. }
    split; [|split; [|exact Hex]];
      unfold compress_body; fold st2; rewrite He;
      destruct (drain_frame st2) as (_ & Hib & _); rewrite Hib, Hsz;
      subst used_up;
      (destruct (isize (in_buf (refill IN_CAP_C st)) =? 0) eqn:Hs;
       [apply Nat.eqb_eq in Hs; pose proof (proj1 Hre Hs)
       | apply Nat.eqb_neq in Hs;
         assert (~ (ipos (in_buf st) = isize (in_buf st)
                    /\ refill_count IN_CAP_C st = 0)) by tauto]);
      (split; [intros; try discriminate; try tauto; try lia
              | intros; try reflexivity; try tauto; try lia]).
Qed.

Lemma pair_feed_progresses : feed_progresses PairCodec.engine (fun _ => 0).
Proof.
  intros c o i c' o' i' r H _ Hi Ho Hp Hs Hlt. left.
  cbn [FL2_compressStream PairCodec.engine] in H.
  unfold PairCodec.compressStream in H.
  assert (Hroom : 1 <= (osize o - opos o) / 2).
  { apply Nat.div_le_lower_bound; [discriminate|].
    rewrite Hp, Hs. unfold OUT_CAP_C. lia. }
  pose proof (Nat.min_glb (isize i - ipos i) ((osize o - opos o) / 2) 1) as Hm.
  set (k := Nat.min _ _) in *.
  injection H as _ _ <- _. cbn [ipos]. lia.
Qed.

Lemma compress_loop_terminates_witness :
  readable (fin (io_on hello None))
  /\ exists fuel,
       do_while (compress_body PairCodec.engine) fuel
                (compress_start PairCodec.engine tt (io_on hello None))
       <> Spinning.
Proof.
  split; [apply readable_io_on|].
  exact (proj1 (@compress_loop_terminates PairCodec.engine pair_discipline
                  (fun _ => 0) pair_feed_progresses tt (io_on hello None)
                  (readable_io_on _ _))).
Defined.

(** *** The trickling engine *)

Lemma trickle_discipline : Discipline Trickle.engine.
Proof.
  constructor.
  - intros c o i c' o' i' r H _ [Hi1 Hi2] [Ho1 Ho2].
    simpl in H. unfold Trickle.compressStream in H.
    destruct (opos o <? osize o) eqn:Hq; injection H as _ <- <- _.
    + apply Nat.ltb_lt in Hq. unfold in_kept, out_kept; cbn [dst osize opos].
      repeat split; try lia. apply write_at_length. simpl. lia.
    + unfold in_kept, out_kept. repeat split; lia.
  - intros c o c' o' r H _ Ho.
    pose proof (pair_end_kept c Ho) as Hk. simpl in H.
    rewrite H in Hk. exact Hk.
  - intros d o i d' o' i' r H _ Hi Ho.
    pose proof (pair_decompress_kept d Hi Ho) as Hk. simpl in H.
    rewrite H in Hk. exact Hk.
Qed.

Lemma trickle_moves : feed_moves Trickle.engine.
Proof.
  intros c o i c' o' i' r H _ _ _ Hp Hs. right.
  simpl in H. unfold Trickle.compressStream in H.
  rewrite Hp, Hs in H. change (0 <? OUT_CAP_C) with true in H.
  injection H as _ <- _ _. cbn [opos]. lia.
Qed.


Lemma trickle_stuck (st : Pump unit) :
  stuck st ->
  exists st', compress_body Trickle.engine st = Continue st' /\ stuck st'.
Proof.
  destruct st as [c [s sz p] [d osz op] r a b w].
  unfold stuck; cbn [in_buf out_buf isize ipos opos osize].
  intros (-> & -> & -> & ->).
  unfold compress_body, refill, feed_c.
  cbn [in_buf out_buf isize ipos opos osize ctx Nat.eqb].
  cbn [FL2_compressStream Trickle.engine]. unfold Trickle.compressStream.
  cbn [opos osize]. change (0 <? OUT_CAP_C) with true. cbv iota.
  cbn [res FL2_isError Trickle.engine].
  change (code_is_error 0) with false. cbv iota.
  unfold drain. cbn [in_buf out_buf isize ipos opos osize ffwrite].
  cbn [Nat.eqb]. eexists. split; [reflexivity|].
  unfold stuck; cbn [in_buf out_buf isize ipos opos osize]. auto.
Qed.

Lemma trickle_spins (fuel : nat) (st : Pump unit) :
  stuck st -> do_while (compress_body Trickle.engine) fuel st = Spinning.
Proof.
  revert st; induction fuel as [|n IH]; intros st Hs; [reflexivity|].
  destruct (trickle_stuck Hs) as (st' & Hb & Hs').
  simpl. rewrite Hb. now apply IH.
Qed.

(** C2, the claim as stated fails: an engine whose every feed call stores a
    byte of output makes the progress the claim asks for, and with it the
    first loop of [compress_file] never ends on a source of one byte. *)
Lemma progress_does_not_end_the_loop :
  Discipline Trickle.engine
  /\ feed_moves Trickle.engine
  /\ forall fuel,
       do_while (compress_body Trickle.engine) fuel
                (compress_start Trickle.engine tt (io_on [x00] None))
       = Spinning.
Proof.
  split; [exact trickle_discipline|]. split; [exact trickle_moves|].
  intros [|n]; [reflexivity|].
  assert (H1 : exists st1,
             compress_body Trickle.engine
                           (compress_start Trickle.engine tt (io_on [x00] None))
             = Continue st1 /\ stuck st1).
  { eexists. split; [vm_compute; reflexivity|].
    unfold stuck; cbn [in_buf out_buf isize ipos opos osize].
    repeat split; reflexivity. }
  destruct H1 as (st1 & Hb & Hs). cbn [do_while]. rewrite Hb.
  now apply trickle_spins.
Qed.

(* ================================================================= *)
(** ** The calls of the pump functions *)

Section PumpLog.

Variable E : Engine.

Lemma clean_compress (rs : list N) :
  Forall (fun r => FL2_isError E r = false) rs ->
  Forall (clean_call E) (map CallCompress rs).
Proof.
  induction 1; simpl; constructor; auto. split; [reflexivity | assumption].
Qed.

Lemma clean_end (rs : list N) :
  Forall (fun r => FL2_isError E r = false) rs ->
  Forall (clean_call E) (map CallEnd rs).
Proof.
  induction 1; simpl; constructor; auto. split; [reflexivity | assumption].
Qed.

Lemma clean_decompress (rs : list N) :
  Forall (fun r => FL2_isError E r = false) rs ->
  Forall (clean_call E) (map CallDecompress rs).
Proof.
  induction 1; simpl; constructor; auto. split; [reflexivity | assumption].
Qed.

Lemma pump_log_failed (mk : N -> Call) (rs : list N) (r : N) (errs : list string) :
  (forall x, is_pump_call (mk x) = true /\ call_status (mk x) = x) ->
  Forall (clean_call E) (map mk rs) ->
  FL2_isError E r = true ->
  pump_log E 1 (map mk (rs ++ [r]) ++ [CallErrorName r])
           (errs ++ [error_line (FL2_getErrorName E r)]).
Proof.
  intros Hmk Hc He. right. split; [reflexivity|].
  exists (map mk rs), (mk r). destruct (Hmk r) as [Hp Hs].
  rewrite Hs, map_app, <- app_assoc. simpl.
  repeat split; auto.
  - unfold pump_error. now rewrite Hp, Hs.
  - apply in_or_app. right. now left.
Qed.

Lemma compress_file_log (fuel : nat) (cs : CStream E) (w : IO) (r : Z)
      (st : Pump (CStream E)) :
  compress_file E fuel cs w = Some (r, st) ->
  exists l, calls (io st) = calls w ++ l /\ pump_log E r l (stderr (io st)).
Proof.
  unfold compress_file. intros H.
  pose proof (do_while_calls (compress_body_logs E) fuel (compress_start E cs w)) as H1.
  destruct (do_while (compress_body E) fuel _) as [st1|st1|]; try discriminate.
  - pose proof (do_while_calls (finish_body_logs E) fuel st1) as H2.
    destruct (do_while (finish_body E) fuel st1) as [st2|st2|]; try discriminate;
      injection H as <- <-.
    + destruct H1 as (rs & Hc1 & Hf1 & Hs1). destruct H2 as (es & Hc2 & Hf2 & Hs2).
      exists (map CallCompress (rs ++ [res st1]) ++ map CallEnd (es ++ [res st2])).
      simpl. rewrite Hc2, Hc1, <- app_assoc. split; [reflexivity|].
      left. split; [reflexivity|]. split.
      * apply Forall_app. split; [now apply clean_compress | now apply clean_end].
      * destruct rs; discriminate.
    + destruct H1 as (rs & Hc1 & Hf1 & Hs1).
      destruct H2 as (es & Hc2 & Hf2 & He2 & Hs2).
      exists ((map CallCompress (rs ++ [res st1]) ++ map CallEnd es)
              ++ [CallEnd (res st2); CallErrorName (res st2)]).
      split.
      * simpl. rewrite Hc2, Hc1, (map_app CallEnd), <- !app_assoc. reflexivity.
      * right. split; [reflexivity|].
        exists (map CallCompress (rs ++ [res st1]) ++ map CallEnd es),
               (CallEnd (res st2)).
        split; [reflexivity|]. split.
        { apply Forall_app.
          split; [now apply clean_compress | now apply clean_end]. }
        split; [reflexivity|]. split.
        { unfold pump_error. simpl. exact He2. }
        simpl. apply in_or_app. right. now left.
  - injection H as <- <-. destruct H1 as (rs & Hc1 & Hf1 & He1 & Hs1).
    exists (map CallCompress (rs ++ [res st1]) ++ [CallErrorName (res st1)]).
    simpl. rewrite Hc1, <- app_assoc. split; [reflexivity|].
    apply pump_log_failed; auto. now apply clean_compress.
Qed.

Lemma decompress_file_log (fuel : nat) (ds : DStream E) (w : IO) (r : Z)
      (st : Pump (DStream E)) :
  decompress_file E fuel ds w = Some (r, st) ->
  exists l, calls (io st) = calls w ++ l /\ pump_log E r l (stderr (io st)).
Proof.
  unfold decompress_file. intros H.
  pose proof (do_while_calls (decompress_body_logs E) fuel (decompress_start E ds w)) as H1.
  destruct (do_while (decompress_body E) fuel _) as [st1|st1|]; try discriminate;
    injection H as <- <-.
  - destruct H1 as (rs & Hc1 & Hf1 & Hs1).
    exists (map CallDecompress (rs ++ [res st1])).
    simpl. rewrite Hc1. split; [reflexivity|].
    left. split; [reflexivity|]. split.
    + now apply clean_decompress.
    + destruct rs; discriminate.
  - destruct H1 as (rs & Hc1 & Hf1 & He1 & Hs1).
    exists (map CallDecompress (rs ++ [res st1]) ++ [CallErrorName (res st1)]).
    simpl. rewrite Hc1, <- app_assoc. split; [reflexivity|].
    apply pump_log_failed; auto. now apply clean_decompress.
Qed.

End PumpLog.

(* ================================================================= *)
(** ** From [main] to the exit status *)

Section Triples.

Variable E : Engine.
Variable env : Env.

Local Open Scope proc_scope.

Lemma triple_bind {A B} (P : Process E -> Prop) (c : M E A) (k : A -> M E B)
      (Q : A -> Process E -> Prop) (R : B -> Process E -> Prop)
      (X : Z -> Process E -> Prop) :
  triple P c Q X -> (forall a, triple (Q a) (k a) R X) ->
  triple P (bind c k) R X.
Proof.
  intros Hc Hk p Hp. unfold bind. specialize (Hc p Hp).
  destruct (c p) as [a p'|code p'| |]; auto. apply (Hk a p' Hc).
Qed.

Lemma triple_ret {A} (P : Process E -> Prop) (a : A)
      (Q : A -> Process E -> Prop) (X : Z -> Process E -> Prop) :
  (forall p, P p -> Q a p) -> triple P (ret a) Q X.
Proof. intros H p Hp. simpl. auto. Qed.

Lemma triple_get (P : Process E -> Prop)
      (Q : Process E -> Process E -> Prop) (X : Z -> Process E -> Prop) :
  (forall p, P p -> Q p p) -> triple P get Q X.
Proof. intros H p Hp. simpl. auto. Qed.

Lemma triple_modify (P : Process E -> Prop) (f : Process E -> Process E)
      (Q : unit -> Process E -> Prop) (X : Z -> Process E -> Prop) :
  (forall p, P p -> Q tt (f p)) -> triple P (modify f) Q X.
Proof. intros H p Hp. simpl. auto. Qed.

Lemma triple_exit {A} (P : Process E -> Prop) (code : Z)
      (Q : A -> Process E -> Prop) (X : Z -> Process E -> Prop) :
  (forall p, P p -> X code (static_destroy p)) -> triple P (exit_ code) Q X.
Proof. intros H p Hp. simpl. auto. Qed.

Lemma triple_undefined {A} (P : Process E -> Prop)
      (Q : A -> Process E -> Prop) (X : Z -> Process E -> Prop) :
  triple P undefined Q X.
Proof. intros p Hp. exact I. Qed.

Lemma triple_pre {A} (P P' : Process E -> Prop) (c : M E A)
      (Q : A -> Process E -> Prop) (X : Z -> Process E -> Prop) :
  (forall p, P p -> P' p) -> triple P' c Q X -> triple P c Q X.
Proof. intros H Hc p Hp. apply Hc. auto. Qed.

(** What [Setup] and [Pumped] see of a state. *)
Lemma setup_same (p p' : Process E) :
  calls (pio p') = calls (pio p) -> fcs p' = fcs p -> fds p' = fds p ->
  Setup p -> Setup p'.
Proof. unfold Setup. intros -> -> ->. auto. Qed.

Lemma setup_logged (c : Call) (p : Process E) :
  is_setup_call c = true -> Setup p -> Setup (with_io (log_call c) p).
Proof.
  intros Hc (H1 & H2 & H3). unfold Setup; simpl. repeat split; auto.
  apply Forall_app. split; auto.
Qed.

Lemma static_destroy_closed (p : Process E) : closed (static_destroy p).
Proof. split; reflexivity. Qed.

Lemma static_destroy_setup (p : Process E) : Setup p -> Setup (static_destroy p).
Proof. apply setup_same; reflexivity. Qed.


Lemma blind_setup : blind (Setup (E := E)).
Proof. intros p p' H1 _ H2 H3. now apply setup_same. Qed.

Lemma blind_ready : blind (Ready (E := E)).
Proof.
  intros p p' H1 _ H2 H3 (Hs & Hc & Hd). unfold Ready.
  rewrite H2, H3. split; [|split; assumption]. now apply (@setup_same p _).
Qed.

Lemma blind_pumped (r : Z) : blind (Pumped (E := E) r).
Proof.
  intros p p' H1 H2 H3 H4 (Hl & Hc & Hd). unfold Pumped.
  rewrite H1, H2, H3, H4. auto.
Qed.

Lemma out_keeps (I : Process E -> Prop) (m : Msg) (X : Z -> Process E -> Prop) :
  blind I -> triple I (out m) (fun _ => I) X.
Proof.
  intros HI. apply triple_modify. intros p Hp.
  apply (HI p); auto.
Qed.

Lemma set_mode_keeps (I : Process E -> Prop) (b : bool) (X : Z -> Process E -> Prop) :
  blind I -> triple I (set_mode b) (fun _ => I) X.
Proof.
  intros HI. apply triple_modify. intros p Hp. apply (HI p); auto.
Qed.

Lemma set_threads_keeps (I : Process E -> Prop) (n : Z) (X : Z -> Process E -> Prop) :
  blind I -> triple I (set_threads n) (fun _ => I) X.
Proof.
  intros HI. apply triple_modify. intros p Hp. apply (HI p); auto.
Qed.

Lemma set_out_name_keeps (I : Process E -> Prop) (s : string)
      (X : Z -> Process E -> Prop) :
  blind I -> triple I (set_out_name s) (fun _ => I) X.
Proof.
  intros HI. apply triple_modify. intros p Hp. apply (HI p); auto.
Qed.

Lemma exit_fail_early {A} (msg : string) (Q : A -> Process E -> Prop) :
  triple (Setup (E := E)) (exit_fail msg) Q (Early (E := E)).
Proof.
  unfold exit_fail, err. eapply triple_bind.
  - apply triple_modify with (Q := fun _ => Setup (E := E)).
    intros p Hp. apply (@setup_same p _); auto.
  - intros ?; cbv beta. apply triple_exit. intros p Hp.
    split; [reflexivity|]. split; [now apply static_destroy_setup|].
    apply static_destroy_closed.
Qed.

Lemma logc_setup (c : Call) (X : Z -> Process E -> Prop) :
  is_setup_call c = true ->
  triple (Setup (E := E)) (logc c) (fun _ => Setup (E := E)) X.
Proof.
  intros Hc. apply triple_modify. intros p Hp. now apply setup_logged.
Qed.

Lemma create_init_ready (preset : Z) :
  triple (Setup (E := E)) (create_init_fl2_streams preset)
         (fun _ => Ready (E := E)) (Early (E := E)).
Proof.
  unfold create_init_fl2_streams.
  eapply triple_bind; [apply triple_get with (Q := fun _ => Setup (E := E)); auto|].
  intros p0. eapply triple_bind; [now apply logc_setup|]. intros ?; cbv beta.
  destruct (FL2_createCStreamMt E (thread_count p0) 0) as [cs|];
    [|apply exit_fail_early].
  eapply triple_bind.
  { apply triple_modify with (Q := fun _ => Setup (E := E)).
    intros p (H1 & H2 & H3). repeat split; auto. discriminate. }
  intros ?; cbv beta. eapply triple_bind; [now apply logc_setup|]. intros ?; cbv beta.
  destruct (FL2_createDStreamMt E (thread_count p0)) as [ds|];
    [|apply exit_fail_early].
  destruct (FL2_initCStream E cs preset) as [cs' r].
  eapply triple_bind; [now apply logc_setup|]. intros ?; cbv beta.
  destruct (if (r =? 0)%N then FL2_initDStream E ds else (ds, r)) as [ds' r'].
  eapply triple_bind with (Q := fun _ => Setup (E := E)).
  { destruct (r =? 0)%N; [now apply logc_setup | now apply triple_ret]. }
  intros ?; cbv beta. eapply triple_bind.
  { apply triple_modify with (Q := fun _ => Ready (E := E)).
    intros p (H1 & H2 & H3). repeat split; auto; discriminate. }
  intros ?; cbv beta. destruct (FL2_isError E r').
  - eapply triple_bind.
    { apply triple_pre with (P' := Setup (E := E)); [now intros p [Hp _]|].
      now apply logc_setup. }
    intros ?; cbv beta. eapply triple_bind.
    { apply triple_modify with (Q := fun _ => Setup (E := E)).
      intros p Hp. apply (@setup_same p _); auto. }
    intros ?; cbv beta. apply triple_exit. intros p Hp.
    split; [reflexivity|]. split; [now apply static_destroy_setup|].
    apply static_destroy_closed.
  - now apply triple_ret.
Qed.

Lemma ready_early {A} (msg : string) (Q : A -> Process E -> Prop) :
  triple (Ready (E := E)) (exit_fail msg) Q (Early (E := E)).
Proof.
  apply triple_pre with (P' := Setup (E := E)); [now intros p [Hp _]|].
  apply exit_fail_early.
Qed.

Lemma open_files_ready (name : string) :
  triple (Ready (E := E)) (open_files env name)
         (fun _ => Ready (E := E)) (Early (E := E)).
Proof.
  unfold open_files.
  destruct (open_in env name) as [data|]; [|apply ready_early].
  eapply triple_bind.
  { apply triple_modify with (Q := fun _ => Ready (E := E)).
    intros p Hp. apply (blind_ready (p := p)); auto. }
  intros ?; cbv beta.
  eapply triple_bind; [apply triple_get with (Q := fun _ => Ready (E := E)); auto|].
  intros p0. destruct (open_out env (out_name p0)) as [room|]; [|apply ready_early].
  apply triple_modify. intros p Hp. apply (blind_ready (p := p)); auto.
Qed.

Lemma run_compress_pumped (fuel : nat) (X : Z -> Process E -> Prop) :
  triple (Ready (E := E)) (run_compress fuel) (Pumped (E := E)) X.
Proof.
  intros p ((Hs & _ & Hd) & Hc & Hd'). unfold run_compress.
  destruct (fcs p) as [|cs|]; try discriminate.
  destruct (compress_file E fuel cs (pio p)) as [[r st]|] eqn:Hf; [|exact I].
  destruct (@compress_file_log E _ _ _ _ _ Hf) as (l & Hl & Hlog).
  split; [|split; [reflexivity | exact Hd']].
  exists (calls (pio p)), l. simpl. auto.
Qed.

Lemma run_decompress_pumped (fuel : nat) (X : Z -> Process E -> Prop) :
  triple (Ready (E := E)) (run_decompress fuel) (Pumped (E := E)) X.
Proof.
  intros p ((Hs & Hc' & _) & Hc & Hd). unfold run_decompress.
  destruct (fds p) as [|ds|]; try discriminate.
  destruct (decompress_file E fuel ds (pio p)) as [[r st]|] eqn:Hf; [|exact I].
  destruct (@decompress_file_log E _ _ _ _ _ Hf) as (l & Hl & Hlog).
  split; [|split; [exact Hc | reflexivity]].
  exists (calls (pio p)), l. simpl. auto.
Qed.

Lemma cleanup_done (r : Z) (X : Z -> Process E -> Prop) :
  triple (Pumped (E := E) r) (@cleanup E) (fun _ => Done (E := E) r) X.
Proof.
  intros p ((pre & l & Hc & Hpre & Hlog) & _). unfold cleanup, bind, modify, logc.
  simpl. split; [|split; reflexivity].
  exists pre, l. simpl. rewrite Hc, <- !app_assoc. auto.
Qed.

Lemma run_done (fuel : nat) (preset : Z) (name : string) :
  triple (Setup (E := E)) (run env fuel preset name)
         (Done (E := E)) (Early (E := E)).
Proof.
  unfold run.
  eapply triple_bind; [apply create_init_ready|]. intros ?; cbv beta.
  eapply triple_bind; [apply open_files_ready|]. intros ?; cbv beta.
  eapply triple_bind; [apply triple_get with (Q := fun _ => Ready (E := E)); auto|].
  intros p0.
  eapply triple_bind with (Q := Pumped (E := E)).
  - destruct (bCompress p0).
    + eapply triple_bind; [apply out_keeps, blind_ready|]. intros ?; cbv beta.
      eapply triple_bind; [apply run_compress_pumped|]. intros r.
      eapply triple_bind with (Q := fun _ => Pumped (E := E) r).
      * destruct (r =? 0)%Z; [apply out_keeps, blind_pumped | now apply triple_ret].
      * intros ?; cbv beta. now apply triple_ret.
    + eapply triple_bind; [apply out_keeps, blind_ready|]. intros ?; cbv beta.
      eapply triple_bind; [apply run_decompress_pumped|]. intros r.
      eapply triple_bind with (Q := fun _ => Pumped (E := E) r).
      * destruct (r =? 0)%Z; [apply out_keeps, blind_pumped | now apply triple_ret].
      * intros ?; cbv beta. now apply triple_ret.
  - intros r. eapply triple_bind; [apply cleanup_done|].
    intros ?; cbv beta. now apply triple_ret.
Qed.

Lemma main_body_done (fuel : nat) (argv : list string) :
  triple (Setup (E := E)) (main_body env fuel argv)
         (Done (E := E)) (Early (E := E)).
Proof.
  unfold main_body.
  eapply triple_bind; [apply out_keeps, blind_setup|]. intros ?; cbv beta.
  destruct (length argv <? 2); [apply exit_fail_early|].
  eapply triple_bind with (Q := fun _ => Setup (E := E)).
  { destruct (prefix "compress" (nth 1 argv EmptyString)).
    - eapply triple_bind; [apply set_mode_keeps, blind_setup|].
      intros ?; cbv beta. now apply triple_ret.
    - destruct (prefix "decompress" (nth 1 argv EmptyString)).
      + eapply triple_bind; [apply set_mode_keeps, blind_setup|].
        intros ?; cbv beta. now apply triple_ret.
      + now apply triple_ret. }
  intros argIndex.
  eapply triple_bind; [apply triple_get with (Q := fun _ => Setup (E := E)); auto|].
  intros p0.
  destruct (fold_left _ _ _) as [threads preset].
  eapply triple_bind; [apply set_threads_keeps, blind_setup|]. intros ?; cbv beta.
  eapply triple_bind; [apply triple_get with (Q := fun _ => Setup (E := E)); auto|].
  intros p1.
  eapply triple_bind; [apply out_keeps, blind_setup|]. intros ?; cbv beta.
  eapply triple_bind; [apply out_keeps, blind_setup|]. intros ?; cbv beta.
  eapply triple_bind; [apply out_keeps, blind_setup|]. intros ?; cbv beta.
  destruct (find_name (skipn argIndex argv)) as [[name next]|];
    [|apply exit_fail_early].
  eapply triple_bind with (Q := fun _ => Setup (E := E)).
  { destruct next as [o|]; [|now apply triple_ret].
    eapply triple_bind; [apply set_out_name_keeps, blind_setup|].
    intros ?; cbv beta. apply out_keeps, blind_setup. }
  intros ?; cbv beta.
  eapply triple_bind; [apply triple_get with (Q := fun _ => Setup (E := E)); auto|].
  intros p2.
  eapply triple_bind with (Q := fun _ => Setup (E := E)).
  { destruct (String.length (out_name p2) =? 0);
      [apply set_out_name_keeps, blind_setup | now apply triple_ret]. }
  intros ?; cbv beta.
  eapply triple_bind; [apply triple_get with (Q := fun _ => Setup (E := E)); auto|].
  intros p3.
  destruct (resolve_out_name _ _ _) as [o|]; [|apply triple_undefined].
  eapply triple_bind; [apply set_out_name_keeps, blind_setup|]. intros ?; cbv beta.
  apply run_done.
Qed.

Lemma setup_start : Setup (process_start E).
Proof. repeat split; try discriminate. constructor. Qed.

(** Every exit of the process is one of two kinds. *)
Lemma main_exits (fuel : nat) (argv : list string) (code : Z) (p : Process E) :
  main E env fuel argv = Exit code p ->
  closed p /\ (Early code p \/ Done code p).
Proof.
  unfold main. intros H.
  pose proof (main_body_done fuel argv setup_start) as Hm.
  destruct (main_body env fuel argv (process_start E)) as [r p'|c p'| |];
    try discriminate; injection H as <- <-.
  - split; [apply static_destroy_closed|]. right.
    destruct Hm as ((pre & l & Hc & Hx) & Hf & Hd).
    split; [|split; assumption]. exists pre, l. simpl. auto.
  - split; [apply Hm | left; exact Hm].
Qed.

End Triples.

(* ================================================================= *)
(** ** Errors, and what an exit leaves behind *)

(** The place of the one element with [P] in a list is determined. *)
Lemma split_unique {A} (P : A -> Prop) (pre post before after : list A) (x c : A) :
  Forall (fun y => ~ P y) pre -> Forall (fun y => ~ P y) post ->
  P c ->
  pre ++ x :: post = before ++ c :: after ->
  before = pre /\ c = x /\ after = post.
Proof.
  revert before; induction pre as [|a pre IH]; intros before Hpre Hpost Hc Heq.
  - destruct before as [|b before]; simpl in Heq.
    + injection Heq as <- <-. auto.
    + injection Heq as <- ->.
      apply Forall_app in Hpost as [_ Hpost]. inversion Hpost; subst. contradiction.
  - inversion Hpre; subst. destruct before as [|b before]; simpl in Heq.
    + injection Heq as -> _. contradiction.
    + injection Heq as <- Heq.
      destruct (IH before) as (-> & -> & ->); auto.
Qed.

Lemma setup_call_quiet (E : Engine) (c : Call) :
  is_setup_call c = true -> is_pump_call c = false /\ pump_error E c = false.
Proof.
  unfold pump_error. destruct c; simpl; intros H; try discriminate; auto.
Qed.

(** C5.  In every run that exits, a feed or finish call that returned an
    error status is followed by no other feed or finish call, the name the
    engine gives to that status is on standard error, and the exit status
    is not 0. *)
Theorem error_short_circuit
        (E : Engine) (env : Env) (fuel : nat) (argv : list string)
        (code : Z) (p : Process E)
        (before after : list Call) (c : Call) :
  main E env fuel argv = Exit code p ->
  calls (pio p) = before ++ c :: after ->
  pump_error E c = true ->
  Forall (fun c' => is_pump_call c' = false) after
  /\ In (error_line (FL2_getErrorName E (call_status c))) (stderr (pio p))
  /\ code <> 0%Z.
Proof.
  intros Hm Hc He.
  assert (Hin : In c (calls (pio p)))
    by (rewrite Hc; apply in_or_app; right; now left).
  destruct (main_exits _ _ _ Hm) as [_ [(_ & (Hs & _) & _) | ((pre & l & Hl & Hpre & Hlog) & _)]].
  - rewrite Forall_forall in Hs.
    destruct (setup_call_quiet E c (Hs c Hin)). congruence.
  - assert (Hq : forall x, In x pre \/ In x [CallFreeC; CallFreeD] ->
                           pump_error E x = false).
    { intros x [Hx | Hx].
      - rewrite Forall_forall in Hpre. now apply setup_call_quiet, Hpre.
      - destruct Hx as [<- | [<- | []]]; reflexivity. }
    destruct Hlog as [(-> & Hclean & _) | (-> & l' & c0 & -> & Hclean & Hp0 & He0 & Hname)].
    + exfalso. rewrite Hl in Hin.
      apply in_app_or in Hin as [Hin | Hin]; [rewrite (Hq c) in He; auto; discriminate|].
      apply in_app_or in Hin as [Hin | Hin]; [|rewrite (Hq c) in He; auto; discriminate].
      rewrite Forall_forall in Hclean. destruct (Hclean c Hin). congruence.
    + replace (pre ++ (l' ++ [c0; CallErrorName (call_status c0)])
                   ++ [CallFreeC; CallFreeD])
        with ((pre ++ l') ++ c0 :: [CallErrorName (call_status c0); CallFreeC; CallFreeD])
        in Hl by (rewrite <- !app_assoc; reflexivity).
      rewrite Hl in Hc.
      assert (Hsplit : before = pre ++ l' /\ c = c0
                       /\ after = [CallErrorName (call_status c0);
                                   CallFreeC; CallFreeD]).
      { eapply (@split_unique Call (fun x => pump_error E x = true));
          [ | | exact He | exact Hc].
        - apply Forall_app. split.
          + rewrite Forall_forall in *. intros x Hx. rewrite (Hq x); auto.
          + rewrite Forall_forall in *. intros x Hx.
            destruct (Hclean x Hx). congruence.
        - repeat constructor; discriminate. }
      destruct Hsplit as (-> & -> & ->).
      split; [repeat constructor|]. split; [exact Hname | discriminate].
Qed.

Lemma error_short_circuit_witness :
  exists p,
    main PairCodec.engine (env_with (Some [Byte.x07]) None) 10
         ["FastLZMA2Tool"; "decompress"; "bad.lzma2"]%string
    = Exit 1%Z p
    /\ Forall (fun c' => is_pump_call c' = false) [CallErrorName ERR_GENERIC; CallFreeC; CallFreeD]
    /\ In (error_line "Error (generic)") (stderr (pio p))
    /\ 1%Z <> 0%Z.
Proof.
  eexists. split; [vm_compute; reflexivity|].
  refine (@error_short_circuit PairCodec.engine
            (env_with (Some [Byte.x07]) None) 10
            ["FastLZMA2Tool"; "decompress"; "bad.lzma2"]%string 1%Z _
            [CallCreateC; CallCreateD; CallInitC 0; CallInitD 0]
            [CallErrorName ERR_GENERIC; CallFreeC; CallFreeD]
            (CallDecompress ERR_GENERIC) _ _ _);
    vm_compute; reflexivity.
Defined.

(** C9 (as amended).  On every exit both file streams are closed.  A run
    that has made a feed or finish call, whether the engine reported an
    error or not, has destroyed both contexts when it exits; any other exit
    is an [exit(1)] before the first such call, and it destroys no
    context. *)
Theorem exit_releases
        (E : Engine) (env : Env) (fuel : nat) (argv : list string)
        (code : Z) (p : Process E) :
  main E env fuel argv = Exit code p ->
  closed p
  /\ ((Exists (fun c => is_pump_call c = true) (calls (pio p))
       /\ fcs p = Freed /\ fds p = Freed
       /\ exists l, calls (pio p) = l ++ [CallFreeC; CallFreeD])
      \/ (Forall (fun c => is_setup_call c = true) (calls (pio p))
          /\ code = 1%Z /\ fcs p <> Freed /\ fds p <> Freed)).
Proof.
  intros Hm.
  destruct (main_exits _ _ _ Hm)
    as [Hcl [(-> & (Hs & Hc & Hd) & _) | ((pre & l & Hl & Hpre & Hlog) & Hc & Hd)]];
    (split; [exact Hcl|]).
  - right. auto.
  - left. split; [|split; [exact Hc | split; [exact Hd|]]].
    + rewrite Hl. apply Exists_app. right. apply Exists_app. left.
      destruct Hlog as [(_ & Hclean & Hne) | (_ & l' & c0 & -> & _ & Hp0 & _)].
      * destruct l as [|x l]; [contradiction|]. inversion Hclean; subst.
        left. apply H1.
      * apply Exists_app. right. left. exact Hp0.
    + exists (pre ++ l). rewrite Hl, <- app_assoc. reflexivity.
Qed.

Lemma exit_releases_witness :
  exists p,
    main PairCodec.engine (env_with (Some hello) None) 100
         ["FastLZMA2Tool"; "compress"; "hello.txt"]%string
    = Exit 0%Z p
    /\ closed p.
Proof.
  eexists. split; [vm_compute; reflexivity|].
  refine (proj1 (@exit_releases PairCodec.engine (env_with (Some hello) None)
                   100 ["FastLZMA2Tool"; "compress"; "hello.txt"]%string
                   0%Z _ _)).
  vm_compute. reflexivity.
Defined.

(** C9, the claim as stated fails: when the input file cannot be opened the
    process exits with both contexts created and neither destroyed. *)
Lemma open_failure_leaves_contexts :
  exists p,
    main PairCodec.engine (env_with None None) 100
         ["FastLZMA2Tool"; "compress"; "missing.txt"]%string
    = Exit 1%Z p
    /\ calls (pio p) = [CallCreateC; CallCreateD; CallInitC 0; CallInitD 0]
    /\ fcs p = Live tt
    /\ fds p = Live PairCodec.Tag
    /\ stderr (pio p) = [("Cannot open input file." ++ nl)%string].
Proof.
  eexists. split; [vm_compute; reflexivity|].
  repeat split.
Qed.

(** C5, the claim as stated fails: after the feed call that returns an error
    the engine is still called three times, for the name of the error and
    to destroy the two contexts. *)
Lemma engine_called_after_error :
  exists p,
    main PairCodec.engine (env_with (Some [Byte.x07]) None) 10
         ["FastLZMA2Tool"; "decompress"; "bad.lzma2"]%string
    = Exit 1%Z p
    /\ FL2_isError PairCodec.engine ERR_GENERIC = true
    /\ calls (pio p)
       = [CallCreateC; CallCreateD; CallInitC 0; CallInitD 0;
          CallDecompress ERR_GENERIC;
          CallErrorName ERR_GENERIC; CallFreeC; CallFreeD].
Proof.
  eexists. split; [vm_compute; reflexivity|]. split; reflexivity.
Qed.

(* ================================================================= *)
(** ** The round trip *)

Lemma firstn_plus {A} (n m : nat) (l : list A) :
  firstn (n + m) l = firstn n l ++ firstn m (skipn n l).
Proof.
  revert l; induction n as [|n IH]; intros l; [reflexivity|].
  destruct l as [|x l]; simpl.
  - now rewrite firstn_nil.
  - now rewrite IH.
Qed.

Lemma slice_split (l : list byte) (a b c : nat) :
  a <= b -> b <= c -> slice l a c = slice l a b ++ slice l b c.
Proof.
  intros Hab Hbc. unfold slice.
  replace (c - a) with ((b - a) + (c - b)) by lia.
  rewrite firstn_plus, skipn_skipn.
  replace (b - a + a) with b by lia. reflexivity.
Qed.

Lemma slice_empty (l : list byte) (a : nat) : slice l a a = [].
Proof. unfold slice. now rewrite Nat.sub_diag. Qed.

Lemma offered_split (i i' : FL2_inBuffer) :
  in_kept i i' -> offered i = consumed i i' ++ offered i'.
Proof.
  intros (Hs & Hz & H1 & H2). unfold offered, consumed.
  rewrite Hs, Hz. now apply slice_split.
Qed.

Lemma offered_length (i : FL2_inBuffer) :
  valid_in i -> length (offered i) = isize i - ipos i.
Proof.
  intros [H1 H2]. unfold offered. rewrite slice_length. lia.
Qed.

Lemma produced_from_empty (o o' : FL2_outBuffer) :
  opos o = 0 -> produced o o' = firstn (opos o') (dst o').
Proof.
  intros H. unfold produced, slice. now rewrite H, Nat.sub_0_r.
Qed.

(** A refill moves bytes from the stream to the buffer. *)
Lemma refill_data {X} (cap oc : nat) (st : Pump X) :
  tidy cap oc st -> readable (fin (io st)) ->
  offered (in_buf (refill cap st)) ++ in_rest (fin (io (refill cap st)))
  = offered (in_buf st) ++ in_rest (fin (io st)).
Proof.
  intros (H1 & H2 & H3 & _) [Ho _]. unfold refill.
  destruct (ipos (in_buf st) =? isize (in_buf st)) eqn:Hq; [|reflexivity].
  apply Nat.eqb_eq in Hq.
  assert (Hoff : offered (in_buf st) = [])
    by (unfold offered; rewrite Hq; apply slice_empty).
  rewrite Hoff. cbn [app].
  unfold ffread. rewrite Ho. destruct (in_eof (fin (io st))); simpl.
  - reflexivity.
  - unfold offered, slice; simpl. rewrite Nat.sub_0_r.
    rewrite firstn_app, firstn_all, Nat.sub_diag. simpl.
    rewrite app_nil_r. apply firstn_skipn.
Qed.

Lemma drain_data {X} (st : Pump X) :
  healthy (fout (io st)) ->
  healthy (fout (io (drain st)))
  /\ out_data (fout (io (drain st)))
     = out_data (fout (io st)) ++ firstn (opos (out_buf st)) (dst (out_buf st)).
Proof.
  intros (Ho & Hb & Hr). unfold drain, ffwrite, ostream_write; simpl.
  rewrite Ho, Hb, Hr. simpl. repeat split.
Qed.

Section RoundTrip.

Variable E : Engine.
Variable C : Codec E.

Let HD : Discipline E := codec_discipline C.

Lemma compressing_feed (S : list byte) (st : Pump (CStream E)) :
  compressing C S st ->
  let st2 := feed_c E (refill IN_CAP_C st) in
  FL2_isError E (res st2) = false /\ compressing C S (drain st2).
Proof.
  intros (Ht & Hr & Hh & inp & Hrel & HS).
  rewrite <- (refill_data Ht Hr) in HS.
  destruct (refill_frame IN_CAP_C st) as (Hctx & Hob & _ & _ & Hfo & _).
  rewrite <- Hctx, <- Hfo in Hrel. rewrite <- Hfo in Hh.
  apply (refill_readable IN_CAP_C) in Hr.
  apply refill_tidy in Ht. clear Hctx Hob Hfo.
  destruct (tidy_valid Ht) as [Hvi Hvo].
  set (st1 := refill IN_CAP_C st) in *.
  unfold feed_c.
  destruct (FL2_compressStream E _ _ _) as [[[c o] i] r] eqn:Hc.
  cbv zeta. cbn [res].
  destruct Ht as (Hi1 & Hi2 & Hi3 & Ho1 & Ho2 & Ho3).
  destruct (@compress_ok E C _ _ _ _ _ _ _ _ _ Hc Hrel Hvi Hvo Ho1 Ho2) as [He Hrel'].
  split; [exact He|].
  destruct (@compress_kept E HD _ _ _ _ _ _ _ Hc He Hvi Hvo) as [Hik Hok].
  set (st2 := mkPump c i o r (in_size st1) (out_size st1)
                     (log_call (CallCompress r) (io st1))).
  destruct (drain_data st2 Hh) as [Hh' Hdata].
  split; [|split; [exact Hr | split; [exact Hh'|]]].
  - destruct Hik as (Hs & Hz & Hp1 & Hp2). destruct Hok as (Hl & Hz' & _).
    unfold tidy, drain; simpl. rewrite Hs, Hz, Hl, Hz'. repeat split; lia.
  - exists (inp ++ consumed (in_buf st1) i). split.
    + rewrite Hdata. cbn [out_buf st2 ctx drain].
      rewrite <- (produced_from_empty (out_buf st1) o Ho1). exact Hrel'.
    + rewrite HS, (offered_split Hik), <- !app_assoc. reflexivity.
Qed.

Lemma compressing_step (S : list byte) (st : Pump (CStream E)) :
  compressing C S st ->
  match compress_body E st with
  | Continue st' | Break st' => compressing C S st'
  | Abort _ => False
  end.
Proof.
  intros H. destruct (compressing_feed H) as [He Hc].
  unfold compress_body. rewrite He. now destruct (_ =? 0).
Qed.

Lemma finishing_feed (S : list byte) (st : Pump (CStream E)) :
  finishing C S st ->
  let st2 := feed_end E st in
  FL2_isError E (res st2) = false
  /\ (res st2 = 0%N -> container C (out_data (fout (io (drain st2)))) S)
  /\ (res st2 <> 0%N ->
      finishing C S (drain st2)
      /\ f_pending C (ctx (drain st2)) < f_pending C (ctx st)).
Proof.
  intros (Ht & Hh & Hrel).
  destruct (tidy_valid Ht) as [Hvi Hvo].
  unfold feed_end.
  destruct (FL2_endStream E _ _) as [[c o] r] eqn:Hc.
  cbv zeta. cbn [res].
  destruct Ht as (Hi1 & Hi2 & Hi3 & Ho1 & Ho2 & Ho3).
  destruct (@end_ok E C _ _ _ _ _ _ _ Hc Hrel Hvo Ho1 Ho2) as (He & Hzero & Hmore).
  split; [exact He|].
  destruct (@end_kept E HD _ _ _ _ _ Hc He Hvo) as (Hl & Hz' & _).
  set (st2 := mkPump c (in_buf st) o r (in_size st) (out_size st)
                     (log_call (CallEnd r) (io st))).
  destruct (drain_data st2 Hh) as [Hh' Hdata].
  rewrite Hdata. cbn [out_buf st2].
  rewrite <- (produced_from_empty (out_buf st) o Ho1).
  split; [exact Hzero|].
  intros Hr. destruct (Hmore Hr) as [Hrel' Hlt].
  split; [|exact Hlt].
  split; [|split; [exact Hh'|]].
  - unfold tidy, drain; simpl. rewrite Hl, Hz'. repeat split; lia.
  - rewrite Hdata. cbn [out_buf st2 ctx drain].
    rewrite <- (produced_from_empty (out_buf st) o Ho1). exact Hrel'.
Qed.


Lemma decompressing_feed (K S : list byte) (st : Pump (DStream E)) :
  container C K S ->
  decompressing C K S st ->
  let st2 := feed_d E (refill IN_CAP_D st) in
  FL2_isError E (res st2) = false
  /\ decompressing C K S (drain st2)
  /\ (res st2 = 0%N -> out_data (fout (io (drain st2))) = S)
  /\ (isize (in_buf (drain st2)) = 0 -> res st2 = 0%N)
  /\ (res st2 <> 0%N -> isize (in_buf (drain st2)) <> 0 ->
      left_over E S (drain st2) < left_over E S st).
Proof.
  intros HK (Ht & Hr & Hh & inp & Hrel & HS).
  pose proof (refill_empty Ht) as Hempty.
  pose proof (refill_offers Ht) as Hoffers.
  assert (Hnothing : refill_count IN_CAP_D st = 0 ->
                     in_rest (fin (io (refill IN_CAP_D st))) = []).
  { intros Hc. rewrite refill_fin.
    destruct (ipos (in_buf st) =? isize (in_buf st)).
    - refine (proj2 (@ffread_nothing (fin (io st)) (src (in_buf st)) IN_CAP_D
                                     Hr _ Hc)).
      unfold IN_CAP_D; lia.
    - refine (proj1 (@ffread_nothing (fin (io st)) (src (in_buf st)) IN_CAP_D
                                     Hr _ Hc)).
      unfold IN_CAP_D; lia. }
  unfold left_over. rewrite <- (refill_unread Ht Hr).
  rewrite <- (refill_data Ht Hr) in HS.
  destruct (refill_frame IN_CAP_D st) as (Hctx & Hob & _ & _ & Hfo & _).
  rewrite <- Hctx, <- Hfo in Hrel. rewrite <- Hfo in Hh. rewrite <- Hfo.
  apply (refill_readable IN_CAP_D) in Hr.
  apply refill_tidy in Ht. clear Hctx Hob Hfo.
  destruct (tidy_valid Ht) as [Hvi Hvo].
  set (st1 := refill IN_CAP_D st) in *.
  unfold feed_d.
  destruct (FL2_decompressStream E _ _ _) as [[[d o] i] r] eqn:Hc.
  cbv zeta. cbn [res].
  destruct Ht as (Hi1 & Hi2 & Hi3 & Ho1 & Ho2 & Ho3).
  assert (Hpre : exists rest, K = inp ++ offered (in_buf st1) ++ rest)
    by (eexists; exact HS).
  destruct (@decompress_ok E C _ _ _ _ _ _ _ _ _ _ _ HK Hc Hrel Hvi Hvo Ho1 Ho2 Hpre)
    as (He & Hrel' & Hzero & Hprog & Hflush).
  split; [exact He|].
  destruct (@decompress_kept E HD _ _ _ _ _ _ _ Hc He Hvi Hvo) as [Hik Hok].
  set (st2 := mkPump d i o r (in_size st1) (out_size st1)
                     (log_call (CallDecompress r) (io st1))).
  destruct (drain_data st2 Hh) as [Hh' Hdata].
  rewrite Hdata. cbn [out_buf st2].
  rewrite <- (produced_from_empty (out_buf st1) o Ho1).
  destruct Hik as (Hs & Hz & Hp1 & Hp2). destruct Hok as (Hl & Hz' & Hq1 & Hq2).
  split; [|split; [exact Hzero | split]].
  - split; [|split; [exact Hr | split; [exact Hh'|]]].
    + unfold tidy, drain; simpl. rewrite Hs, Hz, Hl, Hz'. repeat split; lia.
    + exists (inp ++ consumed (in_buf st1) i). split.
      * rewrite Hdata. cbn [out_buf st2 ctx drain].
        rewrite <- (produced_from_empty (out_buf st1) o Ho1). exact Hrel'.
      * rewrite HS, (@offered_split (in_buf st1) i), <- !app_assoc;
          [reflexivity | repeat split; assumption].
  - intros Hsz. change (isize (in_buf (drain st2))) with (isize i) in Hsz.
    rewrite Hz in Hsz. apply Hempty in Hsz as [Hu Hcnt].
    assert (Hsz0 : isize (in_buf st1) = 0) by (apply Hempty; auto).
    assert (Hp0 : ipos (in_buf st1) = isize (in_buf st1)) by lia.
    apply Hflush; [exact Hp0|].
    rewrite HS, (Hnothing Hcnt). unfold offered. rewrite Hp0, slice_empty.
    now rewrite !app_nil_r.
  - intros Hr0 Hsz. change (isize (in_buf (drain st2))) with (isize i) in Hsz.
    rewrite Hz in Hsz.
    specialize (Hprog Hr0 (Hoffers Hsz)).
    destruct (@d_prefix E C _ _ _ _ _ Hrel') as [tail Htail].
    apply (f_equal (@length byte)) in Htail. rewrite !length_app in Htail.
    assert (Hlen : length (produced (out_buf st1) o) = opos o).
    { rewrite (produced_from_empty (out_buf st1) o Ho1), length_firstn. lia. }
    change (unread (drain st2))
      with ((isize i - ipos i) + length (in_rest (fin (io st1)))).
    change (out_data (fout (io st2))) with (out_data (fout (io st1))) in *.
    unfold unread. rewrite length_app, Hlen, Hz. lia.
Qed.

Lemma compressing_start (cs : CStream E) (S : list byte) :
  c_rel C cs [] [] ->
  compressing C S (compress_start E cs (io_on S None)).
Proof.
  intros Hrel. split; [apply compress_start_tidy|].
  split; [apply readable_io_on|]. split; [apply healthy_io_on|].
  exists []. split; [exact Hrel|].
  unfold offered. cbn [compress_start in_buf isize ipos].
  now rewrite slice_empty.
Qed.

Lemma decompressing_start (ds : DStream E) (K S : list byte) :
  d_rel C K S ds [] [] ->
  decompressing C K S (decompress_start E ds (io_on K None)).
Proof.
  intros Hrel. split; [apply decompress_start_tidy|].
  split; [apply readable_io_on|]. split; [apply healthy_io_on|].
  exists []. split; [exact Hrel|].
  unfold offered. cbn [decompress_start in_buf isize ipos].
  now rewrite slice_empty.
Qed.

(** The first loop of [compress_file] ends, and the compressor has then
    taken all of [S]. *)
Lemma compress_loop_total (cs : CStream E) (S : list byte) :
  c_rel C cs [] [] ->
  exists fuel st1,
    do_while (compress_body E) fuel (compress_start E cs (io_on S None))
    = Finished st1
    /\ finishing C S st1.
Proof.
  intros Hrel. pose proof (compressing_start cs S Hrel) as H0.
  destruct (@compress_loop_ends_from E HD (c_backlog C) (codec_progress C)
              _ _ (compress_start E cs (io_on S None))
              (compress_start_tidy E cs _) (readable_io_on _ _)
              eq_refl eq_refl) as [fuel Hf].
  destruct (do_while_safe (compress_body E) (compressing C S))
    with (fuel := fuel) (a := compress_start E cs (io_on S None))
    as (b & st1 & Hd & Hb & Hbr); [|exact H0|exact Hf|].
  { intros a Ha. pose proof (compressing_step Ha) as Hs.
    destruct (compress_body E a); tauto. }
  exists fuel, st1. split; [exact Hd|].
  pose proof (compressing_step Hb) as Hst1. rewrite Hbr in Hst1.
  destruct Hb as (Htb & Hrb & _).
  pose proof (compress_break_exhausts HD Htb Hrb Hbr) as Hrest.
  destruct Hst1 as (Ht1 & _ & Hh1 & inp & Hrel1 & HS).
  assert (Hsz : isize (in_buf st1) = 0).
  { unfold compress_body in Hbr.
    destruct (FL2_isError E _); [discriminate|].
    destruct (isize _ =? 0) eqn:Hz; [|discriminate].
    injection Hbr as <-. now apply Nat.eqb_eq in Hz. }
  assert (Hoff : offered (in_buf st1) = []).
  { destruct Ht1 as (Hp & _). unfold offered.
    replace (ipos (in_buf st1)) with 0 by lia. rewrite Hsz. apply slice_empty. }
  rewrite Hoff, Hrest, !app_nil_r in HS. subst inp.
  split; [exact Ht1 | split; [exact Hh1 | now apply finish_begins]].
Qed.

(** The second loop ends with a complete stream in the sink. *)
Lemma finish_loop_total (S : list byte) (st1 : Pump (CStream E)) :
  finishing C S st1 ->
  exists fuel st2,
    do_while (finish_body E) fuel st1 = Finished st2
    /\ container C (out_data (fout (io st2))) S.
Proof.
  intros H1.
  assert (Hstep : forall a, finishing C S a ->
                            match finish_body E a with
                            | Continue a' =>
                                finishing C S a'
                                /\ f_pending C (ctx a') < f_pending C (ctx a)
                            | Break a' => container C (out_data (fout (io a'))) S
                            | Abort _ => False
                            end).
  { intros a Ha. destruct (finishing_feed Ha) as (He & Hz & Hm).
    unfold finish_body. rewrite He.
    change (res (drain (feed_end E a))) with (res (feed_end E a)).
    destruct (res (feed_end E a) =? 0)%N eqn:Hq;
      [apply N.eqb_eq in Hq | apply N.eqb_neq in Hq]; auto. }
  destruct (do_while_ends (finish_body E) (finishing C S)
              (fun a => f_pending C (ctx a))) with (a := st1) as [fuel Hf];
    [|exact H1|].
  { intros a a' Ha Hb. specialize (Hstep a Ha). now rewrite Hb in Hstep. }
  destruct (do_while_safe (finish_body E) (finishing C S)) with (fuel := fuel) (a := st1)
    as (b & st2 & Hd & Hb & Hbr); [|exact H1|exact Hf|].
  { intros a Ha. specialize (Hstep a Ha).
    destruct (finish_body E a); tauto. }
  exists fuel, st2. split; [exact Hd|].
  specialize (Hstep b Hb). now rewrite Hbr in Hstep.
Qed.

(** The loop of [decompress_file] ends with the data in the sink. *)
Lemma decompress_loop_total (ds : DStream E) (K S : list byte) :
  container C K S -> d_rel C K S ds [] [] ->
  exists fuel st3,
    do_while (decompress_body E) fuel (decompress_start E ds (io_on K None))
    = Finished st3
    /\ out_data (fout (io st3)) = S.
Proof.
  intros HK Hrel. pose proof (decompressing_start ds K S Hrel) as H0.
  assert (Hstep : forall a, decompressing C K S a ->
                            match decompress_body E a with
                            | Continue a' =>
                                decompressing C K S a'
                                /\ left_over E S a' < left_over E S a
                            | Break a' => out_data (fout (io a')) = S
                            | Abort _ => False
                            end).
  { intros a Ha. destruct (decompressing_feed HK Ha) as (He & Hd & Hz & Hfl & Hm).
    unfold decompress_body. rewrite He.
    change (res (drain (feed_d E (refill IN_CAP_D a))))
      with (res (feed_d E (refill IN_CAP_D a))).
    destruct (res (feed_d E (refill IN_CAP_D a)) =? 0)%N eqn:Hq;
      [apply N.eqb_eq in Hq | apply N.eqb_neq in Hq]; cbn [negb andb]; [auto|].
    destruct (isize (in_buf (drain (feed_d E (refill IN_CAP_D a)))) =? 0) eqn:Hs;
      [apply Nat.eqb_eq in Hs; exfalso; exact (Hq (Hfl Hs))
      | apply Nat.eqb_neq in Hs; cbn [negb]; auto]. }
  destruct (do_while_ends (decompress_body E) (decompressing C K S) (left_over E S))
    with (a := decompress_start E ds (io_on K None)) as [fuel Hf];
    [|exact H0|].
  { intros a a' Ha Hb. specialize (Hstep a Ha). now rewrite Hb in Hstep. }
  destruct (do_while_safe (decompress_body E) (decompressing C K S))
    with (fuel := fuel) (a := decompress_start E ds (io_on K None))
    as (b & st3 & Hd & Hb & Hbr); [|exact H0|exact Hf|].
  { intros a Ha. specialize (Hstep a Ha).
    destruct (decompress_body E a); tauto. }
  exists fuel, st3. split; [exact Hd|].
  specialize (Hstep b Hb). now rewrite Hbr in Hstep.
Qed.

End RoundTrip.

(** C1.  With an engine that meets the contract of a codec, for every byte
    sequence [S], the empty one included: [compress_file] on a source that
    holds exactly [S] returns 0 with a stream [K] in its sink, and
    [decompress_file] on a source that holds exactly [K] returns 0 with
    exactly [S] in its sink. *)
Theorem round_trip
        (E : Engine) (C : Codec E) (cs : CStream E) (ds : DStream E)
        (S : list byte) :
  c_rel C cs [] [] ->
  (forall K, container C K S -> d_rel C K S ds [] []) ->
  exists fuel K st st',
    compress_file E fuel cs (io_on S None) = Some (0%Z, st)
    /\ out_data (fout (io st)) = K
    /\ decompress_file E fuel ds (io_on K None) = Some (0%Z, st')
    /\ out_data (fout (io st')) = S.
Proof.
  intros Hc Hd.
  destruct (@compress_loop_total E C cs S Hc) as (f1 & st1 & H1 & Hfin).
  destruct (@finish_loop_total E C _ _ Hfin) as (f2 & st2 & H2 & HK).
  destruct (@decompress_loop_total E C ds _ _ HK (Hd _ HK)) as (f3 & st3 & H3 & HS).
  exists (f1 + f2 + f3), (out_data (fout (io st2))).
  assert (H1' : do_while (compress_body E) (f1 + f2 + f3)
                         (compress_start E cs (io_on S None)) = Finished st1).
  { rewrite <- Nat.add_assoc, do_while_more; [exact H1 | congruence]. }
  assert (H2' : do_while (finish_body E) (f1 + f2 + f3) st1 = Finished st2).
  { replace (f1 + f2 + f3) with (f2 + (f1 + f3)) by lia.
    rewrite do_while_more; [exact H2 | congruence]. }
  assert (H3' : do_while (decompress_body E) (f1 + f2 + f3)
                         (decompress_start E ds (io_on (out_data (fout (io st2))) None))
                = Finished st3).
  { replace (f1 + f2 + f3) with (f3 + (f1 + f2)) by lia.
    rewrite do_while_more; [exact H3 | congruence]. }
  unfold compress_file, decompress_file. rewrite H1', H2', H3'.
  do 2 eexists. split; [reflexivity|]. split; [reflexivity|].
  split; [reflexivity | exact HS].
Qed.

(* ================================================================= *)
(** ** The pair codec meets the contract *)

Lemma enc_app (a b : list byte) :
  PairCodec.enc (a ++ b) = PairCodec.enc a ++ PairCodec.enc b.
Proof. apply flat_map_app. Qed.

Lemma skipn_head (l : list byte) (a : nat) (d : byte) :
  a < length l -> skipn a l = nth a l d :: skipn (S a) l.
Proof.
  revert a; induction l as [|x l IH]; intros a H; simpl in H; [lia|].
  destruct a as [|a]; [reflexivity|].
  simpl. apply IH. lia.
Qed.

Lemma slice_head (l : list byte) (a b : nat) (d : byte) :
  a < b -> a < length l -> slice l a b = nth a l d :: slice l (S a) b.
Proof.
  intros Hab Hl. unfold slice. rewrite (skipn_head l d Hl).
  replace (b - a) with (S (b - S a)) by lia. reflexivity.
Qed.

Lemma slice_one (l : list byte) (a : nat) (d : byte) :
  a < length l -> slice l a (a + 1) = [nth a l d].
Proof.
  intros Hl. rewrite (slice_head l d); [|lia|exact Hl].
  unfold slice. replace (a + 1 - S a) with 0 by lia. reflexivity.
Qed.

Lemma slice_write_at (d : list byte) (pos : nat) (bs : list byte) :
  pos <= length d -> slice (write_at d pos bs) pos (pos + length bs) = bs.
Proof.
  intros H. unfold slice, write_at.
  rewrite skipn_app, length_firstn, Nat.min_l by exact H.
  rewrite skipn_firstn_comm, Nat.sub_diag. simpl.
  replace (pos + length bs - pos) with (length bs) by lia.
  rewrite firstn_app, firstn_all, Nat.sub_diag. simpl. apply app_nil_r.
Qed.


Lemma pair_compress_ok
      (c : unit) (o : FL2_outBuffer) (i : FL2_inBuffer)
      (c' : unit) (o' : FL2_outBuffer) (i' : FL2_inBuffer) (r : N)
      (inp out : list byte) :
  PairCodec.compressStream c o i = (c', o', i', r) ->
  out = PairCodec.enc inp -> valid_in i -> valid_out o ->
  code_is_error r = false
  /\ out ++ produced o o' = PairCodec.enc (inp ++ consumed i i').
Proof.
  intros H -> [Hi1 Hi2] [Ho1 Ho2]. unfold PairCodec.compressStream in H.
  set (k := Nat.min _ _) in H.
  assert (Hk : k <= isize i - ipos i) by apply Nat.le_min_l.
  injection H as _ <- <- <-. split; [reflexivity|].
  unfold produced, consumed. cbn [dst opos src ipos].
  set (chunk := slice (src i) (ipos i) (ipos i + k)).
  assert (Hlen : length (PairCodec.enc chunk) = 2 * k).
  { rewrite enc_length. unfold chunk. rewrite slice_length. lia. }
  replace (opos o + (k + (k + 0)))
    with (opos o + length (PairCodec.enc chunk)) by lia.
  rewrite slice_write_at by lia.
  now rewrite enc_app.
Qed.

Lemma pair_end_ok
      (c : unit) (o : FL2_outBuffer) (c' : unit) (o' : FL2_outBuffer) (r : N)
      (inp out : list byte) :
  PairCodec.endStream c o = (c', o', r) ->
  out = PairCodec.enc inp -> valid_out o ->
  opos o = 0 -> osize o = OUT_CAP_C ->
  code_is_error r = false
  /\ (r = 0%N -> out ++ produced o o' = PairCodec.container inp)
  /\ (r <> 0%N -> out ++ produced o o' = PairCodec.enc inp /\ 0 < 0).
Proof.
  intros H -> [Ho1 Ho2] Hp Hs. unfold PairCodec.endStream in H.
  rewrite Hp, Hs in H. change (0 <? OUT_CAP_C) with true in H.
  injection H as _ <- <-. split; [reflexivity|].
  split; [|intros Hr; now contradiction Hr].
  intros _. unfold produced, PairCodec.container. cbn [dst opos].
  rewrite Hp. change 1 with (0 + length [x00]).
  rewrite slice_write_at by lia. reflexivity.
Qed.

Lemma enc_longer (a b : list byte) (x : byte) :
  PairCodec.enc a <> PairCodec.enc a ++ PairCodec.enc b ++ [x].
Proof.
  intros H. apply (f_equal (@length byte)) in H.
  rewrite !length_app in H. simpl in H. lia.
Qed.

Ltac pair_rel :=
  unfold pair_d_rel, PairCodec.container;
  rewrite ?enc_app, ?app_nil_r, <- ?app_assoc;
  cbn [PairCodec.enc flat_map app];
  repeat (first [reflexivity
                | rewrite <- app_assoc; reflexivity
                | split
                | eexists]).

Lemma pair_decompress_ok
      (K S : list byte) (d : PairCodec.Phase) (o : FL2_outBuffer)
      (i : FL2_inBuffer) (d' : PairCodec.Phase) (o' : FL2_outBuffer)
      (i' : FL2_inBuffer) (r : N) (inp out : list byte) :
  PairCodec.decompressStream d o i = (d', o', i', r) ->
  pair_d_rel K S d inp out -> valid_in i -> valid_out o ->
  opos o = 0 -> osize o = OUT_CAP_D ->
  (exists rest, K = inp ++ offered i ++ rest) ->
  code_is_error r = false
  /\ pair_d_rel K S d' (inp ++ consumed i i') (out ++ produced o o')
  /\ (r = 0%N -> out ++ produced o o' = S)
  /\ (r <> 0%N -> ipos i < isize i -> ipos i < ipos i' \/ opos o < opos o')
  /\ (ipos i = isize i -> inp = K -> r = 0%N).
Proof.
  intros H [HK Hd] [Hi1 Hi2] [Ho1 Ho2] Hp Hs [rest Hrest].
  assert (Hstay : consumed i i = [] /\ produced o o = [])
    by (unfold consumed, produced; now rewrite !slice_empty).
  destruct Hstay as [Hci Hpo].
  unfold PairCodec.decompressStream in H. destruct d.
  - (* Tag *)
    destruct Hd as (-> & S2 & ->).
    unfold PairCodec.container in HK. rewrite enc_app in HK. subst K.
    rewrite <- app_assoc in Hrest. apply app_inv_head in Hrest.
    destruct (ipos i <? isize i) eqn:Hq;
      [apply Nat.ltb_lt in Hq | apply Nat.ltb_ge in Hq].
    + unfold offered in Hrest.
      rewrite (slice_head (src i) x00 Hq) in Hrest by lia.
      assert (Hone : consumed i (mkIn (src i) (isize i) (ipos i + 1))
                     = [nth (ipos i) (src i) x00])
        by (unfold consumed; cbn [ipos]; apply slice_one; lia).
      destruct S2 as [|b S3]; simpl in Hrest; injection Hrest as Ht _;
        rewrite <- Ht in H, Hone.
      * change (Byte.eqb x00 x00) with true in H. injection H as <- <- <- <-.
        rewrite Hone, Hpo. split; [reflexivity|].
        split; [pair_rel|]. split; [now rewrite !app_nil_r|].
        split; [congruence | lia].
      * change (Byte.eqb x01 x00) with false in H.
        change (Byte.eqb x01 x01) with true in H. injection H as <- <- <- <-.
        rewrite Hone, Hpo. split; [reflexivity|].
        split; [pair_rel|]. split; [discriminate|].
        split; [cbn [ipos]; lia | lia].
    + injection H as <- <- <- <-. rewrite Hci, Hpo.
      split; [reflexivity|].
      split; [pair_rel|]. split; [discriminate|]. split; [lia|].
      intros _ Hall. exfalso. rewrite <- app_assoc in Hall.
      exact (enc_longer _ _ _ Hall).
  - (* Data *)
    destruct Hd as (b & S2 & -> & ->).
    unfold PairCodec.container in HK. rewrite enc_app in HK. subst K.
    rewrite <- !app_assoc in Hrest. apply app_inv_head in Hrest.
    simpl in Hrest. injection Hrest as Hrest.
    rewrite Hp, Hs in H. change (0 <? OUT_CAP_D) with true in H.
    rewrite andb_true_r in H.
    destruct (ipos i <? isize i) eqn:Hq;
      [apply Nat.ltb_lt in Hq | apply Nat.ltb_ge in Hq].
    + unfold offered in Hrest.
      rewrite (slice_head (src i) x00 Hq) in Hrest by lia.
      simpl in Hrest. injection Hrest as Ht _.
      assert (Hone : consumed i (mkIn (src i) (isize i) (ipos i + 1))
                     = [nth (ipos i) (src i) x00])
        by (unfold consumed; cbn [ipos]; apply slice_one; lia).
      injection H as <- <- <- <-. rewrite Hone, <- Ht.
      assert (Hput : forall sz,
                 produced o (mkOut (write_at (dst o) 0 [b]) sz 1) = [b]).
      { intros sz. unfold produced. cbn [dst opos]. rewrite Hp.
        change 1 with (0 + length [b]). apply slice_write_at. lia. }
      rewrite Hput. split; [reflexivity|].
      split; [pair_rel|]. split; [discriminate|].
      split; [cbn [ipos]; lia | lia].
    + injection H as <- <- <- <-. rewrite Hci, Hpo.
      split; [reflexivity|].
      split; [pair_rel|]. split; [discriminate|]. split; [lia|].
      intros _ Hall. exfalso. rewrite <- !app_assoc in Hall.
      apply app_inv_head in Hall. discriminate.
  - (* Done *)
    destruct Hd as (-> & ->). injection H as <- <- <- <-.
    rewrite Hci, Hpo. split; [reflexivity|].
    split; [subst K; pair_rel|]. split; [now rewrite app_nil_r|].
    split; [congruence | reflexivity].
Qed.

Lemma pair_d_prefix (K S : list byte) (d : PairCodec.Phase) (inp out : list byte) :
  pair_d_rel K S d inp out -> exists tail, S = out ++ tail.
Proof.
  intros [_ Hd]. destruct d.
  - destruct Hd as (_ & S2 & ->). now exists S2.
  - destruct Hd as (b & S2 & -> & _). now exists (b :: S2).
  - destruct Hd as (-> & _). exists []. now rewrite app_nil_r.
Qed.

(** The pair codec as an instance of the contract. *)
Definition pair_codec : Codec PairCodec.engine.
Proof.
  refine (@mkCodec PairCodec.engine
            (fun K S => K = PairCodec.container S)
            (fun _ inp out => out = PairCodec.enc inp)
            (fun _ inp out => out = PairCodec.enc inp)
            pair_d_rel
            (fun _ => 0) (fun _ => 0)
            pair_discipline pair_feed_progresses _ _ _ pair_d_prefix _).
  - intros c o i c' o' i' r inp out H Hrel Hi Ho _ _.
    exact (@pair_compress_ok c o i c' o' i' r inp out H Hrel Hi Ho).
  - auto.
  - intros c o c' o' r inp out H Hrel Ho Hp Hs.
    exact (@pair_end_ok c o c' o' r inp out H Hrel Ho Hp Hs).
  - intros K S d o i d' o' i' r inp out HK H Hrel Hi Ho Hp Hs Hrest.
    exact (@pair_decompress_ok K S d o i d' o' i' r inp out H Hrel Hi Ho Hp Hs Hrest).
Defined.

Lemma round_trip_witness :
  exists fuel K st st',
    compress_file PairCodec.engine fuel tt (io_on hello None) = Some (0%Z, st)
    /\ out_data (fout (io st)) = K
    /\ decompress_file PairCodec.engine fuel PairCodec.Tag (io_on K None)
       = Some (0%Z, st')
    /\ out_data (fout (io st')) = hello.
Proof.
  apply (@round_trip PairCodec.engine pair_codec tt PairCodec.Tag hello).
  - reflexivity.
  - intros K HK. split; [exact HK|]. split; [reflexivity|]. now exists hello.
Defined.

(** The round trip, run: ["hello world"], and the empty sequence. *)
Example round_trip_hello :
  exists st st',
    compress_file PairCodec.engine 100 tt (io_on hello None) = Some (0%Z, st)
    /\ out_data (fout (io st)) = PairCodec.container hello
    /\ decompress_file PairCodec.engine 100 PairCodec.Tag
                       (io_on (PairCodec.container hello) None)
       = Some (0%Z, st')
    /\ out_data (fout (io st')) = hello.
Proof.
  do 2 eexists. split; [vm_compute; reflexivity|]. split; [reflexivity|].
  split; [vm_compute; reflexivity | reflexivity].
Qed.

Example round_trip_empty :
  exists st st',
    compress_file PairCodec.engine 100 tt (io_on [] None) = Some (0%Z, st)
    /\ out_data (fout (io st)) = [x00]
    /\ decompress_file PairCodec.engine 100 PairCodec.Tag (io_on [x00] None)
       = Some (0%Z, st')
    /\ out_data (fout (io st')) = [].
Proof.
  do 2 eexists. split; [vm_compute; reflexivity|]. split; [reflexivity|].
  split; [vm_compute; reflexivity | reflexivity].
Qed.

(* ================================================================= *)
(** * Further properties of the code *)

(** ** The file name among the arguments *)

Lemma not_dash_false (arg : string) : not_dash arg = false <-> dashed arg.
Proof.
  unfold dashed. destruct arg as [|c rest]; simpl.
  - split; [discriminate | intros [r H]; discriminate].
  - rewrite negb_false_iff, Ascii.eqb_eq. split.
    + intros ->. now exists rest.
    + intros [r H]. now injection H.
Qed.

(** X1.  [main] takes as the input file the first argument after the mode
    word that does not begin with ['-'], and as the output name the argument
    right after it, whatever that argument is; it finds no file exactly when
    every argument begins with ['-']. *)
Theorem find_name_first (args : list string) :
  match find_name args with
  | Some (name, next) =>
      exists before after,
        args = before ++ name :: after
        /\ Forall dashed before
        /\ ~ dashed name
        /\ next = hd_error after
  | None => Forall dashed args
  end.
Proof.
  induction args as [|a rest IH]; simpl; [constructor|].
  destruct (not_dash a) eqn:Ha.
  - exists [], rest. repeat split; auto.
    intros Hd. apply not_dash_false in Hd. congruence.
  - apply not_dash_false in Ha.
    destruct (find_name rest) as [[name next]|].
    + destruct IH as (before & after & -> & Hb & Hn & Hx).
      exists (a :: before), after. repeat split; auto.
    + constructor; assumption.
Qed.

(** ** Resolving a name twice *)

(** X2.  The name a compression run writes to is the name given, with the
    working directory and a backslash put before it unless [":\"] or [":/"]
    stands at index 1, and with [".lzma2"] put after it unless it ends with
    it already; and the name a decompression run derives from that name is
    defined and is that name without its last [".lzma2"]. *)
Theorem resolve_there_and_back (cwd name out : string) :
  resolve_out_name true cwd name = Some out ->
  let base :=
    if find_is_not_1 name (":" ++ backslash)%string && find_is_not_1 name ":/"
    then (cwd ++ backslash ++ name)%string else name in
  ((ends_with_postfix base /\ out = base)
   \/ (~ ends_with_postfix base /\ out = (base ++ postfix)%string))
  /\ exists stem,
       resolve_out_name false cwd out = Some stem
       /\ out = (stem ++ postfix)%string.
Proof.
  intros H base. unfold resolve_out_name in H. fold base in H.
  assert (Hout : ends_with_postfix out).
  { destruct (has_postfix base) as [[|]|] eqn:Hp; try discriminate;
      injection H as <-; [now apply has_postfix_true | now exists base]. }
  split.
  - destruct (has_postfix base) as [[|]|] eqn:Hp; try discriminate;
      injection H as <-.
    + left. split; [now apply has_postfix_true | reflexivity].
    + right. split; [|reflexivity].
      intros Hb. apply has_postfix_true in Hb. congruence.
  - destruct Hout as [stem ->]. exists stem. split; [|reflexivity].
    unfold resolve_out_name.
    assert (Hp : has_postfix (stem ++ postfix) = Some true)
      by (apply has_postfix_true; now exists stem).
    rewrite Hp, string_length_append, Nat.add_sub.
    now rewrite substring_stem.
Qed.

Lemma resolve_there_and_back_witness :
  resolve_out_name true "/tmp" "data.bin" = Some ("/tmp" ++ backslash ++ "data.bin.lzma2")%string
  /\ exists stem,
       resolve_out_name false "/tmp" ("/tmp" ++ backslash ++ "data.bin.lzma2")%string
       = Some stem
       /\ ("/tmp" ++ backslash ++ "data.bin.lzma2")%string = (stem ++ postfix)%string.
Proof.
  assert (H : resolve_out_name true "/tmp" "data.bin"
              = Some ("/tmp" ++ backslash ++ "data.bin.lzma2")%string)
    by reflexivity.
  split; [exact H|].
  exact (proj2 (resolve_there_and_back "/tmp" "data.bin" H)).
Defined.

(* ================================================================= *)
(** ** [main], from the arguments to [run] *)

(** What [main] does up to line 260: it fails with the usage line, or the
    name resolution is undefined, or it goes on with [run] from a process in
    which nothing is open yet. *)
Lemma main_body_parsed (E : Engine) (env : Env) (fuel : nat) (argv : list string) :
  main_body env fuel argv (process_start E)
  = if length argv <? 2 then
      Exit 1 (static_destroy
                (with_io (eprint usage)
                         (with_io (print MsgVersion) (process_start E))))
    else
      match find_name (skipn (arg_index argv) argv) with
      | None =>
          Exit 1 (static_destroy
                    (with_io (eprint usage) (parsed E env argv None EmptyString)))
      | Some (name, next) =>
          match resolve_out_name (mode_of argv) (cwd env) (chosen_out name next) with
          | None => Undefined
          | Some out =>
              run env fuel (snd (options_of env argv)) name
                  (parsed E env argv next out)
          end
      end.
Proof.
  unfold parsed, parsed_messages, options_of, arg_index, mode_of.
  cbv beta iota zeta delta
      [main_body bind out modify get exit_fail err exit_ set_mode set_threads
       set_out_name ret undefined process_start with_io
       pio fcs fds out_name thread_count bCompress].
  destruct (length argv <? 2); [reflexivity|].
  destruct (prefix "compress" (nth 1 argv EmptyString));
    [|destruct (prefix "decompress" (nth 1 argv EmptyString))];
    cbv beta iota zeta;
    (destruct (fold_left _ _ _) as [threads preset];
     cbv beta iota zeta delta [fst snd];
     destruct (find_name _) as [[name [o|]]|];
     cbv beta iota zeta delta [chosen_out];
     [ destruct (String.length o =? 0);
       cbv beta iota zeta;
       destruct (resolve_out_name _ _ _); reflexivity
     | change (String.length EmptyString =? 0) with true;
       cbv beta iota zeta;
       destruct (resolve_out_name _ _ _); reflexivity
     | reflexivity ]).
Qed.

(* ================================================================= *)
(** ** [run], case by case *)

Lemma calls_log_calls (l : list Call) (w : IO) :
  calls (log_calls l w) = calls w ++ l
  /\ fin (log_calls l w) = fin w
  /\ fout (log_calls l w) = fout w
  /\ stdout (log_calls l w) = stdout w
  /\ stderr (log_calls l w) = stderr w.
Proof.
  unfold log_calls. revert w; induction l as [|c l IH]; intros w; simpl.
  - rewrite app_nil_r. repeat split.
  - destruct (IH (log_call c w)) as (H1 & H2 & H3 & H4 & H5).
    rewrite H1, H2, H3, H4, H5. simpl. rewrite <- app_assoc. repeat split.
Qed.

(** Lines 262-288, written out: where [run] leaves through [exit(1)], and
    what it returns otherwise. *)
Lemma run_unfolded (E : Engine) (env : Env) (fuel : nat) (preset : Z)
      (name : string) (p : Process E) :
  run env fuel preset name p
  = match FL2_createCStreamMt E (thread_count p) 0 with
    | None =>
        Exit 1 (gave_up p
                  (eprint ("Cannot allocate compression context." ++ nl)
                          (log_calls [CallCreateC] (pio p)))
                  (fcs p) (fds p))
    | Some cs =>
        match FL2_createDStreamMt E (thread_count p) with
        | None =>
            Exit 1 (gave_up p
                      (eprint ("Cannot allocate decompression context." ++ nl)
                              (log_calls [CallCreateC; CallCreateD] (pio p)))
                      (Live cs) (fds p))
        | Some ds =>
            let '(cs', r) := FL2_initCStream E cs preset in
            let '(ds', r') :=
              if (r =? 0)%N then FL2_initDStream E ds else (ds, r) in
            if FL2_isError E r' then
              Exit 1 (gave_up p
                        (eprint (error_line (FL2_getErrorName E r'))
                                (log_calls (setup_calls r r' ++ [CallErrorName r'])
                                           (pio p)))
                        (Live cs') (Live ds'))
            else
              match open_in env name with
              | None =>
                  Exit 1 (gave_up p
                            (eprint ("Cannot open input file." ++ nl)
                                    (log_calls (setup_calls r r') (pio p)))
                            (Live cs') (Live ds'))
              | Some data =>
                  match open_out env (out_name p) with
                  | None =>
                      Exit 1 (gave_up p
                                (eprint ("Cannot open output file." ++ nl)
                                        (set_fin (mkFin true data false)
                                                 (log_calls (setup_calls r r') (pio p))))
                                (Live cs') (Live ds'))
                  | Some room =>
                      let w := io_opened (pio p) r r' data (out_name p) room in
                      if bCompress p then
                        match compress_file E fuel cs'
                                (print (MsgCompressing name (out_name p)) w) with
                        | None => NoFuel
                        | Some (z, st) => Ret z (wound_up p z (io st))
                        end
                      else
                        match decompress_file E fuel ds'
                                (print (MsgDecompressingTo (out_name p)) w) with
                        | None => NoFuel
                        | Some (z, st) => Ret z (wound_up p z (io st))
                        end
                  end
              end
        end
    end.
Proof.
  destruct p as [w c d o t b].
  unfold gave_up, wound_up, io_opened, setup_calls, log_calls.
  cbv beta iota zeta delta
      [run create_init_fl2_streams open_files run_compress run_decompress
       cleanup bind out modify get exit_fail err exit_ logc ret undefined
       with_io pio fcs fds out_name thread_count bCompress fold_left app].
  destruct (FL2_createCStreamMt E t 0) as [cs|]; [|reflexivity].
  destruct (FL2_createDStreamMt E t) as [ds|]; [|reflexivity].
  destruct (FL2_initCStream E cs preset) as [cs' r].
  destruct (r =? 0)%N;
    [destruct (FL2_initDStream E ds) as [ds' r'] | ];
    cbv beta iota zeta;
    (destruct (FL2_isError E _); [reflexivity|];
     destruct (open_in env name) as [data|]; [|reflexivity];
     cbv beta iota zeta;
     destruct (open_out env o) as [room|]; [|reflexivity];
     cbv beta iota zeta;
     destruct b;
     [ destruct (compress_file E fuel _ _) as [[z st]|]; [|reflexivity]
     | destruct (decompress_file E fuel _ _) as [[z st]|]; [|reflexivity] ];
     cbv beta iota zeta; destruct (z =? 0)%Z; reflexivity).
Qed.

(* ================================================================= *)
(** ** The command line *)

Lemma find_name_dashed (args : list string) :
  Forall dashed args -> find_name args = None.
Proof.
  induction 1 as [|a rest Ha _ IH]; simpl; [reflexivity|].
  apply not_dash_false in Ha. now rewrite Ha.
Qed.

(** X3.  Without an argument, or when every argument after the mode word
    begins with ['-'], the process writes the usage line to standard error
    and exits with status 1; the engine has not been called and no file has
    been opened. *)
Theorem usage_failure (E : Engine) (env : Env) (fuel : nat) (argv : list string) :
  length argv < 2 \/ Forall dashed (skipn (arg_index argv) argv) ->
  exists p,
    main E env fuel argv = Exit 1%Z p
    /\ stderr (pio p) = [usage]
    /\ calls (pio p) = []
    /\ fcs p = Null /\ fds p = Null
    /\ fin (pio p) = closed_fin /\ fout (pio p) = closed_fout.
Proof.
  intros H. unfold main. rewrite main_body_parsed.
  destruct (length argv <? 2) eqn:Hl.
  - eexists. split; [reflexivity|]. repeat split.
  - apply Nat.ltb_ge in Hl. destruct H as [H | H]; [lia|].
    rewrite (find_name_dashed H).
    eexists. split; [reflexivity|]. repeat split.
Qed.

Lemma usage_failure_witness :
  exists p,
    main PairCodec.engine (env_with (Some hello) None) 10
         ["FastLZMA2Tool"; "decompress"; "-threads=2"; "-x"]%string
    = Exit 1%Z p
    /\ stderr (pio p) = [usage]
    /\ calls (pio p) = []
    /\ fcs p = Null /\ fds p = Null
    /\ fin (pio p) = closed_fin /\ fout (pio p) = closed_fout.
Proof.
  apply usage_failure. right. simpl.
  repeat constructor; eexists; reflexivity.
Defined.

(** X4.  The mode word is recognised by its beginning: a first argument
    that begins with ["compress"] acts as the word ["compress"], one that
    begins with ["decompress"] as the word ["decompress"], and neither is
    read as an option or a file name; with any other first argument the
    process behaves as if ["compress"] had been put before it. *)
Theorem mode_word_by_prefix
        (E : Engine) (env : Env) (fuel : nat) (prog op : string)
        (rest : list string) :
  (prefix "compress" op = true ->
   main E env fuel (prog :: op :: rest)
   = main E env fuel (prog :: "compress"%string :: rest))
  /\ (prefix "decompress" op = true ->
      main E env fuel (prog :: op :: rest)
      = main E env fuel (prog :: "decompress"%string :: rest))
  /\ (prefix "compress" op = false -> prefix "decompress" op = false ->
      main E env fuel (prog :: op :: rest)
      = main E env fuel (prog :: "compress"%string :: op :: rest)).
Proof.
  assert (Hd : prefix "decompress" op = true -> prefix "compress" op = false).
  { destruct op as [|c op]; [reflexivity|]. cbn [prefix].
    destruct (ascii_dec "d" c) as [<- | ?]; [reflexivity | discriminate]. }
  unfold main. rewrite !main_body_parsed.
  unfold parsed, parsed_messages, options_of, arg_index, mode_of.
  cbn [nth length Nat.ltb Nat.leb].
  change (prefix "compress" "compress") with true.
  change (prefix "compress" "decompress") with false.
  change (prefix "decompress" "decompress") with true.
  cbv beta iota.
  split; [|split].
  - intros ->. reflexivity.
  - intros H. rewrite (Hd H), H. reflexivity.
  - intros -> ->. reflexivity.
Qed.

Lemma mode_word_by_prefix_witness :
  main PairCodec.engine (env_with (Some hello) None) 100
       ["FastLZMA2Tool"; "compressed.txt"; "a.txt"]%string
  = main PairCodec.engine (env_with (Some hello) None) 100
         ["FastLZMA2Tool"; "compress"; "a.txt"]%string
  /\ main PairCodec.engine (env_with (Some hello) None) 100
          ["FastLZMA2Tool"; "decompressor"; "a.lzma2"]%string
     = main PairCodec.engine (env_with (Some hello) None) 100
            ["FastLZMA2Tool"; "decompress"; "a.lzma2"]%string
  /\ main PairCodec.engine (env_with (Some hello) None) 100
          ["FastLZMA2Tool"; "a.txt"]%string
     = main PairCodec.engine (env_with (Some hello) None) 100
            ["FastLZMA2Tool"; "compress"; "a.txt"]%string.
Proof.
  split; [|split].
  - apply (proj1 (mode_word_by_prefix PairCodec.engine
                    (env_with (Some hello) None) 100
                    "FastLZMA2Tool" "compressed.txt" ["a.txt"%string])).
    reflexivity.
  - apply (proj1 (proj2 (mode_word_by_prefix PairCodec.engine
                    (env_with (Some hello) None) 100
                    "FastLZMA2Tool" "decompressor" ["a.lzma2"%string]))).
    reflexivity.
  - apply (proj2 (proj2 (mode_word_by_prefix PairCodec.engine
                    (env_with (Some hello) None) 100
                    "FastLZMA2Tool" "a.txt" []))); reflexivity.
Defined.

(** ** Options *)

Lemma substring_all (s : string) : substring 0 (String.length s) s = s.
Proof. induction s as [|c s IH]; simpl; [reflexivity | now rewrite IH]. Qed.

Lemma substring_value (k v : string) :
  substring (String.length k) (String.length (k ++ v) - String.length k) (k ++ v) = v.
Proof.
  rewrite string_length_append, Nat.add_comm, Nat.add_sub.
  induction k as [|c k IH]; simpl; [apply substring_all | exact IH].
Qed.

Lemma prefix_append (k v : string) : prefix k (k ++ v) = true.
Proof.
  induction k as [|c k IH]; [now destruct v|].
  cbn [prefix append]. destruct (ascii_dec c c); [exact IH | contradiction].
Qed.

Lemma fold_without_threads (atoi : string -> Z) (args : list string) (tp : Z * Z) :
  Forall (fun a => prefix "-threads=" a = false) args ->
  fst (fold_left (parse_option atoi) args tp) = fst tp.
Proof.
  intros H; revert tp; induction H as [|a args Ha _ IH]; intros tp; simpl;
    [reflexivity|].
  rewrite IH. unfold parse_option. rewrite Ha.
  destruct (prefix "-preset=" a); reflexivity.
Qed.

Lemma fold_without_preset (atoi : string -> Z) (args : list string) (tp : Z * Z) :
  Forall (fun a => prefix "-preset=" a = false) args ->
  snd (fold_left (parse_option atoi) args tp) = snd tp.
Proof.
  intros H; revert tp; induction H as [|a args Ha _ IH]; intros tp; simpl;
    [reflexivity|].
  rewrite IH. unfold parse_option. rewrite Ha.
  destruct (prefix "-threads=" a); reflexivity.
Qed.

(** X5.  Options are read from all the arguments, in order, and the last
    one of a kind wins: the thread count is [atoi] of what follows the last
    ["-threads="], the preset [atoi] of what follows the last ["-preset="],
    whatever that text is; without such an argument the value is left as it
    was. *)
Theorem last_option_wins
        (atoi : string -> Z) (before after : list string) (v : string)
        (tp : Z * Z) :
  (Forall (fun a => prefix "-threads=" a = false) after ->
   fst (fold_left (parse_option atoi)
                  (before ++ ("-threads=" ++ v)%string :: after) tp)
   = atoi v)
  /\ (Forall (fun a => prefix "-preset=" a = false) after ->
      snd (fold_left (parse_option atoi)
                     (before ++ ("-preset=" ++ v)%string :: after) tp)
      = atoi v)
  /\ (Forall (fun a => prefix "-threads=" a = false) after ->
      fst (fold_left (parse_option atoi) after tp) = fst tp)
  /\ (Forall (fun a => prefix "-preset=" a = false) after ->
      snd (fold_left (parse_option atoi) after tp) = snd tp).
Proof.
  split; [|split; [|split]]; intros H.
  - rewrite fold_left_app. cbn [fold_left].
    rewrite (fold_without_threads _ _ H). unfold parse_option.
    replace (prefix "-threads=" ("-threads=" ++ v)) with true
      by (symmetry; apply prefix_append).
    cbn [fst]. f_equal. exact (substring_value "-threads=" v).
  - rewrite fold_left_app. cbn [fold_left].
    rewrite (fold_without_preset _ _ H). unfold parse_option.
    change (prefix "-threads=" ("-preset=" ++ v)) with false.
    replace (prefix "-preset=" ("-preset=" ++ v)) with true
      by (symmetry; apply prefix_append).
    cbn [snd]. f_equal. exact (substring_value "-preset=" v).
  - now apply fold_without_threads.
  - now apply fold_without_preset.
Qed.

Lemma last_option_wins_witness :
  fst (fold_left (parse_option (fun s => Z.of_nat (String.length s)))
                 (["-threads=1"; "a.txt"]%string
                    ++ ("-threads=" ++ "four")%string
                    :: ["-preset=9"; "out"]%string)
                 (8%Z, 6%Z))
  = 4%Z.
Proof.
  apply (proj1 (last_option_wins (fun s => Z.of_nat (String.length s))
                  ["-threads=1"; "a.txt"]%string ["-preset=9"; "out"]%string
                  "four" (8%Z, 6%Z))).
  repeat constructor.
Defined.

(* ================================================================= *)
(** ** What a pump function reports *)

Section Reports.

Variable E : Engine.

Lemma compress_loop_stdout (fuel : nat) (st : Pump (CStream E)) :
  match do_while (compress_body E) fuel st with
  | Finished st' | Failed st' => stdout (io st') = stdout (io st)
  | Spinning => True
  end.
Proof.
  apply (do_while_keeps (compress_body E) (fun s => stdout (io s))).
  intros a. exact (compress_body_stdout E a).
Qed.

Lemma finish_loop_stdout (fuel : nat) (st : Pump (CStream E)) :
  match do_while (finish_body E) fuel st with
  | Finished st' | Failed st' => stdout (io st') = stdout (io st)
  | Spinning => True
  end.
Proof.
  apply (do_while_keeps (finish_body E) (fun s => stdout (io s))).
  intros a. pose proof (finish_body_stdout E a) as H.
  destruct (finish_body E a); tauto.
Qed.

Lemma decompress_loop_stdout (fuel : nat) (st : Pump (DStream E)) :
  match do_while (decompress_body E) fuel st with
  | Finished st' | Failed st' => stdout (io st') = stdout (io st)
  | Spinning => True
  end.
Proof.
  apply (do_while_keeps (decompress_body E) (fun s => stdout (io s))).
  intros a. exact (decompress_body_stdout E a).
Qed.

(** The two ways in which [compress_file] returns. *)
Lemma compress_file_report (fuel : nat) (cs : CStream E) (w : IO) (z : Z)
      (st : Pump (CStream E)) :
  compress_file E fuel cs w = Some (z, st) ->
  (z = 0%Z
   /\ FL2_isError E (res st) = false
   /\ stderr (io st) = stderr w
   /\ stdout (io st)
      = stdout w ++ [MsgCompressed (in_size st) (out_size st);
                     MsgTook "Compression"])
  \/ (z = 1%Z
      /\ FL2_isError E (res st) = true
      /\ stderr (io st) = stderr w ++ [error_line (FL2_getErrorName E (res st))]
      /\ stdout (io st) = stdout w ++ [MsgTook "Compression"]).
Proof.
  unfold compress_file. intros H.
  pose proof (do_while_calls (compress_body_logs E) fuel (compress_start E cs w)) as H1.
  pose proof (compress_loop_stdout fuel (compress_start E cs w)) as S1.
  destruct (do_while (compress_body E) fuel _) as [st1|st1|]; try discriminate.
  - pose proof (do_while_calls (finish_body_logs E) fuel st1) as H2.
    pose proof (finish_loop_stdout fuel st1) as S2.
    destruct (do_while (finish_body E) fuel st1) as [st2|st2|]; try discriminate;
      injection H as <- <-.
    + left. destruct H1 as (rs & _ & _ & Hs1). destruct H2 as (es & _ & Hf2 & Hs2).
      apply Forall_app in Hf2 as [_ Hf2]. inversion Hf2; subst.
      simpl in *. repeat split; auto; try congruence.
      rewrite <- app_assoc. simpl. congruence.
    + right. destruct H1 as (rs & _ & _ & Hs1).
      destruct H2 as (es & _ & _ & He2 & Hs2).
      simpl in *. repeat split; auto; congruence.
  - injection H as <- <-. right. destruct H1 as (rs & _ & _ & He1 & Hs1).
    simpl in *. repeat split; auto; congruence.
Qed.

(** The two ways in which [decompress_file] returns. *)
Lemma decompress_file_report (fuel : nat) (ds : DStream E) (w : IO) (z : Z)
      (st : Pump (DStream E)) :
  decompress_file E fuel ds w = Some (z, st) ->
  (z = 0%Z
   /\ FL2_isError E (res st) = false
   /\ stderr (io st) = stderr w
   /\ stdout (io st)
      = stdout w ++ [MsgDecompressed (in_size st) (out_size st);
                     MsgTook "Decompression"])
  \/ (z = 1%Z
      /\ FL2_isError E (res st) = true
      /\ stderr (io st) = stderr w ++ [error_line (FL2_getErrorName E (res st))]
      /\ stdout (io st) = stdout w ++ [MsgTook "Decompression"]).
Proof.
  unfold decompress_file. intros H.
  pose proof (do_while_calls (decompress_body_logs E) fuel (decompress_start E ds w)) as H1.
  pose proof (decompress_loop_stdout fuel (decompress_start E ds w)) as S1.
  destruct (do_while (decompress_body E) fuel _) as [st1|st1|]; try discriminate;
    injection H as <- <-.
  - left. destruct H1 as (rs & _ & Hf & Hs1).
    apply Forall_app in Hf as [_ Hf]. inversion Hf; subst.
    simpl in *. repeat split; auto; try congruence.
    rewrite <- app_assoc. simpl. congruence.
  - right. destruct H1 as (rs & _ & _ & He1 & Hs1).
    simpl in *. repeat split; auto; congruence.
Qed.

End Reports.

(* ================================================================= *)
(** ** The ways in which [main] ends *)

Lemma log_calls_fin (l : list Call) (w : IO) : fin (log_calls l w) = fin w.
Proof. apply calls_log_calls. Qed.
Lemma log_calls_fout (l : list Call) (w : IO) : fout (log_calls l w) = fout w.
Proof. apply calls_log_calls. Qed.
Lemma log_calls_stdout (l : list Call) (w : IO) :
  stdout (log_calls l w) = stdout w.
Proof. apply calls_log_calls. Qed.
Lemma log_calls_stderr (l : list Call) (w : IO) :
  stderr (log_calls l w) = stderr w.
Proof. apply calls_log_calls. Qed.
Lemma log_calls_calls (l : list Call) (w : IO) :
  calls (log_calls l w) = calls w ++ l.
Proof. apply calls_log_calls. Qed.

Lemma io_opened_fin (w : IO) (r r' : N) (data : list byte) (out : string)
      (room : option nat) :
  fin (io_opened w r r' data out room) = mkFin true data false.
Proof. reflexivity. Qed.
Lemma io_opened_fout (w : IO) (r r' : N) (data : list byte) (out : string)
      (room : option nat) :
  fout (io_opened w r r' data out room) = mkFout true out [] room false.
Proof. reflexivity. Qed.
Lemma io_opened_stdout (w : IO) (r r' : N) (data : list byte) (out : string)
      (room : option nat) :
  stdout (io_opened w r r' data out room) = stdout w.
Proof.
  unfold io_opened. cbn [set_fout set_fin stdout stderr calls].
  apply log_calls_stdout.
Qed.
Lemma io_opened_stderr (w : IO) (r r' : N) (data : list byte) (out : string)
      (room : option nat) :
  stderr (io_opened w r r' data out room) = stderr w.
Proof.
  unfold io_opened. cbn [set_fout set_fin stdout stderr calls].
  apply log_calls_stderr.
Qed.
Lemma io_opened_calls (w : IO) (r r' : N) (data : list byte) (out : string)
      (room : option nat) :
  calls (io_opened w r r' data out room) = calls w ++ setup_calls r r'.
Proof.
  unfold io_opened. cbn [set_fout set_fin stdout stderr calls].
  apply log_calls_calls.
Qed.

Section Ends.

Variable E : Engine.
Variable p : Process E.

Lemma gave_up_fin w c d : fin (pio (gave_up p w c d)) = close_fin (fin w).
Proof. reflexivity. Qed.
Lemma gave_up_fout w c d : fout (pio (gave_up p w c d)) = close_fout (fout w).
Proof. reflexivity. Qed.
Lemma gave_up_stdout w c d : stdout (pio (gave_up p w c d)) = stdout w.
Proof. reflexivity. Qed.
Lemma gave_up_stderr w c d : stderr (pio (gave_up p w c d)) = stderr w.
Proof. reflexivity. Qed.
Lemma gave_up_calls w c d : calls (pio (gave_up p w c d)) = calls w.
Proof. reflexivity. Qed.
Lemma gave_up_fcs w c d : fcs (gave_up p w c d) = c.
Proof. reflexivity. Qed.
Lemma gave_up_fds w c d : fds (gave_up p w c d) = d.
Proof. reflexivity. Qed.

Lemma wound_up_fin z w :
  fin (pio (static_destroy (wound_up p z w))) = close_fin (fin w).
Proof. unfold wound_up. now destruct (z =? 0)%Z. Qed.
Lemma wound_up_fout z w :
  fout (pio (static_destroy (wound_up p z w))) = close_fout (fout w).
Proof. unfold wound_up. now destruct (z =? 0)%Z. Qed.
Lemma wound_up_stdout z w :
  stdout (pio (static_destroy (wound_up p z w)))
  = stdout w ++ (if (z =? 0)%Z then [MsgSuccess (bCompress p)] else []).
Proof.
  unfold wound_up. destruct (z =? 0)%Z; simpl; now rewrite ?app_nil_r.
Qed.
Lemma wound_up_stderr z w :
  stderr (pio (static_destroy (wound_up p z w))) = stderr w.
Proof. unfold wound_up. now destruct (z =? 0)%Z. Qed.
Lemma wound_up_calls z w :
  calls (pio (static_destroy (wound_up p z w)))
  = calls w ++ [CallFreeC; CallFreeD].
Proof.
  unfold wound_up. destruct (z =? 0)%Z; simpl; now rewrite <- app_assoc.
Qed.
Lemma wound_up_fcs z w : fcs (static_destroy (wound_up p z w)) = Freed.
Proof. reflexivity. Qed.
Lemma wound_up_fds z w : fds (static_destroy (wound_up p z w)) = Freed.
Proof. reflexivity. Qed.

End Ends.

Create Rewrite HintDb ends.
#[local] Hint Rewrite
  log_calls_fin log_calls_fout log_calls_stdout log_calls_stderr log_calls_calls
  io_opened_fin io_opened_fout io_opened_stdout io_opened_stderr io_opened_calls
  gave_up_fin gave_up_fout gave_up_stdout gave_up_stderr gave_up_calls
  gave_up_fcs gave_up_fds
  wound_up_fin wound_up_fout wound_up_stdout wound_up_stderr wound_up_calls
  wound_up_fcs wound_up_fds : ends.
#[local] Hint Rewrite app_nil_l app_nil_r : ends.

(** Projections of the final state, worked out. *)
Ltac ends :=
  repeat progress
    (autorewrite with ends;
     cbn [parsed pio fcs fds out_name thread_count bCompress
          eprint print set_fin set_fout log_call
          fin fout stdout stderr calls]).

Lemma exit_inj (E : Engine) (c c' : Z) (p p' : Process E) :
  Exit (A := Z) c p = Exit c' p' -> c = c' /\ p = p'.
Proof. intros H. now injection H. Qed.

(** The case analysis of a run of [main] that has exited, [H] being the
    equation [main E env fuel argv = Exit code p]: the usage failure for
    want of arguments, the failure to initialise, the two pump functions,
    the failures to open the output and the input, to create the two
    contexts, and the usage failure for want of a file name. *)
Ltac main_cases H argv :=
  unfold main in H; rewrite main_body_parsed in H;
  destruct (length argv <? 2) eqn:Hlen;
  [ apply exit_inj in H; destruct H as [<- <-]
  | destruct (find_name (skipn (arg_index argv) argv)) as [[name next]|] eqn:Hname;
    [ destruct (resolve_out_name _ _ _) as [out|] eqn:Hout; [|discriminate H];
      rewrite run_unfolded in H;
      destruct (FL2_createCStreamMt _ _ _) as [cs|] eqn:HcreateC;
      [ destruct (FL2_createDStreamMt _ _) as [ds|] eqn:HcreateD;
        [ destruct (FL2_initCStream _ cs _) as [cs' r] eqn:HinitC;
          destruct (if (r =? 0)%N then _ else _) as [ds' r'] eqn:HinitD;
          destruct (FL2_isError _ r') eqn:Hinit;
          [ apply exit_inj in H; destruct H as [<- <-]
          | destruct (open_in _ name) as [data|] eqn:Hin;
            [ destruct (open_out _ _) as [room|] eqn:Hopen;
              [ cbv zeta in H;
                destruct (bCompress _) eqn:Hmode;
                [ destruct (compress_file _ _ _ _) as [[z st]|] eqn:Hpump;
                  [ apply exit_inj in H; destruct H as [<- <-] | discriminate H ]
                | destruct (decompress_file _ _ _ _) as [[z st]|] eqn:Hpump;
                  [ apply exit_inj in H; destruct H as [<- <-] | discriminate H ] ];
                cbn [parsed bCompress] in Hmode
              | apply exit_inj in H; destruct H as [<- <-] ];
              cbn [parsed out_name] in Hopen
            | apply exit_inj in H; destruct H as [<- <-] ] ]
        | apply exit_inj in H; destruct H as [<- <-] ];
        cbn [parsed thread_count] in HcreateD
      | apply exit_inj in H; destruct H as [<- <-] ];
      cbn [parsed thread_count] in HcreateC
    | apply exit_inj in H; destruct H as [<- <-] ] ].

Lemma parsed_messages_quiet (argv : list string) (env : Env)
      (next : option string) (b : bool) :
  ~ In (MsgSuccess b) (parsed_messages argv env next).
Proof.
  unfold parsed_messages. destruct next; simpl; intuition discriminate.
Qed.

Section Outcome.

Variable E : Engine.
Variable env : Env.

(** Standard error and the exit status. *)
Lemma main_stderr (fuel : nat) (argv : list string) (code : Z) (p : Process E) :
  main E env fuel argv = Exit code p ->
  (code = 0%Z /\ stderr (pio p) = []
   /\ exists before, stdout (pio p) = before ++ [MsgSuccess (mode_of argv)])
  \/ (code = 1%Z
      /\ (exists line, stderr (pio p) = [line])
      /\ ~ In (MsgSuccess (mode_of argv)) (stdout (pio p))).
Proof.
  intros H. main_cases H argv.
  - right. split; [reflexivity|]. split; [now eexists|].
    simpl. intuition discriminate.
  - right. split; [reflexivity|]. ends.
    split; [now eexists | apply parsed_messages_quiet].
  - destruct (@compress_file_report E _ _ _ _ _ Hpump)
      as [(-> & _ & Hs & Ho) | (-> & _ & Hs & Ho)];
      ends; rewrite Hs, Ho; ends.
    + left. split; [reflexivity|]. split; [reflexivity|].
      rewrite Hmode. eexists. reflexivity.
    + right. split; [reflexivity|]. split; [now eexists|].
      rewrite !in_app_iff. cbn [In].
      pose proof (@parsed_messages_quiet argv env next (mode_of argv)).
      intuition discriminate.
  - destruct (@decompress_file_report E _ _ _ _ _ Hpump)
      as [(-> & _ & Hs & Ho) | (-> & _ & Hs & Ho)];
      ends; rewrite Hs, Ho; ends.
    + left. split; [reflexivity|]. split; [reflexivity|].
      rewrite Hmode. eexists. reflexivity.
    + right. split; [reflexivity|]. split; [now eexists|].
      rewrite !in_app_iff. cbn [In].
      pose proof (@parsed_messages_quiet argv env next (mode_of argv)).
      intuition discriminate.
  - right. split; [reflexivity|]. ends.
    split; [now eexists | apply parsed_messages_quiet].
  - right. split; [reflexivity|]. ends.
    split; [now eexists | apply parsed_messages_quiet].
  - right. split; [reflexivity|]. ends.
    split; [now eexists | apply parsed_messages_quiet].
  - right. split; [reflexivity|]. ends.
    split; [now eexists | apply parsed_messages_quiet].
  - right. split; [reflexivity|]. split; [now eexists|].
    apply parsed_messages_quiet.
Qed.

End Outcome.

(** X6.  The exit status is 0 or 1, and it tells what was printed: it is 0
    exactly when nothing was written to standard error, and exactly when
    the success line of the mode was printed, as the last line of standard
    output; a failure writes one line to standard error. *)
Theorem exit_status_told
        (E : Engine) (env : Env) (fuel : nat) (argv : list string)
        (code : Z) (p : Process E) :
  main E env fuel argv = Exit code p ->
  (code = 0%Z \/ code = 1%Z)
  /\ (code = 0%Z <-> stderr (pio p) = [])
  /\ (code = 0%Z <-> In (MsgSuccess (mode_of argv)) (stdout (pio p)))
  /\ (code = 0%Z ->
      exists before, stdout (pio p) = before ++ [MsgSuccess (mode_of argv)])
  /\ (code = 1%Z -> exists line, stderr (pio p) = [line]).
Proof.
  intros H.
  destruct (main_stderr _ _ _ H)
    as [(-> & He & (b & Ho)) | (-> & (line & He) & Ho)].
  - split; [now left|]. split; [tauto|]. split; [|split].
    + split; [|reflexivity]. intros _. rewrite Ho.
      apply in_or_app. right. now left.
    + intros _. now exists b.
    + discriminate.
  - split; [now right|]. split; [|split; [|split]].
    + rewrite He. split; discriminate.
    + split; [discriminate | contradiction].
    + discriminate.
    + intros _. now exists line.
Qed.

Lemma exit_status_told_witness :
  exists p,
    main PairCodec.engine (env_with (Some hello) None) 100
         ["FastLZMA2Tool"; "compress"; "hello.txt"]%string
    = Exit 0%Z p
    /\ (0%Z = 0%Z <-> stderr (pio p) = []).
Proof.
  eexists. split; [vm_compute; reflexivity|].
  refine (proj1 (proj2 (@exit_status_told PairCodec.engine
                          (env_with (Some hello) None) 100
                          ["FastLZMA2Tool"; "compress"; "hello.txt"]%string
                          0%Z _ _))).
  vm_compute. reflexivity.
Defined.

(* ================================================================= *)
(** ** The engine calls of a run *)

Section Protocol.

Variable E : Engine.

Lemma compress_file_calls (fuel : nat) (cs : CStream E) (w : IO) (z : Z)
      (st : Pump (CStream E)) :
  compress_file E fuel cs w = Some (z, st) ->
  exists l, calls (io st) = calls w ++ l /\ Forall (call_of_mode true) l.
Proof.
  unfold compress_file. intros H.
  assert (Hc : forall rs, Forall (call_of_mode true) (map CallCompress rs))
    by (induction rs; simpl; constructor; auto; reflexivity).
  assert (He : forall rs, Forall (call_of_mode true) (map CallEnd rs))
    by (induction rs; simpl; constructor; auto; reflexivity).
  pose proof (do_while_calls (compress_body_logs E) fuel (compress_start E cs w)) as H1.
  destruct (do_while (compress_body E) fuel _) as [st1|st1|]; try discriminate.
  - pose proof (do_while_calls (finish_body_logs E) fuel st1) as H2.
    destruct (do_while (finish_body E) fuel st1) as [st2|st2|]; try discriminate;
      injection H as <- <-.
    + destruct H1 as (rs & Hc1 & _). destruct H2 as (es & Hc2 & _).
      eexists. simpl. rewrite Hc2, Hc1, <- app_assoc. split; [reflexivity|].
      apply Forall_app. auto.
    + destruct H1 as (rs & Hc1 & _). destruct H2 as (es & Hc2 & _).
      eexists. simpl. rewrite Hc2, Hc1, <- !app_assoc. split; [reflexivity|].
      repeat (apply Forall_app; split); auto. repeat constructor.
  - injection H as <- <-. destruct H1 as (rs & Hc1 & _).
    eexists. simpl. rewrite Hc1, <- app_assoc. split; [reflexivity|].
    apply Forall_app. split; auto. repeat constructor.
Qed.

Lemma decompress_file_calls (fuel : nat) (ds : DStream E) (w : IO) (z : Z)
      (st : Pump (DStream E)) :
  decompress_file E fuel ds w = Some (z, st) ->
  exists l, calls (io st) = calls w ++ l /\ Forall (call_of_mode false) l.
Proof.
  unfold decompress_file. intros H.
  assert (Hc : forall rs, Forall (call_of_mode false) (map CallDecompress rs))
    by (induction rs; simpl; constructor; auto; reflexivity).
  pose proof (do_while_calls (decompress_body_logs E) fuel (decompress_start E ds w)) as H1.
  destruct (do_while (decompress_body E) fuel _) as [st1|st1|]; try discriminate;
    injection H as <- <-.
  - destruct H1 as (rs & Hc1 & _).
    eexists. simpl. rewrite Hc1. split; [reflexivity | auto].
  - destruct H1 as (rs & Hc1 & _).
    eexists. simpl. rewrite Hc1, <- app_assoc. split; [reflexivity|].
    apply Forall_app. split; auto. repeat constructor.
Qed.

End Protocol.

Lemma setup_calls_setup (r r' : N) :
  Forall (fun c => is_setup_call c = true) (setup_calls r r').
Proof. unfold setup_calls. destruct (r =? 0)%N; repeat constructor. Qed.

Lemma no_pump_call (l : list Call) :
  Forall (fun c => is_setup_call c = true) l ->
  Exists (fun c => is_pump_call c = true) l -> False.
Proof.
  intros Hf He. apply Exists_exists in He as (c & Hin & Hp).
  rewrite Forall_forall in Hf. specialize (Hf c Hin).
  destruct c; discriminate.
Qed.

(** X7.  A run that has made a feed or finish call has made these engine
    calls, in this order: the creation of both contexts and the
    initialisation of the compressor, whatever the mode; the initialisation
    of the decompressor exactly when that of the compressor returned 0;
    then the calls of the pump function of its mode alone, the compressor's
    when compressing and the decompressor's when decompressing; then the
    destruction of both contexts. *)
Theorem call_protocol
        (E : Engine) (env : Env) (fuel : nat) (argv : list string)
        (code : Z) (p : Process E) :
  main E env fuel argv = Exit code p ->
  Exists (fun c => is_pump_call c = true) (calls (pio p)) ->
  exists r r' l,
    calls (pio p) = setup_calls r r' ++ l ++ [CallFreeC; CallFreeD]
    /\ FL2_isError E r' = false
    /\ (r <> 0%N -> r' = r)
    /\ Forall (call_of_mode (mode_of argv)) l.
Proof.
  intros H Hex.
  assert (Hsame : forall (ds ds' : DStream E) (r r' : N),
             (if (r =? 0)%N then FL2_initDStream E ds else (ds, r)) = (ds', r') ->
             r <> 0%N -> r' = r).
  { intros ds ds' r r' Hi Hr. apply N.eqb_neq in Hr. rewrite Hr in Hi.
    now injection Hi. }
  main_cases H argv; revert Hex; ends; intros Hex;
    try (exfalso; apply (no_pump_call (l := [])); [constructor | exact Hex]).
  - exfalso. eapply no_pump_call; [|exact Hex].
    apply Forall_app. split; [apply setup_calls_setup | repeat constructor].
  - destruct (@compress_file_calls E _ _ _ _ _ Hpump) as (l & Hc & Hl).
    revert Hc; ends; intros Hc.
    exists r, r', l. rewrite Hc, Hmode, <- app_assoc. eauto.
  - destruct (@decompress_file_calls E _ _ _ _ _ Hpump) as (l & Hc & Hl).
    revert Hc; ends; intros Hc.
    exists r, r', l. rewrite Hc, Hmode, <- app_assoc. eauto.
  - exfalso. eapply no_pump_call; [|exact Hex]. apply setup_calls_setup.
  - exfalso. eapply no_pump_call; [|exact Hex]. apply setup_calls_setup.
  - exfalso. eapply no_pump_call; [|exact Hex]. repeat constructor.
  - exfalso. eapply no_pump_call; [|exact Hex]. repeat constructor.
Qed.

Lemma call_protocol_witness :
  exists p r r' l,
    main PairCodec.engine (env_with (Some [x00]) None) 10
         ["FastLZMA2Tool"; "decompress"; "empty.lzma2"]%string
    = Exit 0%Z p
    /\ calls (pio p) = setup_calls r r' ++ l ++ [CallFreeC; CallFreeD]
    /\ Forall (call_of_mode false) l.
Proof.
  eexists.
  destruct (@call_protocol PairCodec.engine (env_with (Some [x00]) None) 10
              ["FastLZMA2Tool"; "decompress"; "empty.lzma2"]%string 0%Z _
              ltac:(vm_compute; reflexivity)
              ltac:(vm_compute; do 4 apply Exists_cons_tl;
                    apply Exists_cons_hd; reflexivity))
    as (r & r' & l & Hc & _ & _ & Hl).
  exists r, r', l. split; [vm_compute; reflexivity|]. split; assumption.
Defined.

(* ================================================================= *)
(** ** The files *)

Lemma do_while_rel {A} (body : A -> Step A) (R : A -> A -> Prop) :
  (forall a, R a a) ->
  (forall a b c, R a b -> R b c -> R a c) ->
  (forall a, match body a with
             | Continue a' | Break a' | Abort a' => R a a'
             end) ->
  forall fuel a,
    match do_while body fuel a with
    | Finished a' | Failed a' => R a a'
    | Spinning => True
    end.
Proof.
  intros Hr Ht Hb fuel; induction fuel as [|n IH]; intros a; simpl; [exact I|].
  pose proof (Hb a) as H0. destruct (body a) as [a1|a1|a1]; auto.
  specialize (IH a1). destruct (do_while body n a1); eauto.
Qed.

Lemma streams_advance_refl (w : IO) : streams_advance w w.
Proof.
  repeat split; [now exists []; rewrite app_nil_r | now exists []].
Qed.

Lemma streams_advance_trans (a b c : IO) :
  streams_advance a b -> streams_advance b c -> streams_advance a c.
Proof.
  intros ((m1 & H1) & H2 & H3 & (t1 & H4) & H5)
         ((m2 & G1) & G2 & G3 & (t2 & G4) & G5).
  repeat split; try congruence.
  - exists (m1 ++ m2). rewrite G1, H1, app_assoc. reflexivity.
  - exists (t1 ++ t2). rewrite H4, G4, app_assoc. reflexivity.
Qed.

Lemma ostream_write_advance (f : ofstream) (bs : list byte) :
  (exists more, out_data (ostream_write f bs) = out_data f ++ more)
  /\ out_path (ostream_write f bs) = out_path f
  /\ out_open (ostream_write f bs) = out_open f.
Proof.
  unfold ostream_write.
  destruct (out_open f) eqn:Ho; cbn [andb];
    [destruct (out_bad f); cbn [negb];
     [|destruct (out_room f) as [r|]; [destruct (length bs <=? r)|]]|];
    cbn [out_data out_path out_open]; repeat split; auto;
    try (eexists; reflexivity); exists []; now rewrite app_nil_r.
Qed.

Lemma ffread_advance (f : ifstream) (buffer : list byte) (cap : nat) :
  (exists taken, in_rest f = taken ++ in_rest (snd (ffread f buffer cap)))
  /\ in_open (snd (ffread f buffer cap)) = in_open f.
Proof.
  unfold ffread.
  destruct (in_open f) eqn:Ho; cbn [andb];
    [destruct (in_eof f); cbn [negb]|];
    cbn [snd in_rest in_open]; (split; [|auto]); try (now exists []).
  exists (firstn cap (in_rest f)). now rewrite firstn_skipn.
Qed.

Lemma refill_advance {X} (cap : nat) (st : Pump X) :
  streams_advance (io st) (io (refill cap st)).
Proof.
  unfold refill. destruct (_ =? _); [|apply streams_advance_refl].
  pose proof (ffread_advance (fin (io st)) (src (in_buf st)) cap) as [Ht Ho].
  destruct (ffread _ _ _) as [[n b] f]. cbn [snd] in Ht, Ho.
  repeat split; auto. exists []. simpl. now rewrite app_nil_r.
Qed.

Lemma drain_advance {X} (st : Pump X) :
  streams_advance (io st) (io (drain st)).
Proof.
  destruct (drain_sink st) as (Hf & _).
  destruct (drain_frame st) as (_ & _ & _ & _ & Hfin & _).
  destruct (ostream_write_advance (fout (io st))
              (firstn (opos (out_buf st)) (dst (out_buf st))))
    as (Hd & Hp & Ho).
  unfold streams_advance. rewrite Hf, Hfin. repeat split; auto.
  now exists [].
Qed.

Lemma logged_advance (c : Call) (w : IO) : streams_advance w (log_call c w).
Proof.
  repeat split; [exists [] | exists []]; simpl; now rewrite ?app_nil_r.
Qed.

Section Files.

Variable E : Engine.

Lemma compress_body_advance (st : Pump (CStream E)) :
  match compress_body E st with
  | Continue st' | Break st' | Abort st' => streams_advance (io st) (io st')
  end.
Proof.
  unfold compress_body.
  assert (H2 : streams_advance (io st) (io (feed_c E (refill IN_CAP_C st)))).
  { eapply streams_advance_trans; [apply refill_advance|].
    unfold feed_c. destruct (FL2_compressStream E _ _ _) as [[[c o] i] r].
    apply logged_advance. }
  destruct (FL2_isError E _); [exact H2|].
  assert (H3 : streams_advance (io st) (io (drain (feed_c E (refill IN_CAP_C st)))))
    by (eapply streams_advance_trans; [exact H2 | apply drain_advance]).
  destruct (_ =? 0); exact H3.
Qed.

Lemma finish_body_advance (st : Pump (CStream E)) :
  match finish_body E st with
  | Continue st' | Break st' | Abort st' => streams_advance (io st) (io st')
  end.
Proof.
  unfold finish_body.
  assert (H2 : streams_advance (io st) (io (feed_end E st))).
  { unfold feed_end. destruct (FL2_endStream E _ _) as [[c o] r].
    apply logged_advance. }
  destruct (FL2_isError E _); [exact H2|].
  assert (H3 : streams_advance (io st) (io (drain (feed_end E st))))
    by (eapply streams_advance_trans; [exact H2 | apply drain_advance]).
  destruct (_ =? 0)%N; exact H3.
Qed.

Lemma decompress_body_advance (st : Pump (DStream E)) :
  match decompress_body E st with
  | Continue st' | Break st' | Abort st' => streams_advance (io st) (io st')
  end.
Proof.
  unfold decompress_body.
  assert (H2 : streams_advance (io st) (io (feed_d E (refill IN_CAP_D st)))).
  { eapply streams_advance_trans; [apply refill_advance|].
    unfold feed_d. destruct (FL2_decompressStream E _ _ _) as [[[c o] i] r].
    apply logged_advance. }
  destruct (FL2_isError E _); [exact H2|].
  assert (H3 : streams_advance (io st) (io (drain (feed_d E (refill IN_CAP_D st)))))
    by (eapply streams_advance_trans; [exact H2 | apply drain_advance]).
  destruct (_ && _); exact H3.
Qed.

Lemma loop_advance {X} (body : Pump X -> Step (Pump X)) :
  (forall st, match body st with
              | Continue st' | Break st' | Abort st' =>
                  streams_advance (io st) (io st')
              end) ->
  forall fuel st,
    match do_while body fuel st with
    | Finished st' | Failed st' => streams_advance (io st) (io st')
    | Spinning => True
    end.
Proof.
  intros Hb.
  apply (do_while_rel body (fun a b => streams_advance (io a) (io b))).
  - intros a. apply streams_advance_refl.
  - intros a b c. apply streams_advance_trans.
  - exact Hb.
Qed.

Lemma compress_file_advance (fuel : nat) (cs : CStream E) (w : IO) (z : Z)
      (st : Pump (CStream E)) :
  compress_file E fuel cs w = Some (z, st) -> streams_advance w (io st).
Proof.
  unfold compress_file. intros H.
  pose proof (loop_advance _ compress_body_advance fuel (compress_start E cs w)) as H1.
  destruct (do_while (compress_body E) fuel _) as [st1|st1|]; try discriminate.
  - pose proof (loop_advance _ finish_body_advance fuel st1) as H2.
    destruct (do_while (finish_body E) fuel st1) as [st2|st2|]; try discriminate;
      injection H as <- <-;
      (eapply streams_advance_trans; [exact H1|]);
      (eapply streams_advance_trans; [exact H2|]);
      repeat split; try (exists []; simpl; now rewrite ?app_nil_r).
  - injection H as <- <-.
    eapply streams_advance_trans; [exact H1|].
    repeat split; try (exists []; simpl; now rewrite ?app_nil_r).
Qed.

Lemma decompress_file_advance (fuel : nat) (ds : DStream E) (w : IO) (z : Z)
      (st : Pump (DStream E)) :
  decompress_file E fuel ds w = Some (z, st) -> streams_advance w (io st).
Proof.
  unfold decompress_file. intros H.
  pose proof (loop_advance _ decompress_body_advance fuel (decompress_start E ds w)) as H1.
  destruct (do_while (decompress_body E) fuel _) as [st1|st1|]; try discriminate;
    injection H as <- <-;
    (eapply streams_advance_trans; [exact H1|]);
    repeat split; try (exists []; simpl; now rewrite ?app_nil_r).
Qed.

End Files.

(** X8.  What a pump function prints.  When it returns 0 it has written
    nothing to standard error and has printed the byte counts and then the
    line of its [Timer]; when it returns 1 the last status is an error, the
    line with the name the engine gives to it is on standard error, and
    the [Timer] line is printed without the byte counts.  It returns
    nothing else. *)
Theorem pump_reports (E : Engine) (fuel : nat) (w : IO) :
  (forall cs z st,
      compress_file E fuel cs w = Some (z, st) ->
      stdout (io st)
      = stdout w
        ++ (if (z =? 0)%Z then [MsgCompressed (in_size st) (out_size st)] else [])
        ++ [MsgTook "Compression"]
      /\ stderr (io st)
         = stderr w
           ++ (if (z =? 0)%Z then []
               else [error_line (FL2_getErrorName E (res st))])
      /\ (z = 0%Z /\ FL2_isError E (res st) = false
          \/ z = 1%Z /\ FL2_isError E (res st) = true))
  /\ (forall ds z st,
         decompress_file E fuel ds w = Some (z, st) ->
         stdout (io st)
         = stdout w
           ++ (if (z =? 0)%Z then [MsgDecompressed (in_size st) (out_size st)]
               else [])
           ++ [MsgTook "Decompression"]
         /\ stderr (io st)
            = stderr w
              ++ (if (z =? 0)%Z then []
                  else [error_line (FL2_getErrorName E (res st))])
         /\ (z = 0%Z /\ FL2_isError E (res st) = false
             \/ z = 1%Z /\ FL2_isError E (res st) = true)).
Proof.
  split.
  - intros cs z st H.
    destruct (@compress_file_report E _ _ _ _ _ H)
      as [(-> & He & Hs & Ho) | (-> & He & Hs & Ho)];
      cbn [Z.eqb Pos.eqb]; rewrite Hs, Ho, ?app_nil_r; auto.
  - intros ds z st H.
    destruct (@decompress_file_report E _ _ _ _ _ H)
      as [(-> & He & Hs & Ho) | (-> & He & Hs & Ho)];
      cbn [Z.eqb Pos.eqb]; rewrite Hs, Ho, ?app_nil_r; auto.
Qed.

(** X9.  A pump function only appends to the sink and only reads the source
    forward, and it opens, closes and renames neither; this holds as well
    when it returns 1: what was written before an error stays written. *)
Theorem pump_leaves_files (E : Engine) (fuel : nat) (w : IO) :
  (forall cs z st,
      compress_file E fuel cs w = Some (z, st) -> streams_advance w (io st))
  /\ (forall ds z st,
         decompress_file E fuel ds w = Some (z, st) -> streams_advance w (io st)).
Proof.
  split; intros c z st H;
    [exact (@compress_file_advance E _ _ _ _ _ H)
    |exact (@decompress_file_advance E _ _ _ _ _ H)].
Qed.




(* ================================================================= *)
(** ** An empty source *)

Lemma refill_nothing {X} (cap : nat) (st : Pump X) :
  ipos (in_buf st) = isize (in_buf st) ->
  in_rest (fin (io st)) = [] ->
  refill cap st
  = mkPump (ctx st) (mkIn (src (in_buf st)) 0 0) (out_buf st) (res st)
           (size_add (in_size st) 0) (out_size st)
           (set_fin (snd (ffread (fin (io st)) (src (in_buf st)) cap)) (io st)).
Proof.
  intros Hp Hr. unfold refill. rewrite Hp, Nat.eqb_refl.
  unfold ffread. rewrite Hr, firstn_nil.
  destruct (in_open (fin (io st)) && negb (in_eof (fin (io st)))); reflexivity.
Qed.

Lemma fresh_array_length (n : nat) : length (fresh_array n) = n.
Proof. apply repeat_length. Qed.

Section EmptySource.

Variable E : Engine.
Hypothesis HD : Discipline E.
Variable w : IO.
Hypothesis Hempty : in_rest (fin w) = [].

Lemma compress_first_empty (cs : CStream E) :
  let r := snd (FL2_compressStream E cs
                  (mkOut (fresh_array OUT_CAP_C) OUT_CAP_C 0)
                  (mkIn (fresh_array IN_CAP_C) 0 0)) in
  exists st',
    (compress_body E (compress_start E cs w) = Abort st'
     /\ FL2_isError E r = true
     \/ compress_body E (compress_start E cs w) = Break st'
        /\ FL2_isError E r = false)
    /\ calls (io st') = calls w ++ [CallCompress r]
    /\ in_size st' = 0%Z
    /\ res st' = r.
Proof.
  intros r. unfold compress_body.
  rewrite (refill_nothing IN_CAP_C (compress_start E cs w) eq_refl Hempty).
  unfold feed_c. cbn [ctx in_buf out_buf res in_size out_size io compress_start src].
  subst r.
  destruct (FL2_compressStream E cs _ _) as [[[c o] i] r] eqn:Hc.
  cbn [snd res]. destruct (FL2_isError E r) eqn:He.
  - eexists. split; [left; split; reflexivity|]. repeat split.
  - assert (Hvi : valid_in (mkIn (fresh_array IN_CAP_C) 0 0))
      by (split; cbn [ipos isize src]; lia).
    assert (Hvo : valid_out (mkOut (fresh_array OUT_CAP_C) OUT_CAP_C 0))
      by (split; cbn [opos osize dst]; rewrite ?fresh_array_length; lia).
    destruct (@compress_kept E HD _ _ _ _ _ _ _ Hc He Hvi Hvo)
      as [(_ & Hs & _) _].
    cbn [isize] in Hs.
    change (isize (in_buf (drain ?s))) with (isize (in_buf s)).
    cbn [in_buf]. rewrite Hs. cbn [Nat.eqb].
    eexists. split; [right; split; reflexivity|]. repeat split.
Qed.

Lemma decompress_first_empty (ds : DStream E) :
  let r := snd (FL2_decompressStream E ds
                  (mkOut (fresh_array OUT_CAP_D) OUT_CAP_D 0)
                  (mkIn (fresh_array IN_CAP_D) 0 0)) in
  exists st',
    (decompress_body E (decompress_start E ds w) = Abort st'
     /\ FL2_isError E r = true
     \/ decompress_body E (decompress_start E ds w) = Break st'
        /\ FL2_isError E r = false)
    /\ calls (io st') = calls w ++ [CallDecompress r]
    /\ in_size st' = 0%Z
    /\ res st' = r.
Proof.
  intros r. unfold decompress_body.
  rewrite (refill_nothing IN_CAP_D (decompress_start E ds w) eq_refl Hempty).
  unfold feed_d. cbn [ctx in_buf out_buf res in_size out_size io decompress_start src].
  subst r.
  destruct (FL2_decompressStream E ds _ _) as [[[c o] i] r] eqn:Hc.
  cbn [snd res]. destruct (FL2_isError E r) eqn:He.
  - eexists. split; [left; split; reflexivity|]. repeat split.
  - assert (Hvi : valid_in (mkIn (fresh_array IN_CAP_D) 0 0))
      by (split; cbn [ipos isize src]; lia).
    assert (Hvo : valid_out (mkOut (fresh_array OUT_CAP_D) OUT_CAP_D 0))
      by (split; cbn [opos osize dst]; rewrite ?fresh_array_length; lia).
    destruct (@decompress_kept E HD _ _ _ _ _ _ _ Hc He Hvi Hvo)
      as [(_ & Hs & _) _].
    cbn [isize] in Hs.
    change (isize (in_buf (drain ?s))) with (isize (in_buf s)).
    cbn [in_buf]. rewrite Hs. cbn [Nat.eqb negb]. rewrite andb_false_r.
    eexists. split; [right; split; reflexivity|]. repeat split.
Qed.

End EmptySource.

Lemma finish_loop_in_size (E : Engine) (fuel : nat) (st : Pump (CStream E)) :
  match do_while (finish_body E) fuel st with
  | Finished st' | Failed st' => in_size st' = in_size st
  | Spinning => True
  end.
Proof.
  apply (do_while_keeps (finish_body E) (fun s => in_size s)).
  intros a. unfold finish_body, feed_end.
  destruct (FL2_endStream E _ _) as [[c o] r]. cbn [res].
  destruct (FL2_isError E r); [reflexivity|].
  destruct (_ =? _)%N; reflexivity.
Qed.

(** X11.  On a source without a byte, each pump function makes exactly one
    feed call, with an input buffer of size 0, and counts 0 bytes read.
    [decompress_file] then returns at once: 1 when the status of that call
    is an error, and 0 otherwise, whatever that status says about the
    stream being complete.  [compress_file] goes on with its finish
    calls. *)
Theorem empty_source (E : Engine) (HD : Discipline E) (w : IO) :
  in_rest (fin w) = [] ->
  (forall ds fuel,
      let r := snd (FL2_decompressStream E ds
                      (mkOut (fresh_array OUT_CAP_D) OUT_CAP_D 0)
                      (mkIn (fresh_array IN_CAP_D) 0 0)) in
      exists st,
        decompress_file E (S fuel) ds w
        = Some (if FL2_isError E r then 1%Z else 0%Z, st)
        /\ calls (io st)
           = calls w ++ CallDecompress r
                     :: (if FL2_isError E r then [CallErrorName r] else [])
        /\ in_size st = 0%Z)
  /\ (forall cs fuel z st,
         compress_file E fuel cs w = Some (z, st) ->
         let r := snd (FL2_compressStream E cs
                         (mkOut (fresh_array OUT_CAP_C) OUT_CAP_C 0)
                         (mkIn (fresh_array IN_CAP_C) 0 0)) in
         exists l,
           calls (io st) = calls w ++ CallCompress r :: l
           /\ Forall (fun c => forall x, c <> CallCompress x) l
           /\ in_size st = 0%Z).
Proof.
  intros Hempty. split.
  - intros ds fuel r.
    destruct (decompress_first_empty HD w Hempty ds)
      as (st' & [[Hb He] | [Hb He]] & Hc & Hi & Hr);
      fold r in He, Hc, Hr; unfold decompress_file; cbn [do_while];
      rewrite Hb, He; eexists; (split; [reflexivity|]);
      cbn [error_out report snd io calls in_size print eprint log_call];
      rewrite Hc, ?Hr, <- ?app_assoc; auto.
  - intros cs fuel z st H r.
    assert (Hend : forall rs, Forall (fun c => forall x, c <> CallCompress x)
                                     (map CallEnd rs))
      by (induction rs; simpl; constructor; auto; discriminate).
    destruct (compress_first_empty HD w Hempty cs)
      as (st' & [[Hb He] | [Hb He]] & Hc & Hi & Hr);
      fold r in He, Hc, Hr; unfold compress_file in H;
      destruct fuel as [|n]; try discriminate H;
      [ assert (Hloop : do_while (compress_body E) (S n) (compress_start E cs w)
                        = Failed st') by (cbn [do_while]; now rewrite Hb)
      | assert (Hloop : do_while (compress_body E) (S n) (compress_start E cs w)
                        = Finished st') by (cbn [do_while]; now rewrite Hb) ];
      rewrite Hloop in H.
    + injection H as <- <-.
      cbn [error_out snd io calls in_size print eprint log_call].
      rewrite Hc, Hr, <- app_assoc. eexists. split; [reflexivity|].
      split; [repeat constructor; discriminate | exact Hi].
    + pose proof (do_while_calls (finish_body_logs E) (S n) st') as H2.
      pose proof (finish_loop_in_size E (S n) st') as H3.
      destruct (do_while (finish_body E) (S n) st') as [st2|st2|];
        try discriminate H; injection H as <- <-.
      * destruct H2 as (es & Hc2 & _).
        cbn [report snd io calls in_size print eprint log_call].
        rewrite Hc2, Hc, <- app_assoc. eexists. split; [reflexivity|].
        split; [apply Hend | congruence].
      * destruct H2 as (es & Hc2 & _).
        cbn [error_out snd io calls in_size print eprint log_call].
        rewrite Hc2, Hc, <- !app_assoc. eexists. split; [reflexivity|].
        split; [|congruence].
        apply Forall_app. split; [apply Hend | repeat constructor; discriminate].
Qed.

Lemma empty_source_witness :
  exists st,
    decompress_file PairCodec.engine 1 PairCodec.Tag (io_on [] None)
    = Some (0%Z, st)
    /\ calls (io st) = [CallDecompress 1%N]
    /\ in_size st = 0%Z.
Proof.
  exact (proj1 (@empty_source PairCodec.engine pair_discipline (io_on [] None)
                  eq_refl) PairCodec.Tag 0).
Defined.

(* ================================================================= *)
(** ** A whole run, there and back *)

Section WholeRun.

Variable E : Engine.
Variable C : Codec E.

Let HD : Discipline E := codec_discipline C.







End WholeRun.







(* ================================================================= *)
(** ** Names shorter than the suffix *)







(* ================================================================= *)
(** ** Failures of the set-up *)

(** X15.  What a run does when it is refused a resource, the file name
    being found and resolved.  Each failure ends the process with status
    1 and its own line on standard error, before any feed call and
    whatever the fuel: a compression context that cannot be created (the
    decompression context is then not asked for); a decompression context
    that cannot be created; an initialisation that returns an error (the
    files are then not opened); an input file that cannot be opened (the
    output is then not opened); an output file that cannot be opened.
    Contexts obtained before the failure are not destroyed. *)
Theorem setup_failures
        (E : Engine) (env : Env) (fuel : nat) (argv : list string)
        (name out : string) :
  named env argv name out ->
  let threads := fst (options_of env argv) in
  let preset := snd (options_of env argv) in
  (FL2_createCStreamMt E threads 0 = None ->
   exists p,
     main E env fuel argv = Exit 1%Z p
     /\ stderr (pio p) = [("Cannot allocate compression context." ++ nl)%string]
     /\ calls (pio p) = [CallCreateC]
     /\ fcs p = Null /\ fds p = Null)
  /\ (forall cs,
         FL2_createCStreamMt E threads 0 = Some cs ->
         FL2_createDStreamMt E threads = None ->
         exists p,
           main E env fuel argv = Exit 1%Z p
           /\ stderr (pio p)
              = [("Cannot allocate decompression context." ++ nl)%string]
           /\ calls (pio p) = [CallCreateC; CallCreateD]
           /\ fcs p = Live cs /\ fds p = Null)
  /\ (forall cs ds cs' ds' r r',
         FL2_createCStreamMt E threads 0 = Some cs ->
         FL2_createDStreamMt E threads = Some ds ->
         FL2_initCStream E cs preset = (cs', r) ->
         (if (r =? 0)%N then FL2_initDStream E ds else (ds, r)) = (ds', r') ->
         FL2_isError E r' = true ->
         exists p,
           main E env fuel argv = Exit 1%Z p
           /\ stderr (pio p) = [error_line (FL2_getErrorName E r')]
           /\ calls (pio p) = setup_calls r r' ++ [CallErrorName r']
           /\ fcs p = Live cs' /\ fds p = Live ds'
           /\ fin (pio p) = closed_fin /\ fout (pio p) = closed_fout)
  /\ (forall cs' ds',
         engine_ready E env argv cs' ds' ->
         open_in env name = None ->
         exists p,
           main E env fuel argv = Exit 1%Z p
           /\ stderr (pio p) = [("Cannot open input file." ++ nl)%string]
           /\ Forall (fun c => is_setup_call c = true) (calls (pio p))
           /\ fcs p = Live cs' /\ fds p = Live ds'
           /\ fin (pio p) = closed_fin /\ fout (pio p) = closed_fout)
  /\ (forall cs' ds' data,
         engine_ready E env argv cs' ds' ->
         open_in env name = Some data ->
         open_out env out = None ->
         exists p,
           main E env fuel argv = Exit 1%Z p
           /\ stderr (pio p) = [("Cannot open output file." ++ nl)%string]
           /\ Forall (fun c => is_setup_call c = true) (calls (pio p))
           /\ fcs p = Live cs' /\ fds p = Live ds'
           /\ fin (pio p) = mkFin false data false
           /\ fout (pio p) = closed_fout).
Proof.
  intros (Hlen & next & Hname & Hout) threads preset. subst threads preset.
  apply Nat.ltb_ge in Hlen.
  assert (Hmain : main E env fuel argv
                  = match run env fuel (snd (options_of env argv)) name
                                (parsed E env argv next out) with
                    | Ret r p => Exit r (static_destroy p)
                    | other => other
                    end).
  { unfold main. now rewrite main_body_parsed, Hlen, Hname, Hout. }
  rewrite Hmain, run_unfolded.
  cbn [parsed thread_count out_name bCompress pio fcs fds].
  split; [|split; [|split; [|split]]].
  - intros ->. eexists. split; [reflexivity|]. ends. repeat split.
  - intros cs -> ->. eexists. split; [reflexivity|]. ends. repeat split.
  - intros cs ds cs' ds' r r' -> -> -> -> ->.
    eexists. split; [reflexivity|]. ends. repeat split.
  - intros cs' ds' (cs & ds & r & r' & -> & -> & -> & -> & ->) ->.
    eexists. split; [reflexivity|]. ends. repeat split.
    apply setup_calls_setup.
  - intros cs' ds' data (cs & ds & r & r' & -> & -> & -> & -> & ->) -> ->.
    eexists. split; [reflexivity|]. ends. repeat split.
    apply setup_calls_setup.
Qed.

Lemma setup_failures_witness :
  exists p,
    main PairCodec.engine (env_with None None) 10
         ["FastLZMA2Tool"; "decompress"; "gone.lzma2"]%string
    = Exit 1%Z p
    /\ stderr (pio p) = [("Cannot open input file." ++ nl)%string]
    /\ Forall (fun c => is_setup_call c = true) (calls (pio p))
    /\ fcs p = Live tt /\ fds p = Live PairCodec.Tag
    /\ fin (pio p) = closed_fin /\ fout (pio p) = closed_fout.
Proof.
  assert (Hn : named (env_with None None)
                     ["FastLZMA2Tool"; "decompress"; "gone.lzma2"]%string
                     "gone.lzma2" "gone")
    by (split; [simpl; lia|]; exists None; split; reflexivity).
  apply (proj1 (proj2 (proj2 (proj2
           (@setup_failures PairCodec.engine (env_with None None) 10
              ["FastLZMA2Tool"; "decompress"; "gone.lzma2"]%string
              "gone.lzma2" "gone" Hn))))).
  - exists tt, PairCodec.Tag, 0%N, 0%N. repeat split.
  - reflexivity.
Defined.

(* ================================================================= *)
(** ** Reading and writing the same name *)

(** X16.  A decompression run that is given an input name not ending with
    [".lzma2"], and no output name, takes the input name as the output
    name: when it has made a feed call, it has opened that one name for
    reading and then for writing. *)
Theorem decompress_onto_input
        (E : Engine) (env : Env) (fuel : nat) (argv : list string)
        (file : string) (code : Z) (p : Process E) :
  mode_of argv = false ->
  find_name (skipn (arg_index argv) argv) = Some (file, None) ->
  ~ ends_with_postfix file ->
  main E env fuel argv = Exit code p ->
  Exists (fun c => is_pump_call c = true) (calls (pio p)) ->
  out_path (fout (pio p)) = file
  /\ open_in env file <> None
  /\ open_out env file <> None.
Proof.
  intros Hdec Hfind Hsuffix H Hex.
  main_cases H argv; revert Hex; ends; intros Hex;
    try (exfalso; apply (no_pump_call (l := [])); [constructor | exact Hex]);
    try solve [exfalso; eapply no_pump_call; [|exact Hex];
               first [ apply setup_calls_setup
                     | apply Forall_app; split;
                       [apply setup_calls_setup | repeat constructor]
                     | repeat constructor ]].
  - congruence.
  - injection Hfind as -> ->. rewrite Hdec in Hout.
    change (chosen_out file None) with file in *.
    apply resolve_decompress_cases in Hout as [[Hs _] | [_ ->]];
      [contradiction|].
    destruct (@decompress_file_advance E _ _ _ _ _ Hpump) as (_ & Hp & _).
    revert Hp; ends; intros Hp. cbn [close_fout out_path].
    rewrite Hp, Hin, Hopen. repeat split; discriminate.
Qed.

Lemma decompress_onto_input_witness :
  exists p,
    main PairCodec.engine (env_with (Some [x00]) None) 10
         ["FastLZMA2Tool"; "decompress"; "archive"]%string
    = Exit 0%Z p
    /\ out_path (fout (pio p)) = "archive"%string.
Proof.
  eexists. split; [vm_compute; reflexivity|].
  refine (proj1 (@decompress_onto_input PairCodec.engine
                   (env_with (Some [x00]) None) 10
                   ["FastLZMA2Tool"; "decompress"; "archive"]%string
                   "archive" 0%Z _ eq_refl eq_refl _ _ _)).
  - intros Hs. apply has_postfix_true in Hs. discriminate Hs.
  - vm_compute. reflexivity.
  - vm_compute. do 4 apply Exists_cons_tl. apply Exists_cons_hd. reflexivity.
Defined.
